(** * avatargen: the job poller, the segment composer and the sequence assembler

    A shallow embedding of [cricket_avatar_generator.py],
    [cricket_video_composer.py] and the last two stages of [main.py].

    The network, the clock, the file-system queries and the external media
    tools are the environment: a record of oracles over an abstract world
    [W].  A computation takes the world and yields its outcome (a value or a
    propagating exception), the world it leaves and the trace of its effects.
    Beside the effects, the trace marks the poller's calls to
    [check_video_status] and [download_video] with the job they are made
    for.  Console output is not part of the model, except the per-round
    banner of the poller, which the trace keeps as [EvRound].

    Python values are modelled as follows: [str] as [string] (a sequence of
    code points below 256), [int] as [Z], [None]-able values as [option],
    decoded JSON as [json].  The duration of a mock job is a binary64
    [float], computed as IEEE 754 computes it; the durations the media tools
    are given are exact rationals [Q].  Opening a file for writing succeeds
    in the directories the constructors create ([avatar_videos],
    [temp_video_files], [cricket_output]); for a path elsewhere the
    environment says whether it does.  A download can break while its file
    is being written. *)

From Stdlib Require Import ZArith QArith String Ascii List Bool Lia.
From Stdlib Require Import DecimalString Permutation.
From Stdlib Require Import Floats.SpecFloat.
Import ListNotations.
Local Open Scope string_scope.
Local Open Scope Z_scope.

Set Implicit Arguments.
Set Warnings "-register-all".

(* Keeps string literals folded under [simpl]. *)
Local Arguments append : simpl never.

(* ===================================================================== *)
(** ** Python helpers *)
(* ===================================================================== *)

(** [str(n)] for an [int]. *)
Definition str_of_Z (n : Z) : string := NilZero.string_of_int (Z.to_int n).

(** Truth value of a [str]: empty is false. *)
Definition str_truthy (s : string) : bool :=
  match s with EmptyString => false | String _ _ => true end.

(** Truth value of an optional [str]: [None] and [""] are false. *)
Definition opt_truthy (o : option string) : bool :=
  match o with None => false | Some s => str_truthy s end.

(** [os.path.join(d, f)] for a relative [f] and a directory [d] without a
    trailing separator, the only way the program calls it. *)
Definition path_join (d f : string) : string := d ++ "/" ++ f.

(** [c.isspace()] on code points below 256. *)
Definition isspace (c : ascii) : bool :=
  let n := Z.of_nat (nat_of_ascii c) in
  ((9 <=? n) && (n <=? 13)) || ((28 <=? n) && (n <=? 32))
  || (n =? 133) || (n =? 160).

(** [s.split()]: the maximal runs of non-whitespace; [cur] is the run being
    read. *)
Fixpoint split_from (cur : string) (s : string) : list string :=
  match s with
  | EmptyString => if str_truthy cur then [cur] else []
  | String c rest =>
      if isspace c
      then (if str_truthy cur then cur :: split_from "" rest
            else split_from "" rest)
      else split_from (cur ++ String c "") rest
  end.

Definition split (s : string) : list string := split_from "" s.

(** [needle in hay]. *)
Fixpoint contains (needle hay : string) : bool :=
  String.prefix needle hay
  || match hay with
     | EmptyString => false
     | String _ rest => contains needle rest
     end.

(** [l.remove(x)]: drops the first element equal to [x]; [None] stands for
    the [ValueError] of an absent element. *)
Fixpoint list_remove {A : Type} (eqb : A -> A -> bool) (x : A) (l : list A)
  : option (list A) :=
  match l with
  | [] => None
  | y :: l' =>
      if eqb y x then Some l'
      else match list_remove eqb x l' with
           | Some r => Some (y :: r)
           | None => None
           end
  end.

(* ===================================================================== *)
(** ** Python floats *)
(* ===================================================================== *)

(** A binary64 value: 53 bits of precision, exponents below 1024. *)
Definition float : Type := spec_float.

(** [float(n)] for an [int], rounded to the nearest, ties to even. *)
Definition float_of_Z (n : Z) : float := binary_normalize 53 1024 n 0 false.

(** [x * y] *)
Definition float_mul (x y : float) : float := SFmul 53 1024 x y.

(** The literal [0.4]: the binary64 value nearest to four tenths,
    [0x1.999999999999ap-2]. *)
Definition point_four : float := S754_finite false 7205759403792794 (-54).

(** Equality of representations.  On the durations the program computes
    (finite, not negative) this is Python's [==]. *)
Definition float_eqb (x y : float) : bool :=
  match x, y with
  | S754_zero s, S754_zero s' => Bool.eqb s s'
  | S754_infinity s, S754_infinity s' => Bool.eqb s s'
  | S754_nan, S754_nan => true
  | S754_finite s m e, S754_finite s' m' e' =>
      Bool.eqb s s' && Pos.eqb m m' && Z.eqb e e'
  | _, _ => false
  end.

(* ===================================================================== *)
(** ** Decoded JSON *)
(* ===================================================================== *)

Inductive json : Type :=
| JNull
| JBool (b : bool)
| JNum (n : Z)
| JStr (s : string)
| JArr (items : list json)
| JObj (fields : list (string * json)).

(** Structural equality.  On the values the program stores in a task (job
    identifiers: strings or [None]) this is Python's [==]. *)
Fixpoint json_eqb (a b : json) {struct a} : bool :=
  match a, b with
  | JNull, JNull => true
  | JBool x, JBool y => Bool.eqb x y
  | JNum x, JNum y => Z.eqb x y
  | JStr x, JStr y => String.eqb x y
  | JArr xs, JArr ys =>
      (fix all2 (l1 l2 : list json) {struct l1} : bool :=
         match l1, l2 with
         | [], [] => true
         | x :: l1', y :: l2' => json_eqb x y && all2 l1' l2'
         | _, _ => false
         end) xs ys
  | JObj xs, JObj ys =>
      (fix all2 (l1 l2 : list (string * json)) {struct l1} : bool :=
         match l1, l2 with
         | [], [] => true
         | (k, x) :: l1', (k', y) :: l2' =>
             String.eqb k k' && json_eqb x y && all2 l1' l2'
         | _, _ => false
         end) xs ys
  | _, _ => false
  end.

(** Truth value of a decoded JSON value. *)
Definition json_truthy (j : json) : bool :=
  match j with
  | JNull => false
  | JBool b => b
  | JNum n => negb (n =? 0)
  | JStr s => str_truthy s
  | JArr l => match l with [] => false | _ => true end
  | JObj l => match l with [] => false | _ => true end
  end.

(** [j == s] for a string literal [s]. *)
Definition json_is (j : json) (s : string) : bool :=
  match j with JStr s' => String.eqb s' s | _ => false end.

Fixpoint assoc (k : string) (l : list (string * json)) : option json :=
  match l with
  | [] => None
  | (k', v) :: l' => if String.eqb k' k then Some v else assoc k l'
  end.

(** [d.get(k, default)]; [None] stands for the [AttributeError] raised when
    [d] is not a dict. *)
Definition dict_get (d : json) (k : string) (default : json) : option json :=
  match d with
  | JObj l => Some (match assoc k l with Some v => v | None => default end)
  | _ => None
  end.

(* ===================================================================== *)
(** ** Data *)
(* ===================================================================== *)

(** A commentary segment, as the script stage produces it. *)
Record Segment := {
  seg_id : Z;
  seg_type : string;
  seg_script : string
}.

(** A render job: the dict the [create_avatar_video_*] methods return.  The
    last two keys exist only in a mock job. *)
Record Task := {
  task_provider : string;
  task_video_id : json;
  task_status : string;
  task_segment_id : Z;
  task_video_url : option string;
  task_duration : option float
}.

(** The dict [check_video_status] returns. *)
Record StatusInfo := {
  st_status : json;
  st_video_url : json
}.

(** An entry of [completed_videos]. *)
Record Video := {
  vid_segment_id : Z;
  vid_video_id : json;
  vid_status : string;
  vid_local_path : string
}.

Record Response := {
  status_code : Z;
  body : option json   (* [None]: [response.json()] raises *)
}.

(** [response.raise_for_status()] raises on 4xx and 5xx. *)
Definition raises_for_status (r : Response) : bool :=
  (400 <=? status_code r) && (status_code r <? 600).

(** The invocations of the external media tools. *)
Inductive Cmd : Type :=
| FfmpegVersion
| Ffprobe (input : string)
| FfmpegFade (input output : string) (fade_in fade_out_start fade_out : Q)
| FfmpegImage (image : string) (duration : Q) (output : string)
| FfmpegPip (main overlay output overlay_pos : string)
| FfmpegConcat (concat_file output : string).

Definition opt_eqb {A : Type} (eqb : A -> A -> bool) (a b : option A) : bool :=
  match a, b with
  | Some x, Some y => eqb x y
  | None, None => true
  | _, _ => false
  end.

(** Dict equality of two jobs, key by key. *)
Definition task_eqb (a b : Task) : bool :=
  String.eqb (task_provider a) (task_provider b)
  && json_eqb (task_video_id a) (task_video_id b)
  && String.eqb (task_status a) (task_status b)
  && Z.eqb (task_segment_id a) (task_segment_id b)
  && opt_eqb String.eqb (task_video_url a) (task_video_url b)
  && opt_eqb float_eqb (task_duration a) (task_duration b).

(** What the program does to the outside, in order. *)
Inductive Event : Type :=
| EvSleep (secs : Z)                          (* time.sleep *)
| EvPost (url script : string)                (* requests.post *)
| EvGet (url : string) (video_id : json)      (* requests.get, status *)
| EvGetStream (url : string)                  (* requests.get, download *)
| EvWrite (path content : string)             (* open(path, 'w') *)
| EvRun (cmd : Cmd)                           (* subprocess.run *)
| EvRound (attempt : Z)                       (* "--- Polling attempt" *)
| EvQuery (t : Task)                          (* check_video_status called *)
| EvStatus (t : Task) (info : StatusInfo)     (* ... and what it returned *)
| EvFetch (t : Task) (url : json)             (* download_video called *)
| EvFetched (t : Task) (r : option string).   (* ... and what it returned *)

(** How a streamed download ends.  The file is opened once the response
    has arrived with a good status, and the chunks are written to it as they
    come. *)
Inductive Stream : Type :=
| Refused                       (* the request or [raise_for_status] raised *)
| Broken (received : string)    (* an exception after [received] was written *)
| Streamed (content : string).  (* every chunk arrived *)

(** The environment. *)
Record Env (W : Type) := {
  requests_post : string -> string -> W -> option Response * W;
  requests_get : string -> json -> W -> option Response * W;
  requests_get_stream : string -> W -> Stream * W;
  time_time : W -> Z;
  time_sleep : Z -> W -> W;
  subprocess_run : Cmd -> W -> option (Z * string) * W;
  float_of_str : string -> option Q;
  abspath : string -> string;
  path_exists : string -> W -> bool;
  (* [open(path, 'w')] finds the directory of [path] *)
  writable : string -> W -> bool;
  py_str : json -> string
}.

(* ===================================================================== *)
(** ** The monad: world, events and exceptions *)
(* ===================================================================== *)

Inductive Res (A : Type) : Type :=
| Ok (a : A)
| Raised.   (* a Python exception is propagating *)

Arguments Raised {A}.

(** A computation takes the world and yields its outcome, the world it
    leaves and the events it caused, oldest first. *)
Definition M (W A : Type) : Type := W -> Res A * W * list Event.

Definition ret {W A : Type} (a : A) : M W A := fun w => (Ok a, w, []).

Definition bind {W A B : Type} (m : M W A) (k : A -> M W B) : M W B :=
  fun w =>
    match m w with
    | (Ok a, w1, evs1) =>
        match k a w1 with
        | (r, w2, evs2) => (r, w2, (evs1 ++ evs2)%list)
        end
    | (Raised, w1, evs1) => (Raised, w1, evs1)
    end.

Definition raise {W A : Type} : M W A := fun w => (Raised, w, []).

(** [try: m  except Exception: h] *)
Definition catch {W A : Type} (m h : M W A) : M W A :=
  fun w =>
    match m w with
    | (Ok a, w1, evs1) => (Ok a, w1, evs1)
    | (Raised, w1, evs1) =>
        match h w1 with
        | (r, w2, evs2) => (r, w2, (evs1 ++ evs2)%list)
        end
    end.

Declare Scope monad_scope.
Delimit Scope monad_scope with monad.
Notation "x <- m ;; k" := (bind m (fun x => k))
  (at level 61, m at next level, right associativity) : monad_scope.
Notation "' p <- m ;; k" := (bind m (fun x => let 'p := x in k))
  (at level 61, p pattern, m at next level, right associativity) : monad_scope.
Notation "m ;; k" := (bind m (fun _ => k))
  (at level 61, right associativity) : monad_scope.
Local Open Scope monad_scope.

Definition emit {W : Type} (e : Event) : M W unit :=
  fun w => (Ok tt, w, [e]).

(** Runs an oracle of the environment on the world, logged as [e]. *)
Definition call {W A : Type} (e : Event) (f : W -> A * W) : M W A :=
  fun w => let (a, w') := f w in (Ok a, w', [e]).

Definition read {W A : Type} (f : W -> A) : M W A :=
  fun w => (Ok (f w), w, []).

Definition result {W A : Type} (m : M W A) (w : W) : Res A := fst (fst (m w)).
Definition world_after {W A : Type} (m : M W A) (w : W) : W := snd (fst (m w)).
Definition events {W A : Type} (m : M W A) (w : W) : list Event := snd (m w).

(** Every event of [m], from any world, satisfies [P]. *)
Definition emits_only {W A : Type} (P : Event -> Prop) (m : M W A) : Prop :=
  forall w, Forall P (events m w).

(* ===================================================================== *)
(** ** cricket_avatar_generator.py *)
(* ===================================================================== *)

(** The fields of an [AvatarVideoGenerator] the methods read. *)
Record AvatarVideoGenerator := {
  provider : string;
  api_key : option string
}.

Definition output_dir : string := "avatar_videos".
Definition heygen_create : string := "https://api.heygen.com/v2/video/generate".
Definition heygen_status : string := "https://api.heygen.com/v1/video_status.get".
Definition did_create : string := "https://api.d-id.com/talks".
Definition did_status : string := "https://api.d-id.com/talks/".

Definition max_attempts : nat := 60.

Section AvatarGenerator.

Context {W : Type} (env : Env W).

Definition sleep (secs : Z) : M W unit :=
  call (EvSleep secs) (fun w => (tt, time_sleep env secs w)).

Definition post (url script : string) : M W (option Response) :=
  call (EvPost url script) (requests_post env url script).

Definition get (url : string) (video_id : json) : M W (option Response) :=
  call (EvGet url video_id) (requests_get env url video_id).

Definition get_stream (url : string) : M W Stream :=
  call (EvGetStream url) (requests_get_stream env url).

Definition write_file (path content : string) : M W unit :=
  emit (EvWrite path content).

(** The dict [_create_mock_response] builds when the clock reads [now]. *)
Definition mock_response (segment_id : Z) (script : string) (now : Z) : Task :=
  {| task_provider := "mock";
     task_video_id :=
       JStr ("mock_video_" ++ str_of_Z segment_id ++ "_" ++ str_of_Z now);
     task_status := "completed";
     task_segment_id := segment_id;
     task_video_url :=
       Some ("mock_avatar_segment_" ++ str_of_Z segment_id ++ ".mp4");
     task_duration :=
       Some (float_mul (float_of_Z (Z.of_nat (length (split script))))
               point_four) |}.

(** [_create_mock_response] *)
Definition _create_mock_response (segment_id : Z) (script : string) : M W Task :=
  now <- read (time_time env) ;;
  ret (mock_response segment_id script now).

(** What the [try] block of [create_avatar_video_heygen] reads from the
    response; [None] is any exception raised on the way. *)
Definition heygen_created_id (r : option Response) : option json :=
  match r with
  | None => None
  | Some response =>
      if raises_for_status response then None
      else match body response with
           | None => None
           | Some result =>
               match dict_get result "data" (JObj []) with
               | None => None
               | Some data => dict_get data "video_id" JNull
               end
           end
  end.

(** [create_avatar_video_heygen] *)
Definition create_avatar_video_heygen (self : AvatarVideoGenerator)
    (script : string) (segment_id : Z) : M W Task :=
  if negb (opt_truthy (api_key self))
  then _create_mock_response segment_id script
  else
    r <- post heygen_create script ;;
    match heygen_created_id r with
    | Some video_id =>
        ret {| task_provider := "heygen";
               task_video_id := video_id;
               task_status := "processing";
               task_segment_id := segment_id;
               task_video_url := None;
               task_duration := None |}
    | None => _create_mock_response segment_id script
    end.

Definition did_created_id (r : option Response) : option json :=
  match r with
  | None => None
  | Some response =>
      if raises_for_status response then None
      else match body response with
           | None => None
           | Some result => dict_get result "id" JNull
           end
  end.

(** [create_avatar_video_did] *)
Definition create_avatar_video_did (self : AvatarVideoGenerator)
    (script : string) (segment_id : Z) : M W Task :=
  if negb (opt_truthy (api_key self))
  then _create_mock_response segment_id script
  else
    r <- post did_create script ;;
    match did_created_id r with
    | Some video_id =>
        ret {| task_provider := "d-id";
               task_video_id := video_id;
               task_status := "processing";
               task_segment_id := segment_id;
               task_video_url := None;
               task_duration := None |}
    | None => _create_mock_response segment_id script
    end.

Definition error_status : StatusInfo :=
  {| st_status := JStr "error"; st_video_url := JNull |}.

(** The [try] block of [check_video_status]; [response] is [None] when the
    name is unbound (a provider that is neither "heygen" nor "d-id"). *)
Definition read_status (provider : string) (response : option Response)
  : StatusInfo :=
  match response with
  | None => error_status
  | Some response =>
      if raises_for_status response then error_status
      else match body response with
           | None => error_status
           | Some result =>
               if String.eqb provider "heygen" then
                 match dict_get result "data" (JObj []) with
                 | None => error_status
                 | Some data =>
                     match dict_get data "status" JNull,
                           dict_get data "video_url" JNull with
                     | Some st, Some url =>
                         {| st_status := st; st_video_url := url |}
                     | _, _ => error_status
                     end
                 end
               else if String.eqb provider "d-id" then
                 match dict_get result "status" JNull,
                       dict_get result "result_url" JNull with
                 | Some st, Some url =>
                     {| st_status := st; st_video_url := url |}
                 | _, _ => error_status
                 end
               else error_status   (* not reached: [response] is unbound *)
           end
  end.

(** [check_video_status].  The two [requests.get] calls sit outside the
    [try]: an exception of theirs propagates. *)
Definition check_video_status (self : AvatarVideoGenerator)
    (video_id : json) (provider_arg : option string) : M W StatusInfo :=
  let provider :=
    if opt_truthy provider_arg
    then match provider_arg with Some p => p | None => provider self end
    else provider self in
  if String.eqb provider "mock" then
    ret {| st_status := JStr "completed";
           st_video_url :=
             JStr ("mock_video_" ++ py_str env video_id ++ ".mp4") |}
  else if negb (opt_truthy (api_key self)) then
    ret {| st_status := JStr "completed";
           st_video_url := JStr ("mock_" ++ py_str env video_id ++ ".mp4") |}
  else if String.eqb provider "heygen" then
    r <- get heygen_status video_id ;;
    match r with
    | None => raise
    | Some response => ret (read_status provider (Some response))
    end
  else if String.eqb provider "d-id" then
    r <- get (did_status ++ py_str env video_id) video_id ;;
    match r with
    | None => raise
    | Some response => ret (read_status provider (Some response))
    end
  else ret (read_status provider None).

(** [download_video].  A locator that is not a [str] has no [startswith]:
    the [AttributeError] is raised before the [try].  Inside the [try], an
    exception while the chunks are written leaves the file with what was
    written so far, and [None] is returned. *)
Definition download_video (video_url : json) (filename : string)
  : M W (option string) :=
  match video_url with
  | JStr url =>
      let filepath := path_join output_dir filename in
      if String.prefix "mock_" url then
        write_file filepath ("Mock video placeholder: " ++ url) ;;
        ret (Some filepath)
      else
        r <- get_stream url ;;
        match r with
        | Streamed content => write_file filepath content ;; ret (Some filepath)
        | Broken received => write_file filepath received ;; ret None
        | Refused => ret None
        end
  | _ => raise
  end.

(** [pending_tasks.remove(task)] *)
Definition remove_task (task : Task) (pending : list Task) : M W (list Task) :=
  match list_remove task_eqb task pending with
  | Some l => ret l
  | None => raise
  end.

Definition completed_video (task : Task) (local_path : string) : Video :=
  {| vid_segment_id := task_segment_id task;
     vid_video_id := task_video_id task;
     vid_status := "completed";
     vid_local_path := local_path |}.

(** The body of [for task in tasks_to_check], over the rest of the
    snapshot.  It carries the two lists the loop mutates. *)
Fixpoint poll_round (self : AvatarVideoGenerator) (tasks_to_check : list Task)
    (pending_tasks : list Task) (completed_videos : list Video)
  : M W (list Task * list Video) :=
  match tasks_to_check with
  | [] => ret (pending_tasks, completed_videos)
  | task :: rest =>
      if String.eqb (task_provider task) "mock" then
        let filepath :=
          path_join output_dir
            ("segment_" ++ str_of_Z (task_segment_id task) ++ ".mp4") in
        write_file filepath
          ("Mock video for segment " ++ str_of_Z (task_segment_id task)) ;;
        pending_tasks' <- remove_task task pending_tasks ;;
        poll_round self rest pending_tasks'
          (completed_videos ++ [completed_video task filepath])%list
      else
        emit (EvQuery task) ;;
        status_info <- check_video_status self (task_video_id task)
                         (Some (task_provider task)) ;;
        emit (EvStatus task status_info) ;;
        if json_is (st_status status_info) "completed"
           && json_truthy (st_video_url status_info)
        then
          let filename :=
            "segment_" ++ str_of_Z (task_segment_id task) ++ ".mp4" in
          emit (EvFetch task (st_video_url status_info)) ;;
          local_path <- download_video (st_video_url status_info) filename ;;
          emit (EvFetched task local_path) ;;
          let completed_videos' :=
            match local_path with
            | Some p =>
                if str_truthy p
                then (completed_videos ++ [completed_video task p])%list
                else completed_videos
            | None => completed_videos
            end in
          pending_tasks' <- remove_task task pending_tasks ;;
          poll_round self rest pending_tasks' completed_videos'
        else if json_is (st_status status_info) "error" then
          pending_tasks' <- remove_task task pending_tasks ;;
          poll_round self rest pending_tasks' completed_videos
        else
          (* "processing", "pending" and any other status: still pending *)
          poll_round self rest pending_tasks completed_videos
  end.

Definition nonempty {A : Type} (l : list A) : bool :=
  match l with [] => false | _ => true end.

(** [while pending_tasks and attempt < max_attempts].  [budget] is
    [max_attempts - attempt], the rounds that are left. *)
Fixpoint poll_loop (self : AvatarVideoGenerator) (budget : nat) (attempt : Z)
    (pending_tasks : list Task) (completed_videos : list Video)
  : M W (Z * list Task * list Video) :=
  match budget with
  | O => ret (attempt, pending_tasks, completed_videos)
  | S budget' =>
      if nonempty pending_tasks then
        let attempt := attempt + 1 in
        emit (EvRound attempt) ;;
        ' (pending_tasks', completed_videos') <-
          poll_round self pending_tasks pending_tasks completed_videos ;;
        (if nonempty pending_tasks' then sleep 5 else ret tt) ;;
        poll_loop self budget' attempt pending_tasks' completed_videos'
      else ret (attempt, pending_tasks, completed_videos)
  end.

(** Part 2 of [generate_commentary_videos]: the poller.  Beside
    [completed_videos], the value the method returns, it yields the final
    [attempt] and the final [pending_tasks], which the method only prints. *)
Definition poll_videos (self : AvatarVideoGenerator) (video_tasks : list Task)
  : M W (Z * list Task * list Video) :=
  poll_loop self max_attempts 0 video_tasks [].

(** The [if]/[elif]/[else] on [self.provider] that submits one segment. *)
Definition create_task (self : AvatarVideoGenerator) (segment : Segment)
  : M W Task :=
  if String.eqb (provider self) "heygen" then
    create_avatar_video_heygen self (seg_script segment) (seg_id segment)
  else if String.eqb (provider self) "d-id" then
    create_avatar_video_did self (seg_script segment) (seg_id segment)
  else _create_mock_response (seg_id segment) (seg_script segment).

(** Part 1 of [generate_commentary_videos]: one job per segment, each
    followed by the pacing delay. *)
Fixpoint create_tasks (self : AvatarVideoGenerator) (segments : list Segment)
    (video_tasks : list Task) : M W (list Task) :=
  match segments with
  | [] => ret video_tasks
  | segment :: rest =>
      task <- create_task self segment ;;
      sleep 1 ;;
      create_tasks self rest (video_tasks ++ [task])%list
  end.

(** [generate_commentary_videos] *)
Definition generate_commentary_videos (self : AvatarVideoGenerator)
    (segments : list Segment) : M W (list Video) :=
  video_tasks <- create_tasks self segments [] ;;
  ' (_, _, completed_videos) <- poll_videos self video_tasks ;;
  ret completed_videos.

End AvatarGenerator.

(* ===================================================================== *)
(** ** cricket_video_composer.py *)
(* ===================================================================== *)

(** The field of a [VideoComposer] that differs between its users. *)
Record VideoComposer := {
  output_filename : string
}.

Definition temp_dir : string := "temp_video_files".

(** The chart stage's result, read through [charts.get]. *)
Definition Charts : Type := string -> option string.

Section Composer.

Context {W : Type} (env : Env W).

Definition run (cmd : Cmd) : M W (option (Z * string)) :=
  call (EvRun cmd) (subprocess_run env cmd).

(** [result.returncode == 0], [False] when [subprocess.run] raised. *)
Definition returned_zero (r : option (Z * string)) : bool :=
  match r with
  | Some (returncode, _) => returncode =? 0
  | None => false
  end.

(** [check_ffmpeg] *)
Definition check_ffmpeg : M W bool :=
  r <- run FfmpegVersion ;;
  ret (returned_zero r).

(** [create_image_video] *)
Definition create_image_video (image_path : string) (duration : Q)
    (output_path : string) : M W bool :=
  r <- run (FfmpegImage image_path duration output_path) ;;
  ret (returned_zero r).

(** [add_fade_transition]: the probe's exit code is not looked at, its
    output must parse as a number. *)
Definition add_fade_transition (input_path output_path : string)
    (fade_in fade_out : Q) : M W bool :=
  probe <- run (Ffprobe input_path) ;;
  match probe with
  | None => ret false
  | Some (_, stdout) =>
      match float_of_str env stdout with
      | None => ret false
      | Some duration =>
          let fade_out_start := (duration - fade_out)%Q in
          r <- run (FfmpegFade input_path output_path
                      fade_in fade_out_start fade_out) ;;
          ret (returned_zero r)
      end
  end.

(** [positions.get(position, positions["topright"])] *)
Definition overlay_position (position : string) : string :=
  if String.eqb position "topright" then "main_w-overlay_w-20:20"
  else if String.eqb position "topleft" then "20:20"
  else if String.eqb position "bottomright"
       then "main_w-overlay_w-20:main_h-overlay_h-20"
  else if String.eqb position "bottomleft" then "20:main_h-overlay_h-20"
  else "main_w-overlay_w-20:20".

(** [create_picture_in_picture] *)
Definition create_picture_in_picture (main_video overlay_video
    output_path position : string) : M W bool :=
  r <- run (FfmpegPip main_video overlay_video output_path
              (overlay_position position)) ;;
  ret (returned_zero r).

Definition concat_line (video_path : string) : string :=
  "file '" ++ abspath env video_path ++ "'" ++ String (ascii_of_nat 10) "".

Definition concat_file : string := path_join temp_dir "concat_list.txt".

(** [concatenate_videos] *)
Definition concatenate_videos (video_list : list string)
    (output_path : string) : M W bool :=
  write_file concat_file (String.concat "" (map concat_line video_list)) ;;
  r <- run (FfmpegConcat concat_file output_path) ;;
  ret (returned_zero r).

Definition composed_path (segment_id : Z) : string :=
  path_join temp_dir ("composed_segment_" ++ str_of_Z segment_id ++ ".mp4").

Definition chart_video_path (segment_id : Z) : string :=
  path_join temp_dir ("chart_video_" ++ str_of_Z segment_id ++ ".mp4").

Definition pip_path (segment_id : Z) : string :=
  path_join temp_dir ("pip_segment_" ++ str_of_Z segment_id ++ ".mp4").

(** [compose_segment] *)
Definition compose_segment (segment_info : Video)
    (chart_path : option string) : M W (option string) :=
  let segment_id := vid_segment_id segment_info in
  let avatar_video := vid_local_path segment_info in
  let output_path := composed_path segment_id in
  if negb (opt_truthy chart_path) then
    ok <- add_fade_transition avatar_video output_path (1 # 2) (1 # 2) ;;
    if ok then ret (Some output_path) else ret None
  else
    let chart := match chart_path with Some c => c | None => "" end in
    let chart_video := chart_video_path segment_id in
    converted <- create_image_video chart (8 # 1) chart_video ;;
    if negb converted then ret (Some avatar_video)
    else
      let pip_path := pip_path segment_id in
      pip <- create_picture_in_picture avatar_video chart_video pip_path
               "bottomright" ;;
      if pip then
        ok <- add_fade_transition pip_path output_path (1 # 2) (1 # 2) ;;
        if ok then ret (Some output_path) else ret (Some avatar_video)
      else ret (Some avatar_video).

(** [chart_mapping.get(segment_id)] *)
Definition chart_mapping (charts : Charts) (segment_id : Z) : option string :=
  if segment_id =? 1 then charts "run_rate"
  else if segment_id =? 2 then None
  else if segment_id =? 3 then charts "manhattan"
  else None.

(** The loop of [create_final_video] that fills [composed_segments]. *)
Fixpoint compose_all (charts : Charts) (segments : list Video)
    (composed_segments : list string) : M W (list string) :=
  match segments with
  | [] => ret composed_segments
  | segment :: rest =>
      let chart_path := chart_mapping charts (vid_segment_id segment) in
      composed <- compose_segment segment chart_path ;;
      compose_all charts rest
        (if opt_truthy composed
         then match composed with
              | Some p => (composed_segments ++ [p])%list
              | None => composed_segments
              end
         else composed_segments)
  end.

Definition newline : string := String (ascii_of_nat 10) "".

Definition manifest_line (seg : Video) : string :=
  "Segment " ++ str_of_Z (vid_segment_id seg) ++ ": "
  ++ vid_local_path seg ++ newline.

(** [create_final_video] *)
Definition create_final_video (self : VideoComposer) (segments : list Video)
    (charts : Charts) : M W (option string) :=
  ffmpeg <- check_ffmpeg ;;
  if negb ffmpeg then
    let mock_output := "mock_" ++ output_filename self in
    (* [open] raises when the directory of [mock_output] is not there *)
    opened <- read (writable env mock_output) ;;
    if opened then
      write_file mock_output
        ("Mock final video - FFmpeg required for actual composition" ++ newline
         ++ String.concat "" (map manifest_line segments)) ;;
      ret (Some mock_output)
    else raise
  else
    composed_segments <- compose_all charts segments [] ;;
    if negb (nonempty composed_segments) then ret None
    else
      ok <- concatenate_videos composed_segments (output_filename self) ;;
      if ok then
        (* [os.path.getsize] raises when the file is not there *)
        written <- read (path_exists env (output_filename self)) ;;
        if written then ret (Some (output_filename self)) else raise
      else ret None.

End Composer.

(* ===================================================================== *)
(** ** main.py: stages 3 and 4, and the stage sequence *)
(* ===================================================================== *)

Definition pipeline_output_dir : string := "cricket_output".

(** The fields of a [CricketCommentaryPipeline] the last two stages use. *)
Record Pipeline := {
  avatar_api_key : option string;
  avatar_provider : string;
  script_segments : list Segment;
  charts : Charts;
  avatar_videos : list Video;
  final_video : option string
}.

Section Main.

Context {W : Type} (env : Env W).

(** [generate_avatar_videos]: the stage fails only on an exception. *)
Definition generate_avatar_videos (self : Pipeline) : M W (bool * Pipeline) :=
  let avatar_gen :=
    {| provider := avatar_provider self; api_key := avatar_api_key self |} in
  catch
    (videos <- generate_commentary_videos env avatar_gen
                 (script_segments self) ;;
     ret (true, {| avatar_api_key := avatar_api_key self;
                   avatar_provider := avatar_provider self;
                   script_segments := script_segments self;
                   charts := charts self;
                   avatar_videos := videos;
                   final_video := final_video self |}))
    (ret (false, self)).

Definition with_final_video (self : Pipeline) (v : option string) : Pipeline :=
  {| avatar_api_key := avatar_api_key self;
     avatar_provider := avatar_provider self;
     script_segments := script_segments self;
     charts := charts self;
     avatar_videos := avatar_videos self;
     final_video := v |}.

(** [compose_final_video] *)
Definition compose_final_video (self : Pipeline) : M W (bool * Pipeline) :=
  let composer :=
    {| output_filename :=
         path_join pipeline_output_dir "cricket_commentary_final.mp4" |} in
  catch
    (ffmpeg <- check_ffmpeg env ;;
     if negb ffmpeg then
       let path := path_join pipeline_output_dir "mock_final_video.txt" in
       write_file path
         ("Mock final video" ++ newline
          ++ "Install FFmpeg for actual video composition" ++ newline) ;;
       ret (true, with_final_video self (Some path))
     else
       v <- create_final_video env composer (avatar_videos self)
              (charts self) ;;
       let self' := with_final_video self v in
       match v with
       | Some path =>
           exists_ <- read (path_exists env path) ;;
           if str_truthy path && exists_ then ret (true, self')
           else ret (false, self')
       | None => ret (false, self')
       end)
    (ret (false, self)).

(** [run_full_pipeline], from the state the script and chart stages leave
    when they succeed: stage 3, then stage 4, stopping at the first that
    reports failure. *)
Definition run_full_pipeline (self : Pipeline) : M W bool :=
  catch
    (' (ok3, self3) <- generate_avatar_videos self ;;
     if negb ok3 then ret false
     else
       ' (ok4, self4) <- compose_final_video self3 ;;
       if negb ok4 then ret false else ret true)
    (ret false).

End Main.

(* ===================================================================== *)
(** ** Reading a trace *)
(* ===================================================================== *)

(** [task['provider'] == 'mock'] *)
Definition is_mock (t : Task) : bool := String.eqb (task_provider t) "mock".

Definition is_sleep (e : Event) : bool :=
  match e with EvSleep _ => true | _ => false end.

Definition is_round (e : Event) : bool :=
  match e with EvRound _ => true | _ => false end.

(** A call that leaves the machine. *)
Definition is_remote (e : Event) : bool :=
  match e with
  | EvPost _ _ | EvGet _ _ | EvGetStream _ => true
  | _ => false
  end.

(** The number of poll rounds a trace went through. *)
Definition rounds (evs : list Event) : nat := length (filter is_round evs).

(** The delays of a trace, in order. *)
Definition sleep_of (e : Event) : list Z :=
  match e with EvSleep secs => [secs] | _ => [] end.

Definition sleeps (evs : list Event) : list Z := flat_map sleep_of evs.

Definition total_sleep (evs : list Event) : Z := fold_right Z.add 0 (sleeps evs).

(** The status is "completed" and a locator came with it. *)
Definition completed_with_locator (info : StatusInfo) : bool :=
  json_is (st_status info) "completed" && json_truthy (st_video_url info).

(** A status after which the poller takes the job out of [pending_tasks]. *)
Definition terminal (info : StatusInfo) : bool :=
  completed_with_locator info || json_is (st_status info) "error".

(** The jobs whose status was asked for, in order. *)
Definition query_of (e : Event) : list Task :=
  match e with EvQuery t => [t] | _ => [] end.

Definition queried (evs : list Event) : list Task := flat_map query_of evs.

(** The jobs a fetch was attempted for, in order. *)
Definition fetch_of (e : Event) : list Task :=
  match e with EvFetch t _ => [t] | _ => [] end.

Definition fetched (evs : list Event) : list Task := flat_map fetch_of evs.

(** The jobs polled "completed" with a locator, in order. *)
Definition located_of (e : Event) : list Task :=
  match e with
  | EvStatus t info => if completed_with_locator info then [t] else []
  | _ => []
  end.


(** The jobs that got a terminal status, in order. *)
Definition settled_of (e : Event) : list Task :=
  match e with
  | EvStatus t info => if terminal info then [t] else []
  | _ => []
  end.

Definition settled (evs : list Event) : list Task := flat_map settled_of evs.

(** The jobs that left [pending_tasks] without an entry in
    [completed_videos]: status "error", or a fetch that gave no path. *)
Definition dropped_of (e : Event) : list Task :=
  match e with
  | EvStatus t info =>
      if completed_with_locator info then []
      else if json_is (st_status info) "error" then [t] else []
  | EvFetched t r => if opt_truthy r then [] else [t]
  | _ => []
  end.

Definition dropped (evs : list Event) : list Task := flat_map dropped_of evs.

(** The entries of the jobs whose fetch gave a file, in order. *)
Definition fetched_file_of (e : Event) : list Video :=
  match e with
  | EvFetched t (Some p) => if str_truthy p then [completed_video t p] else []
  | _ => []
  end.

Definition fetched_files (evs : list Event) : list Video :=
  flat_map fetched_file_of evs.

(** A status query is for a job that is not a mock one. *)
Definition queries_live_only (e : Event) : Prop :=
  match e with
  | EvQuery t => is_mock t = false
  | _ => True
  end.

(** Some file written in the trace names every clip of [videos]. *)
Definition lists_inputs (evs : list Event) (videos : list Video) : Prop :=
  exists path content,
    In (EvWrite path content) evs
    /\ forall v, In v videos -> contains (vid_local_path v) content = true.

(** The ways a submit call fails inside its [try] block. *)
Definition is_dict (j : json) : bool :=
  match j with JObj _ => true | _ => false end.

Inductive provider_error : string -> option Response -> Prop :=
| transport_error (p : string) :
    provider_error p None
| http_error_status (p : string) (r : Response) :
    400 <= status_code r < 600 ->
    provider_error p (Some r)
| body_not_json (p : string) (r : Response) :
    body r = None ->
    provider_error p (Some r)
| body_not_object (p : string) (r : Response) (j : json) :
    body r = Some j -> is_dict j = false ->
    provider_error p (Some r)
| heygen_data_not_object (r : Response) (l : list (string * json)) (d : json) :
    body r = Some (JObj l) -> assoc "data" l = Some d -> is_dict d = false ->
    provider_error "heygen" (Some r).

(** The job id the [try] block of provider [p]'s submit method reads from a
    reply; [None] when the block raises. *)
Definition created_id (p : string) (r : option Response) : option json :=
  if String.eqb p "heygen" then heygen_created_id r else did_created_id r.

(** A reply that is malformed without raising anything: a good status and a
    JSON object, but no job id where the provider puts it ([.get] then gives
    [None]). *)
Definition reply_lacks_id (p : string) (r : option Response) : Prop :=
  created_id p r = Some JNull.

(** The job a submit method makes of a reply it reads the id [video_id]
    from. *)
Definition live_job (p : string) (video_id : json) (segment_id : Z) : Task :=
  {| task_provider := p;
     task_video_id := video_id;
     task_status := "processing";
     task_segment_id := segment_id;
     task_video_url := None;
     task_duration := None |}.

(** The endpoint [create_task] posts to. *)
Definition create_endpoint (self : AvatarVideoGenerator) : string :=
  if String.eqb (provider self) "heygen" then heygen_create else did_create.

(** How the composed clips relate to the segments they come from: in
    segment order, each segment giving its composed clip, its bare avatar
    clip, or nothing. *)
Inductive clips_of : list Video -> list string -> Prop :=
| clips_nil : clips_of [] []
| clips_skip (seg : Video) (segs : list Video) (l : list string) :
    clips_of segs l -> clips_of (seg :: segs) l
| clips_composed (seg : Video) (segs : list Video) (l : list string) :
    clips_of segs l ->
    clips_of (seg :: segs) (composed_path (vid_segment_id seg) :: l)
| clips_avatar (seg : Video) (segs : list Video) (l : list string) :
    clips_of segs l ->
    clips_of (seg :: segs) (vid_local_path seg :: l).

(** [Ok true], as a [bool]. *)
Definition succeeded (r : Res bool) : bool :=
  match r with Ok true => true | _ => false end.

(* ===================================================================== *)
(** ** A scripted environment for concrete runs *)
(* ===================================================================== *)

(** The directories of the scripted file system: the working directory and
    the three the constructors make. *)
Definition in_made_directory (path : string) : bool :=
  negb (contains "/" path)
  || String.prefix "avatar_videos/" path
  || String.prefix "temp_video_files/" path
  || String.prefix "cricket_output/" path.

(** The world is a logical clock: every call to the outside takes one tick,
    a sleep takes its length.  The replies are given as functions of the
    request and the clock; a download that is answered arrives whole. *)
Definition scripted
    (post_reply : string -> nat -> option Response)
    (status_reply : json -> nat -> option Response)
    (download : string -> nat -> option string)
    (tool : Cmd -> nat -> option (Z * string)) : Env nat :=
  {| requests_post := fun _ script w => (post_reply script w, S w);
     requests_get := fun _ video_id w => (status_reply video_id w, S w);
     requests_get_stream :=
       fun url w => (match download url w with
                     | Some content => Streamed content
                     | None => Refused
                     end, S w);
     time_time := fun w => 1700000000 + Z.of_nat w;
     time_sleep := fun secs w => (w + Z.to_nat secs)%nat;
     subprocess_run := fun cmd w => (tool cmd w, S w);
     float_of_str := fun s => if String.eqb s "12.5" then Some (25 # 2) else None;
     abspath := fun p => "/work/" ++ p;
     path_exists := fun _ _ => true;
     writable := fun path _ => in_made_directory path;
     py_str := fun j => match j with JStr s => s | _ => "None" end |}.

Definition reply (code : Z) (j : json) : option Response :=
  Some {| status_code := code; body := Some j |}.

(** HeyGen's replies. *)
Definition heygen_accepts (video_id : string) : option Response :=
  reply 200 (JObj [("data", JObj [("video_id", JStr video_id)])]).

Definition heygen_says (st : string) (url : json) : option Response :=
  reply 200 (JObj [("data", JObj [("status", JStr st); ("video_url", url)])]).

Definition server_error : option Response :=
  Some {| status_code := 500; body := None |}.

(** Nothing is installed: every tool invocation raises. *)
Definition no_tools : Cmd -> nat -> option (Z * string) := fun _ _ => None.

(** Every tool works and clips last 12.5 time units. *)
Definition tools_ok : Cmd -> nat -> option (Z * string) :=
  fun cmd _ =>
    match cmd with
    | Ffprobe _ => Some (0, "12.5")
    | _ => Some (0, "")
    end.

(** Every tool runs, but the probe of a clip prints no duration: the fade
    step fails, and only that step. *)
Definition fade_fails : Cmd -> nat -> option (Z * string) :=
  fun cmd _ =>
    match cmd with
    | Ffprobe _ => Some (0, "N/A")
    | _ => Some (0, "")
    end.

(** The probe finds the tools, no clip can be read. *)
Definition tools_unreadable : Cmd -> nat -> option (Z * string) :=
  fun cmd _ =>
    match cmd with
    | FfmpegVersion => Some (0, "")
    | Ffprobe _ => Some (1, "")
    | _ => Some (1, "")
    end.

(** Nothing answers: every request raises. *)
Definition offline : Env nat :=
  scripted (fun _ _ => None) (fun _ _ => None) (fun _ _ => None) no_tools.

(** HeyGen accepts every script and names the job after it, then reports
    job "one" completed, fails on job "two" with HTTP 500 and keeps every
    other job in processing; downloads work. *)
Definition three_fates : Env nat :=
  scripted
    (fun script _ => heygen_accepts script)
    (fun video_id _ =>
       if json_eqb video_id (JStr "one")
       then heygen_says "completed" (JStr "https://cdn.example/one.mp4")
       else if json_eqb video_id (JStr "two") then server_error
       else heygen_says "processing" JNull)
    (fun _ _ => Some "mp4 data")
    no_tools.

Definition no_key : AvatarVideoGenerator :=
  {| provider := "heygen"; api_key := None |}.

Definition with_key : AvatarVideoGenerator :=
  {| provider := "heygen"; api_key := Some "key" |}.

Definition segment (id : Z) (script : string) : Segment :=
  {| seg_id := id; seg_type := "summary"; seg_script := script |}.

Definition heygen_job (id : Z) (video_id : string) : Task :=
  {| task_provider := "heygen";
     task_video_id := JStr video_id;
     task_status := "processing";
     task_segment_id := id;
     task_video_url := None;
     task_duration := None |}.

Definition avatar_clip (id : Z) : Video :=
  {| vid_segment_id := id;
     vid_video_id := JStr "v";
     vid_status := "completed";
     vid_local_path :=
       path_join output_dir ("segment_" ++ str_of_Z id ++ ".mp4") |}.

(* ===================================================================== *)
(** ** The poller as a step relation on traces *)
(* ===================================================================== *)

(** A call to the network, the file system or a tool. *)
Definition is_io (e : Event) : bool :=
  match e with
  | EvPost _ _ | EvGet _ _ | EvGetStream _ | EvWrite _ _ | EvRun _ => true
  | _ => false
  end.

(** What one pass of the loop body decides for its job. *)
Inductive Verdict : Type :=
| Keep                            (* stays in [pending_tasks] *)
| Drop                            (* removed, nothing recorded *)
| Deliver (local_path : string).  (* removed, recorded as completed *)

Definition fetch_verdict (r : option string) : Verdict :=
  match r with
  | Some p => if str_truthy p then Deliver p else Drop
  | None => Drop
  end.

Definition segment_file (t : Task) : string :=
  "segment_" ++ str_of_Z (task_segment_id t) ++ ".mp4".

(** The placeholder the poller writes for a mock job, and the entry it
    records. *)
Definition mock_write (t : Task) : Event :=
  EvWrite (path_join output_dir (segment_file t))
    ("Mock video for segment " ++ str_of_Z (task_segment_id t)).

Definition mock_video (t : Task) : Video :=
  completed_video t (path_join output_dir (segment_file t)).

(** The events of one pass of the loop body on job [t], and its verdict;
    [None] when an exception ends the pass. *)
Inductive task_polled (t : Task) : list Event -> option Verdict -> Prop :=
| polled_mock :
    is_mock t = true ->
    task_polled t
      [EvWrite (path_join output_dir (segment_file t))
         ("Mock video for segment " ++ str_of_Z (task_segment_id t))]
      (Some (Deliver (path_join output_dir (segment_file t))))
| polled_raised (nevs : list Event) :
    is_mock t = false ->
    Forall (fun e => is_io e = true) nevs ->
    task_polled t (EvQuery t :: nevs) None
| polled_waiting (nevs : list Event) (info : StatusInfo) :
    is_mock t = false ->
    Forall (fun e => is_io e = true) nevs ->
    terminal info = false ->
    task_polled t (EvQuery t :: nevs ++ [EvStatus t info]) (Some Keep)
| polled_error (nevs : list Event) (info : StatusInfo) :
    is_mock t = false ->
    Forall (fun e => is_io e = true) nevs ->
    completed_with_locator info = false ->
    json_is (st_status info) "error" = true ->
    task_polled t (EvQuery t :: nevs ++ [EvStatus t info]) (Some Drop)
| polled_fetch_raised (nevs fevs : list Event) (info : StatusInfo) :
    is_mock t = false ->
    Forall (fun e => is_io e = true) nevs ->
    Forall (fun e => is_io e = true) fevs ->
    completed_with_locator info = true ->
    task_polled t
      (EvQuery t :: nevs
       ++ EvStatus t info :: EvFetch t (st_video_url info) :: fevs)
      None
| polled_fetched (nevs fevs : list Event) (info : StatusInfo)
    (r : option string) :
    is_mock t = false ->
    Forall (fun e => is_io e = true) nevs ->
    Forall (fun e => is_io e = true) fevs ->
    completed_with_locator info = true ->
    task_polled t
      (EvQuery t :: nevs
       ++ EvStatus t info :: EvFetch t (st_video_url info) :: fevs
       ++ [EvFetched t r])
      (Some (fetch_verdict r)).

Definition deliver (t : Task) (v : Verdict) (completed : list Video)
  : list Video :=
  match v with
  | Deliver p => completed ++ [completed_video t p]
  | _ => completed
  end.

(** One round over the snapshot [tasks_to_check]: from the two lists the
    loop mutates to the events of the round and the lists it leaves;
    [None] when an exception ends the round. *)
Inductive round_run :
  list Task -> list Task -> list Video ->
  list Event -> option (list Task * list Video) -> Prop :=
| round_done (pending : list Task) (completed : list Video) :
    round_run [] pending completed [] (Some (pending, completed))
| round_raised (t : Task) (rest pending : list Task) (completed : list Video)
    (evs : list Event) :
    task_polled t evs None ->
    round_run (t :: rest) pending completed evs None
| round_keep (t : Task) (rest pending : list Task) (completed : list Video)
    (evs evs' : list Event) (out : option (list Task * list Video)) :
    task_polled t evs (Some Keep) ->
    round_run rest pending completed evs' out ->
    round_run (t :: rest) pending completed (evs ++ evs') out
| round_remove (t : Task) (rest pending pending' : list Task)
    (completed : list Video) (v : Verdict) (evs evs' : list Event)
    (out : option (list Task * list Video)) :
    task_polled t evs (Some v) ->
    v <> Keep ->
    list_remove task_eqb t pending = Some pending' ->
    round_run rest pending' (deliver t v completed) evs' out ->
    round_run (t :: rest) pending completed (evs ++ evs') out
| round_absent (t : Task) (rest pending : list Task) (completed : list Video)
    (v : Verdict) (evs : list Event) :
    task_polled t evs (Some v) ->
    v <> Keep ->
    list_remove task_eqb t pending = None ->
    round_run (t :: rest) pending completed evs None.

(** The [while] loop with [budget] rounds left. *)
Inductive loop_run :
  nat -> Z -> list Task -> list Video ->
  list Event -> option (Z * list Task * list Video) -> Prop :=
| loop_exhausted (attempt : Z) (pending : list Task) (completed : list Video) :
    loop_run 0 attempt pending completed []
      (Some (attempt, pending, completed))
| loop_finished (budget : nat) (attempt : Z) (completed : list Video) :
    loop_run budget attempt [] completed [] (Some (attempt, [], completed))
| loop_raised (budget : nat) (attempt : Z) (pending : list Task)
    (completed : list Video) (evs : list Event) :
    pending <> [] ->
    round_run pending pending completed evs None ->
    loop_run (S budget) attempt pending completed
      (EvRound (attempt + 1) :: evs) None
| loop_last (budget : nat) (attempt : Z) (pending : list Task)
    (completed completed' : list Video) (evs : list Event) :
    pending <> [] ->
    round_run pending pending completed evs (Some ([], completed')) ->
    loop_run (S budget) attempt pending completed
      (EvRound (attempt + 1) :: evs)
      (Some (attempt + 1, [], completed'))
| loop_again (budget : nat) (attempt : Z) (pending pending' : list Task)
    (completed completed' : list Video) (evs evs' : list Event)
    (out : option (Z * list Task * list Video)) :
    pending <> [] ->
    round_run pending pending completed evs (Some (pending', completed')) ->
    pending' <> [] ->
    loop_run budget (attempt + 1) pending' completed' evs' out ->
    loop_run (S budget) attempt pending completed
      (EvRound (attempt + 1) :: evs ++ EvSleep 5 :: evs') out.

(** An event of a round: neither a sleep nor the banner of a round. *)
Definition in_round (e : Event) : Prop :=
  is_sleep e = false /\ is_round e = false.

(** The shape of a poller trace: rounds, each opened by its banner; a sleep
    of 5 follows a round exactly when another round comes next or when the
    round was the last the budget allowed and left jobs pending; a round
    that is followed by no sleep ends the trace. *)
Inductive paced : list Event -> Prop :=
| paced_nil : paced []
| paced_final (attempt : Z) (evs : list Event) :
    Forall in_round evs ->
    paced (EvRound attempt :: evs)
| paced_timed_out (attempt : Z) (evs : list Event) :
    Forall in_round evs ->
    paced (EvRound attempt :: evs ++ [EvSleep 5])
| paced_next (attempt next : Z) (evs rest : list Event) :
    Forall in_round evs ->
    paced (EvRound next :: rest) ->
    paced (EvRound attempt :: evs ++ EvSleep 5 :: EvRound next :: rest).

(** A result as the relations see it. *)
Definition outcome {A : Type} (r : Res A) : option A :=
  match r with Ok a => Some a | Raised => None end.


(* ===================================================================== *)
(** ** Readings of the specification that the code is checked against *)
(* ===================================================================== *)

(** The jobs a live provider accepted. *)
Definition live_jobs (tasks : list Task) : list Task :=
  filter (fun t => negb (is_mock t)) tasks.

Section Readings.

Context {W : Type} (env : Env W).

(** Every job that got a terminal status has an entry in the returned
    list. *)
Definition every_settled_job_reported (self : AvatarVideoGenerator)
    (tasks : list Task) (w : W) : Prop :=
  forall attempt pending completed,
    result (poll_videos env self tasks) w = Ok (attempt, pending, completed) ->
    forall t, In t (settled (events (poll_videos env self tasks) w)) ->
              In (task_segment_id t) (map vid_segment_id completed).

(** A submission that hits a provider error, a malformed reply included,
    gives a mock job. *)
Definition failed_submission_gives_mock_job (self : AvatarVideoGenerator)
    (seg : Segment) (w : W) : Prop :=
  let reply :=
    fst (requests_post env (create_endpoint self) (seg_script seg) w) in
  provider_error (provider self) reply \/ reply_lacks_id (provider self) reply ->
  exists t,
    result (create_task env self seg) w = Ok t /\ task_provider t = "mock".

(** The time that passes while the poller runs, by the program's own clock,
    is at most 60 times 5. *)
Definition polling_time_bounded (self : AvatarVideoGenerator)
    (tasks : list Task) (w : W) : Prop :=
  time_time env (world_after (poll_videos env self tasks) w) - time_time env w
  <= 60 * 5.

(** Mock jobs are resolved before the poll loop: no round is run for them. *)
Definition mock_jobs_skip_poll_loop (self : AvatarVideoGenerator)
    (tasks : list Task) (w : W) : Prop :=
  Forall (fun t => is_mock t = true) tasks ->
  rounds (events (poll_videos env self tasks) w) = 0%nat.

(** Without a chart, composition always gives a clip: the transitioned one
    or the avatar clip itself. *)
Definition compose_without_chart_never_fails (seg : Video) (w : W) : Prop :=
  exists p,
    result (compose_segment env seg None) w = Ok (Some p)
    /\ (p = composed_path (vid_segment_id seg) \/ p = vid_local_path seg).

(** The pacing delay is spent on live submissions only. *)
Definition delay_only_after_live_submissions (self : AvatarVideoGenerator)
    (segments : list Segment) (w : W) : Prop :=
  forall tasks,
    result (create_tasks env self segments []) w = Ok tasks ->
    (length (sleeps (events (create_tasks env self segments []) w))
     <= length (live_jobs tasks))%nat.

(** The tool probe fails in world [w]. *)
Definition ffmpeg_missing (w : W) : Prop :=
  returned_zero (fst (subprocess_run env FfmpegVersion w)) = false.

(** When the probe fails, the pipeline's last stage succeeds and leaves a
    file that names the clips it was given. *)
Definition degraded_stage_lists_inputs (self : Pipeline) (w : W) : Prop :=
  ffmpeg_missing w ->
  (exists self', result (compose_final_video env self) w = Ok (true, self'))
  /\ lists_inputs (events (compose_final_video env self) w) (avatar_videos self).

(** With a chart path that is not [None], composition gives a path. *)
Definition compose_with_chart_gives_path (seg : Video)
    (chart_path : option string) (w : W) : Prop :=
  chart_path <> None ->
  exists p, result (compose_segment env seg chart_path) w = Ok (Some p).

End Readings.

(* ===================================================================== *)
(** ** Further readings of the program and its traces *)
(* ===================================================================== *)

(** [provider or self.provider], the first line of [check_video_status]. *)
Definition effective_provider (self : AvatarVideoGenerator)
    (provider_arg : option string) : string :=
  if opt_truthy provider_arg
  then match provider_arg with Some p => p | None => provider self end
  else provider self.

Definition is_write (e : Event) : bool :=
  match e with EvWrite _ _ => true | _ => false end.

Definition is_post (e : Event) : bool :=
  match e with EvPost _ _ => true | _ => false end.

(** How often a job equal to [t] occurs in [l]. *)
Definition occurrences (t : Task) (l : list Task) : nat :=
  length (filter (fun y => task_eqb y t) l).

(** Where the poller puts the clip of a segment. *)
Definition segment_video_path (segment_id : Z) : string :=
  path_join output_dir ("segment_" ++ str_of_Z segment_id ++ ".mp4").

(** An entry of [completed_videos] as the composer expects it. *)
Definition well_formed_video (v : Video) : Prop :=
  vid_status v = "completed"
  /\ vid_local_path v = segment_video_path (vid_segment_id v).

(** A job as [create_task] makes it for generator [self]. *)
Definition made_by (self : AvatarVideoGenerator) (t : Task) : Prop :=
  (is_mock t = true /\ task_status t = "completed")
  \/ (task_provider t = provider self
      /\ task_status t = "processing"
      /\ opt_truthy (api_key self) = true
      /\ (provider self = "heygen" \/ provider self = "d-id")).

(** The generator sends its scripts to a provider: it has an API key and
    its provider is one of the two [generate_commentary_videos] knows. *)
Definition submits (self : AvatarVideoGenerator) : bool :=
  opt_truthy (api_key self)
  && (String.eqb (provider self) "heygen" || String.eqb (provider self) "d-id").

(** The placeholder [generate_commentary_videos] writes for a segment whose
    job is a mock one. *)
Definition segment_placeholder (segment : Segment) : Event :=
  EvWrite (segment_video_path (seg_id segment))
    ("Mock video for segment " ++ str_of_Z (seg_id segment)).

(** Some write of the trace went to the path the entry names. *)
Definition written_by (evs : list Event) (v : Video) : Prop :=
  exists content, In (EvWrite (vid_local_path v) content) evs.

(** The file a tool invocation writes. *)
Definition cmd_output (c : Cmd) : option string :=
  match c with
  | FfmpegVersion | Ffprobe _ => None
  | FfmpegFade _ output _ _ _ => Some output
  | FfmpegImage _ _ output => Some output
  | FfmpegPip _ _ output _ => Some output
  | FfmpegConcat _ output => Some output
  end.

(** A tool invocation that writes, if anything, under [temp_dir]. *)
Definition composing_command (e : Event) : Prop :=
  match e with
  | EvRun c =>
      match cmd_output c with
      | Some output => String.prefix (temp_dir ++ "/") output = true
      | None => True
      end
  | _ => False
  end.

(** The chart commands [create_final_video] can run with [charts]: the
    run-rate chart over segment 1, the Manhattan chart over segment 3, for
    8 time units, bottom right. *)
Definition chart_command (charts : Charts) (e : Event) : Prop :=
  match e with
  | EvRun (FfmpegImage image duration output) =>
      duration = (8 # 1)%Q
      /\ ((charts "run_rate" = Some image /\ output = chart_video_path 1)
          \/ (charts "manhattan" = Some image /\ output = chart_video_path 3))
  | EvRun (FfmpegPip _ overlay output position) =>
      position = "main_w-overlay_w-20:main_h-overlay_h-20"
      /\ ((overlay = chart_video_path 1 /\ output = pip_path 1)
          \/ (overlay = chart_video_path 3 /\ output = pip_path 3))
  | _ => True
  end.

(** What [if composed_path: composed_segments.append(composed_path)] keeps
    of a segment's result. *)
Definition kept (r : option string) : list string :=
  match r with
  | Some p => if str_truthy p then [p] else []
  | None => []
  end.

(** What [create_final_video] of composer [self] may do: run a tool that
    writes under [temp_dir], concatenate into the composer's output file,
    write the concatenation list, or write the placeholder. *)
Definition assembling (self : VideoComposer) (e : Event) : Prop :=
  composing_command e
  \/ e = EvRun (FfmpegConcat concat_file (output_filename self))
  \/ (exists content, e = EvWrite concat_file content)
  \/ (exists content, e = EvWrite ("mock_" ++ output_filename self) content).

Section FurtherReadings.

Context {W : Type} (env : Env W).

(** No job of [tasks] ever gets a terminal status: each is a live job whose
    status call, in every world, returns a status that is neither
    "completed" with a locator nor "error". *)
Definition never_settles (self : AvatarVideoGenerator) (tasks : list Task)
  : Prop :=
  forall t w,
    In t tasks ->
    is_mock t = false
    /\ exists info w1 evs,
         check_video_status env self (task_video_id t)
           (Some (task_provider t)) w = (Ok info, w1, evs)
         /\ Forall (fun e => is_io e = true) evs
         /\ terminal info = false.

(** The submission loop as steps: each segment is submitted from the world
    as it is, the delay of 1 follows, and the next segment is submitted from
    the world the delay leaves. *)
Inductive submitted (self : AvatarVideoGenerator) :
  list Segment -> W -> list Task -> list Event -> W -> Prop :=
| submitted_none (w : W) : submitted self [] w [] [] w
| submitted_next (seg : Segment) (rest : list Segment) (w w1 w2 : W)
    (t : Task) (tasks : list Task) (evs evs' : list Event) :
    create_task env self seg w = (Ok t, w1, evs) ->
    submitted self rest (time_sleep env 1 w1) tasks evs' w2 ->
    submitted self (seg :: rest) w (t :: tasks)
      (evs ++ EvSleep 1 :: evs')%list w2.

(** The loop of [create_final_video] as steps: the segments are composed
    one after the other in the order of the list, each from the world its
    predecessor leaves, and what a segment gives, if anything, is put behind
    what its predecessors gave. *)
Inductive composed_in_order (charts : Charts) :
  list Video -> W -> list string -> list Event -> W -> Prop :=
| composed_none (w : W) : composed_in_order charts [] w [] [] w
| composed_next (seg : Video) (rest : list Video) (w w1 w2 : W)
    (r : option string) (clips : list string) (evs evs' : list Event) :
    compose_segment env seg (chart_mapping charts (vid_segment_id seg)) w
    = (Ok r, w1, evs) ->
    composed_in_order charts rest w1 clips evs' w2 ->
    composed_in_order charts (seg :: rest) w (kept r ++ clips)%list
      (evs ++ evs')%list w2.

(** The tool probe succeeds in world [w]. *)
Definition ffmpeg_present (w : W) : Prop :=
  returned_zero (fst (subprocess_run env FfmpegVersion w)) = true.

End FurtherReadings.

(** [main]: the avatar key and provider read from the process environment;
    [getenv] is [os.getenv]. *)
Definition avatar_config (getenv : string -> option string)
  : option string * string :=
  if opt_truthy (getenv "HEYGEN_API_KEY")
  then (getenv "HEYGEN_API_KEY", "heygen")
  else if opt_truthy (getenv "DID_API_KEY")
  then (getenv "DID_API_KEY", "d-id")
  else (None, "heygen").

(** The pipeline [main] builds, once the script and chart stages have
    filled in their results. *)
Definition pipeline_of (getenv : string -> option string)
    (segments : list Segment) (chart_paths : Charts) : Pipeline :=
  {| avatar_api_key := fst (avatar_config getenv);
     avatar_provider := snd (avatar_config getenv);
     script_segments := segments;
     charts := chart_paths;
     avatar_videos := [];
     final_video := None |}.

(** HeyGen accepts every script, then reports every job "failed", the
    status its API gives to a render that broke. *)
Definition always_failed : Env nat :=
  scripted
    (fun script _ => heygen_accepts script)
    (fun _ _ => heygen_says "failed" JNull)
    (fun _ _ => Some "mp4 data")
    no_tools.

(** HeyGen accepts every script; no status call gets through. *)
Definition status_unreachable : Env nat :=
  scripted
    (fun script _ => heygen_accepts script)
    (fun _ _ => None)
    (fun _ _ => Some "mp4 data")
    no_tools.



(** The tools work; nothing else does. *)
Definition tools_only : Env nat :=
  scripted (fun _ _ => None) (fun _ _ => None) (fun _ _ => None) tools_ok.

(* ===================================================================== *)
(** * Properties *)
(* ===================================================================== *)

(** ** The monad *)

Section MonadFacts.

Context {W : Type}.

Lemma run_eta {A : Type} (m : M W A) (w : W) :
  m w = (result m w, world_after m w, events m w).
Proof. unfold result, world_after, events. destruct (m w) as [[r w'] evs]. reflexivity. Qed.

Lemma events_bind {A B : Type} (m : M W A) (k : A -> M W B) (w : W) :
  events (bind m k) w
  = (events m w
     ++ match result m w with
        | Ok a => events (k a) (world_after m w)
        | Raised => []
        end)%list.
Proof.
  unfold events, result, world_after, bind.
  destruct (m w) as [[[a|] w1] evs1]; simpl.
  - destruct (k a w1) as [[r w2] evs2]. reflexivity.
  - now rewrite app_nil_r.
Qed.

Lemma result_bind {A B : Type} (m : M W A) (k : A -> M W B) (w : W) :
  result (bind m k) w
  = match result m w with
    | Ok a => result (k a) (world_after m w)
    | Raised => Raised
    end.
Proof.
  unfold result, world_after, bind.
  destruct (m w) as [[[a|] w1] evs1]; simpl; [|reflexivity].
  destruct (k a w1) as [[r w2] evs2]. reflexivity.
Qed.

Lemma world_bind {A B : Type} (m : M W A) (k : A -> M W B) (w : W) :
  world_after (bind m k) w
  = match result m w with
    | Ok a => world_after (k a) (world_after m w)
    | Raised => world_after m w
    end.
Proof.
  unfold result, world_after, bind.
  destruct (m w) as [[[a|] w1] evs1]; simpl; [|reflexivity].
  destruct (k a w1) as [[r w2] evs2]. reflexivity.
Qed.

Lemma emits_ret {A : Type} (P : Event -> Prop) (a : A) :
  emits_only P (ret a : M W A).
Proof. intros w. constructor. Qed.

Lemma emits_raise {A : Type} (P : Event -> Prop) : emits_only P (@raise W A).
Proof. intros w. constructor. Qed.

Lemma emits_read {A : Type} (P : Event -> Prop) (f : W -> A) :
  emits_only P (read f).
Proof. intros w. constructor. Qed.

Lemma emits_emit (P : Event -> Prop) (e : Event) :
  P e -> emits_only P (@emit W e).
Proof. intros H w. repeat constructor. exact H. Qed.

Lemma emits_call {A : Type} (P : Event -> Prop) (e : Event) (f : W -> A * W) :
  P e -> emits_only P (call e f).
Proof.
  intros H w. unfold events, call. destruct (f w). repeat constructor. exact H.
Qed.

Lemma emits_bind {A B : Type} (P : Event -> Prop) (m : M W A) (k : A -> M W B) :
  emits_only P m -> (forall a, emits_only P (k a)) -> emits_only P (bind m k).
Proof.
  intros Hm Hk w. rewrite events_bind. apply Forall_app. split; [apply Hm|].
  destruct (result m w); [apply Hk | constructor].
Qed.

Lemma emits_catch {A : Type} (P : Event -> Prop) (m h : M W A) :
  emits_only P m -> emits_only P h -> emits_only P (catch m h).
Proof.
  intros Hm Hh w. specialize (Hm w). unfold events, catch in *.
  destruct (m w) as [[[a|] w1] evs1]; simpl in *; [exact Hm|].
  specialize (Hh w1). unfold events in Hh.
  destruct (h w1) as [[r w2] evs2]. simpl in *.
  apply Forall_app. split; assumption.
Qed.

End MonadFacts.

Lemma bind_inv {W A B : Type} (m : M W A) (k : A -> M W B) (w w' : W)
    (r : Res B) (evs : list Event) :
  bind m k w = (r, w', evs) ->
  (exists a w1 e1 e2,
      m w = (Ok a, w1, e1) /\ k a w1 = (r, w', e2) /\ evs = (e1 ++ e2)%list)
  \/ (m w = (Raised, w', evs) /\ r = Raised).
Proof.
  unfold bind. destruct (m w) as [[[a|] w1] e1].
  - destruct (k a w1) as [[r2 w2] e2] eqn:Hk. intros H. inversion H; subst.
    left. exists a, w1, e1, e2. auto.
  - intros H. inversion H; subst. right. auto.
Qed.

Lemma bind_emit_inv {W B : Type} (e : Event) (k : unit -> M W B) (w w' : W)
    (r : Res B) (evs : list Event) :
  bind (emit e) k w = (r, w', evs) ->
  exists evs', k tt w = (r, w', evs') /\ evs = e :: evs'.
Proof.
  unfold bind, emit. destruct (k tt w) as [[r2 w2] e2].
  intros H. inversion H; subst. eauto.
Qed.

Lemma bind_ret_inv {W A B : Type} (a : A) (k : A -> M W B) (w w' : W)
    (r : Res B) (evs : list Event) :
  bind (ret a) k w = (r, w', evs) -> k a w = (r, w', evs).
Proof.
  unfold bind, ret. destruct (k a w) as [[r2 w2] e2].
  intros H. inversion H; subst. reflexivity.
Qed.

Lemma bind_raise_inv {W A B : Type} (k : A -> M W B) (w w' : W)
    (r : Res B) (evs : list Event) :
  bind raise k w = (r, w', evs) -> r = Raised /\ evs = [].
Proof. unfold bind, raise. intros H. inversion H; subst. auto. Qed.

(** Takes one [bind] off the run in hypothesis [H]. *)
Tactic Notation "step" hyp(H) "as" ident(a) ident(w) ident(e) ident(e')
    ident(Hm) :=
  apply bind_inv in H;
  destruct H as [(a & w & e & e' & Hm & H & ->) | (Hm & ->)].

Tactic Notation "step_emit" hyp(H) "as" ident(e') :=
  apply bind_emit_inv in H; destruct H as (e' & H & ->).

(** Splits a goal [emits_only P m] along the structure of [m]. *)
Ltac emits :=
  repeat first
    [ apply emits_ret | apply emits_raise | apply emits_read
    | apply emits_emit | apply emits_call
    | apply emits_bind; [ | intros ]
    | apply emits_catch
    | match goal with
      | |- emits_only _ (if ?b then _ else _) => destruct b eqn:?
      | |- emits_only _ (match ?x with _ => _ end) => destruct x eqn:?
      | |- emits_only _ (let '(_, _) := ?x in _) => destruct x
      end ].

(** ** Traces *)

Lemma flat_map_io {A : Type} (f : Event -> list A) (evs : list Event) :
  (forall e, is_io e = true -> f e = []) ->
  Forall (fun e => is_io e = true) evs -> flat_map f evs = [].
Proof.
  intros Hf. induction 1 as [|e evs He _ IH]; simpl; [reflexivity|].
  now rewrite (Hf e He), IH.
Qed.

Lemma sleeps_app (a b : list Event) : sleeps (a ++ b) = (sleeps a ++ sleeps b)%list.
Proof. apply flat_map_app. Qed.

Lemma sleeps_quiet (evs : list Event) :
  Forall (fun e => is_sleep e = false) evs -> sleeps evs = [].
Proof.
  induction 1 as [|e evs He _ IH]; simpl; [reflexivity|].
  destruct e; simpl in *; try discriminate; exact IH.
Qed.

Lemma rounds_app (a b : list Event) : rounds (a ++ b) = (rounds a + rounds b)%nat.
Proof. unfold rounds. now rewrite filter_app, length_app. Qed.

Lemma rounds_quiet (evs : list Event) :
  Forall (fun e => is_round e = false) evs -> rounds evs = 0%nat.
Proof.
  unfold rounds. induction 1 as [|e evs He _ IH]; simpl; [reflexivity|].
  rewrite He. exact IH.
Qed.

(** ** Submission *)

Section Submission.

Context {W : Type} (env : Env W).

(** A submission posts at most once and does nothing else. *)
Lemma create_task_posts (self : AvatarVideoGenerator) (seg : Segment) :
  emits_only (fun e => is_sleep e = false) (create_task env self seg).
Proof.
  unfold create_task, create_avatar_video_heygen, create_avatar_video_did,
    _create_mock_response, post.
  emits; reflexivity.
Qed.

(** A submission always yields a job: no exception leaves it. *)
Lemma create_task_returns (self : AvatarVideoGenerator) (seg : Segment) (w : W) :
  exists t, result (create_task env self seg) w = Ok t.
Proof.
  unfold create_task, create_avatar_video_heygen, create_avatar_video_did.
  destruct (String.eqb (provider self) "heygen").
  - destruct (negb (opt_truthy (api_key self))); [eexists; reflexivity|].
    rewrite result_bind. unfold post at 1, result at 1, call.
    destruct (requests_post env heygen_create (seg_script seg) w) as [r w1].
    simpl. destruct (heygen_created_id r); eexists; reflexivity.
  - destruct (String.eqb (provider self) "d-id"); [|eexists; reflexivity].
    destruct (negb (opt_truthy (api_key self))); [eexists; reflexivity|].
    rewrite result_bind. unfold post at 1, result at 1, call.
    destruct (requests_post env did_create (seg_script seg) w) as [r w1].
    simpl. destruct (did_created_id r); eexists; reflexivity.
Qed.

End Submission.

(** ** The poller never asks for the status of a mock job *)

Lemma queried_In (t : Task) (evs : list Event) :
  In t (queried evs) <-> In (EvQuery t) evs.
Proof.
  unfold queried. rewrite in_flat_map. split.
  - intros (e & He & Ht). destruct e; simpl in Ht; try contradiction.
    destruct Ht as [->|[]]. exact He.
  - intros H. exists (EvQuery t). split; [exact H | now left].
Qed.

Section PollerQueries.

Context {W : Type} (env : Env W).

Lemma poll_round_queries_live (self : AvatarVideoGenerator) (rest : list Task) :
  forall pending completed,
    emits_only queries_live_only (poll_round env self rest pending completed).
Proof.
  induction rest as [|task rest IH]; intros pending completed; simpl.
  - emits.
  - unfold check_video_status, download_video, remove_task, get, get_stream,
      write_file.
    emits; try apply IH; simpl; auto.
Qed.

Lemma poll_loop_queries_live (self : AvatarVideoGenerator) (budget : nat) :
  forall attempt pending completed,
    emits_only queries_live_only
      (poll_loop env self budget attempt pending completed).
Proof.
  induction budget as [|budget IH]; intros attempt pending completed; simpl.
  - emits.
  - unfold sleep. emits; try apply IH; try apply poll_round_queries_live;
      simpl; auto.
Qed.

Lemma mock_job_never_queried (self : AvatarVideoGenerator) (tasks : list Task)
    (t : Task) (w : W) :
  is_mock t = true ->
  ~ In t (queried (events (poll_videos env self tasks) w)).
Proof.
  intros Hm Hin. apply queried_In in Hin.
  pose proof (poll_loop_queries_live self max_attempts 0 tasks [] w) as H.
  rewrite Forall_forall in H. apply H in Hin. simpl in Hin. congruence.
Qed.

Lemma raises_for_status_true (r : Response) :
  400 <= status_code r < 600 -> raises_for_status r = true.
Proof.
  intros H. unfold raises_for_status. apply andb_true_iff.
  split; [apply Z.leb_le | apply Z.ltb_lt]; lia.
Qed.

Lemma raises_for_status_range (r : Response) :
  raises_for_status r = true -> 400 <= status_code r < 600.
Proof.
  unfold raises_for_status. intros H. apply andb_true_iff in H.
  destruct H as [H1 H2]. apply Z.leb_le in H1. apply Z.ltb_lt in H2. lia.
Qed.

(** The replies that make the [try] block of a submit method raise are the
    provider errors, no more and no less. *)
Lemma provider_error_iff (p : string) (r : option Response) :
  p = "heygen" \/ p = "d-id" ->
  provider_error p r <-> created_id p r = None.
Proof.
  intros Hp. unfold created_id. split.
  - intros Herr.
    inversion Herr as [p'|p' r' Hc|p' r' Hb|p' r' j Hb Hd|r' l d Hb Ha Hd];
      subst; cbn [heygen_created_id did_created_id].
    + now destruct (String.eqb p "heygen").
    + rewrite (raises_for_status_true _ Hc).
      now destruct (String.eqb p "heygen").
    + rewrite Hb. destruct (raises_for_status r');
        now destruct (String.eqb p "heygen").
    + rewrite Hb.
      destruct (raises_for_status r'); [now destruct (String.eqb p "heygen")|].
      destruct j; try discriminate; now destruct (String.eqb p "heygen").
    + cbn. destruct (raises_for_status r'); [reflexivity|].
      rewrite Hb. cbn. rewrite Ha. destruct d; try discriminate; reflexivity.
  - destruct r as [r'|]; [|intros _; constructor].
    destruct (raises_for_status r') eqn:Hc.
    { intros _. apply http_error_status. now apply raises_for_status_range. }
    destruct (body r') as [j|] eqn:Hb; [|intros _; now apply body_not_json].
    destruct j as [| | | | |l];
      try (intros _; eapply body_not_object; [exact Hb | reflexivity]).
    destruct Hp as [->| ->]; cbn; rewrite Hc, Hb; cbn.
    + destruct (assoc "data" l) as [d|] eqn:Ha; [|discriminate].
      destruct d; try discriminate;
        intros _; eapply heygen_data_not_object; eauto.
    + discriminate.
Qed.

(** What a submission with an API key returns, from the reply it gets. *)
Lemma create_task_with_key (self : AvatarVideoGenerator) (seg : Segment) (w : W) :
  provider self = "heygen" \/ provider self = "d-id" ->
  opt_truthy (api_key self) = true ->
  let reply := requests_post env (create_endpoint self) (seg_script seg) w in
  result (create_task env self seg) w
  = Ok match created_id (provider self) (fst reply) with
       | Some video_id => live_job (provider self) video_id (seg_id seg)
       | None =>
           mock_response (seg_id seg) (seg_script seg) (time_time env (snd reply))
       end.
Proof.
  intros Hp Hkey. unfold create_task, create_endpoint, created_id.
  destruct Hp as [Hp|Hp]; rewrite Hp; cbn [String.eqb Ascii.eqb Bool.eqb];
    cbv iota.
  - unfold create_avatar_video_heygen. rewrite Hkey. cbn [negb].
    unfold result, bind, post, call.
    destruct (requests_post env heygen_create (seg_script seg) w) as [r w1].
    cbn [fst snd]. destruct (heygen_created_id r); reflexivity.
  - unfold create_avatar_video_did. rewrite Hkey. cbn [negb].
    unfold result, bind, post, call.
    destruct (requests_post env did_create (seg_script seg) w) as [r w1].
    cbn [fst snd]. destruct (did_created_id r); reflexivity.
Qed.

(** C6, as the code has it: a submission made without an API key, or whose
    call to the provider fails (transport error, HTTP status 4xx or 5xx, a
    body that is not JSON or not an object, for HeyGen a "data" that is not
    an object), returns the mock job: provider "mock", status "completed",
    an id made of the segment id and the clock, a synthetic locator, and as
    duration the binary64 product of the number of words of the script and
    0.4.  The poller never asks a provider for the status of such a job.
    With an API key these failures are the only submissions that give a
    mock job: a reply with a good status that is a JSON object without a
    job id is no error to the code, and gives a "processing" job of the
    live provider whose id is [None]. *)
Theorem failed_submission_degrades_to_mock
    (self : AvatarVideoGenerator) (seg : Segment) (w : W) :
  provider self = "heygen" \/ provider self = "d-id" ->
  let reply :=
    fst (requests_post env (create_endpoint self) (seg_script seg) w) in
  (opt_truthy (api_key self) = false \/ provider_error (provider self) reply ->
   exists w1,
     let now := time_time env w1 in
     let t := mock_response (seg_id seg) (seg_script seg) now in
     result (create_task env self seg) w = Ok t
     /\ task_provider t = "mock"
     /\ task_status t = "completed"
     /\ task_video_id t
        = JStr ("mock_video_" ++ str_of_Z (seg_id seg) ++ "_" ++ str_of_Z now)
     /\ task_video_url t
        = Some ("mock_avatar_segment_" ++ str_of_Z (seg_id seg) ++ ".mp4")
     /\ task_duration t
        = Some (float_mul
                  (float_of_Z (Z.of_nat (length (split (seg_script seg)))))
                  point_four)
     /\ forall gen tasks w',
          ~ In t (queried (events (poll_videos env gen tasks) w')))
  /\ (opt_truthy (api_key self) = true ->
      exists t,
        result (create_task env self seg) w = Ok t
        /\ (task_provider t = "mock" <-> provider_error (provider self) reply)
        /\ (reply_lacks_id (provider self) reply ->
            t = live_job (provider self) JNull (seg_id seg))).
Proof.
  intros Hp reply.
  assert (Hmock : forall w1,
    let t := mock_response (seg_id seg) (seg_script seg) (time_time env w1) in
    forall gen tasks w', ~ In t (queried (events (poll_videos env gen tasks) w'))).
  { intros w1 t gen tasks w'. now apply mock_job_never_queried. }
  split.
  - intros Hfail.
    destruct (opt_truthy (api_key self)) eqn:Hkey.
    + destruct Hfail as [Hfail|Herr]; [discriminate|].
      apply (provider_error_iff _ Hp) in Herr.
      exists (snd (requests_post env (create_endpoint self) (seg_script seg) w)).
      rewrite (create_task_with_key self seg w Hp Hkey).
      fold reply. rewrite Herr. repeat split. apply Hmock.
    + exists w.
      assert (Hrun : result (create_task env self seg) w
                     = Ok (mock_response (seg_id seg) (seg_script seg)
                             (time_time env w))).
      { unfold create_task, create_avatar_video_heygen, create_avatar_video_did.
        rewrite Hkey. cbn [negb].
        destruct (String.eqb (provider self) "heygen"); [reflexivity|].
        destruct (String.eqb (provider self) "d-id"); reflexivity. }
      rewrite Hrun. repeat split. apply Hmock.
  - intros Hkey. eexists. split; [apply (create_task_with_key self seg w Hp Hkey)|].
    fold reply. split.
    + destruct (created_id (provider self) reply) as [video_id|] eqn:Hid.
      * cbn [live_job task_provider]. split.
        -- intros E. destruct Hp as [Hp|Hp]; rewrite Hp in E; discriminate.
        -- intros E. apply (provider_error_iff _ Hp) in E. congruence.
      * split; [|reflexivity].
        intros _. now apply (provider_error_iff _ Hp).
    + unfold reply_lacks_id. intros ->. reflexivity.
Qed.

End PollerQueries.

(** HeyGen answers the submission of a script of three words with HTTP
    500: the job is the mock one, made when the clock reads 1700000001, and
    its duration is 3 * 0.4 as Python computes it, 1.2000000000000002. *)
Lemma failed_submission_degrades_to_mock_witness :
  let env := scripted (fun _ _ => server_error) (fun _ _ => None)
               (fun _ _ => None) no_tools in
  let seg := segment 1 "what a  shot" in
  (provider with_key = "heygen" \/ provider with_key = "d-id")
  /\ provider_error (provider with_key)
       (fst (requests_post env (create_endpoint with_key) (seg_script seg) 0%nat))
  /\ split (seg_script seg) = ["what"; "a"; "shot"]
  /\ result (create_task env with_key seg) 0%nat
     = Ok {| task_provider := "mock";
             task_video_id := JStr "mock_video_1_1700000001";
             task_status := "completed";
             task_segment_id := 1;
             task_video_url := Some "mock_avatar_segment_1.mp4";
             task_duration :=
               Some (S754_finite false 5404319552844596 (-52)) |}.
Proof.
  intros env seg.
  assert (Hp : provider with_key = "heygen" \/ provider with_key = "d-id")
    by (left; reflexivity).
  assert (He : provider_error (provider with_key)
       (fst (requests_post env (create_endpoint with_key) (seg_script seg) 0%nat))).
  { apply http_error_status. simpl. lia. }
  split; [exact Hp|]. split; [exact He|]. split; [reflexivity|].
  destruct (@failed_submission_degrades_to_mock nat env with_key seg 0%nat Hp)
    as (Hfail & _).
  destruct (Hfail (or_intror He)) as (w1 & Hr & _).
  vm_compute. reflexivity.
Defined.

(** C6 as stated fails for a malformed reply: HeyGen answers the submission
    with status 200 and an empty JSON object; nothing in the [try] block
    raises, and the job is a "processing" HeyGen job whose id is [None]. *)
Lemma reply_without_id_is_not_degraded :
  ~ failed_submission_gives_mock_job
      (scripted (fun _ _ => reply 200 (JObj [])) (fun _ _ => None)
         (fun _ _ => None) no_tools)
      with_key (segment 1 "what a shot") 0%nat.
Proof.
  intros H. destruct H as (t & Hr & Hm).
  - right. reflexivity.
  - vm_compute in Hr. injection Hr as <-. discriminate.
Qed.

(** ** The poller refines its step relation *)

Section PollerSteps.

Context {W : Type} (env : Env W).

Lemma check_video_status_io (self : AvatarVideoGenerator) (video_id : json)
    (p : option string) :
  emits_only (fun e => is_io e = true) (check_video_status env self video_id p).
Proof. unfold check_video_status, get. emits; reflexivity. Qed.

Lemma download_video_io (url : json) (filename : string) :
  emits_only (fun e => is_io e = true) (download_video env url filename).
Proof. unfold download_video, get_stream, write_file. emits; reflexivity. Qed.

Lemma check_video_status_runs (self : AvatarVideoGenerator) (video_id : json)
    (p : option string) (w w' : W) (r : Res StatusInfo) (evs : list Event) :
  check_video_status env self video_id p w = (r, w', evs) ->
  Forall (fun e => is_io e = true) evs.
Proof.
  intros H. pose proof (check_video_status_io self video_id p w) as Hio.
  unfold events in Hio. now rewrite H in Hio.
Qed.

Lemma download_video_runs (url : json) (filename : string) (w w' : W)
    (r : Res (option string)) (evs : list Event) :
  download_video env url filename w = (r, w', evs) ->
  Forall (fun e => is_io e = true) evs.
Proof.
  intros H. pose proof (download_video_io url filename w) as Hio.
  unfold events in Hio. now rewrite H in Hio.
Qed.

Lemma fetch_verdict_removes (r : option string) : fetch_verdict r <> Keep.
Proof.
  unfold fetch_verdict. destruct r as [p|]; [|discriminate].
  destruct (str_truthy p); discriminate.
Qed.

Lemma poll_round_sound (self : AvatarVideoGenerator) (rest : list Task) :
  forall pending completed w r w' evs,
    poll_round env self rest pending completed w = (r, w', evs) ->
    round_run rest pending completed evs (outcome r).
Proof.
  induction rest as [|t rest IH]; intros pending completed w r w' evs H.
  - inversion H; subst. apply round_done.
  - simpl poll_round in H. fold (is_mock t) in H. fold (segment_file t) in H.
    destruct (is_mock t) eqn:Hm.
    + (* a mock job *)
      unfold write_file in H. step_emit H as evs1.
      unfold remove_task in H.
      destruct (list_remove task_eqb t pending) as [pending'|] eqn:Hr.
      * apply bind_ret_inv in H.
        eapply round_remove with (evs := [_]);
          [apply (polled_mock t Hm) | discriminate | exact Hr |].
        eapply IH. exact H.
      * apply bind_raise_inv in H. destruct H as [-> ->].
        eapply round_absent;
          [apply (polled_mock t Hm) | discriminate | exact Hr].
    + (* a live job *)
      step_emit H as evs1.
      step H as info w1 nevs evs2 Hst.
      2:{ apply round_raised. apply polled_raised; [exact Hm|].
          eapply check_video_status_runs; eauto. }
      assert (Hio : Forall (fun e => is_io e = true) nevs)
        by (eapply check_video_status_runs; eauto).
      clear Hst. step_emit H as evs3.
      fold (completed_with_locator info) in H.
      destruct (completed_with_locator info) eqn:Hc.
      * (* completed, with a locator *)
        step_emit H as evs4.
        step H as path w2 fevs evs5 Hdl.
        2:{ apply round_raised. apply polled_fetch_raised; auto.
            eapply download_video_runs; eauto. }
        assert (Hfio : Forall (fun e => is_io e = true) fevs)
          by (eapply download_video_runs; eauto).
        clear Hdl. step_emit H as evs6.
        assert (Hpolled : task_polled t
                  (EvQuery t :: nevs ++ EvStatus t info
                     :: EvFetch t (st_video_url info)
                     :: fevs ++ [EvFetched t path])
                  (Some (fetch_verdict path)))
          by now apply polled_fetched.
        pose proof (fetch_verdict_removes path) as Hv.
        unfold remove_task in H.
        destruct (list_remove task_eqb t pending) as [pending'|] eqn:Hr.
        -- apply bind_ret_inv in H.
           replace (EvQuery t :: nevs ++ EvStatus t info
                      :: EvFetch t (st_video_url info)
                      :: fevs ++ EvFetched t path :: evs6)%list
             with ((EvQuery t :: nevs ++ EvStatus t info
                      :: EvFetch t (st_video_url info)
                      :: fevs ++ [EvFetched t path])
                   ++ evs6)%list
             by (simpl; rewrite <- !app_assoc; simpl; rewrite <- !app_assoc;
                 reflexivity).
           eapply round_remove; eauto.
           eapply IH.
           replace (deliver t (fetch_verdict path) completed)
             with (match path with
                   | Some p =>
                       if str_truthy p
                       then (completed ++ [completed_video t p])%list
                       else completed
                   | None => completed
                   end); [exact H|].
           destruct path as [p|]; simpl; [destruct (str_truthy p)|];
             reflexivity.
        -- apply bind_raise_inv in H. destruct H as [-> ->].
           eapply round_absent; eauto.
      * destruct (json_is (st_status info) "error") eqn:He.
        -- (* error *)
           assert (Hpolled : task_polled t
                     (EvQuery t :: nevs ++ [EvStatus t info]) (Some Drop))
             by now apply polled_error.
           unfold remove_task in H.
           destruct (list_remove task_eqb t pending) as [pending'|] eqn:Hr.
           ++ apply bind_ret_inv in H.
              replace (EvQuery t :: nevs ++ EvStatus t info :: evs3)%list
                with ((EvQuery t :: nevs ++ [EvStatus t info]) ++ evs3)%list
                by (simpl; rewrite <- !app_assoc; reflexivity).
              eapply round_remove with (v := Drop); eauto. discriminate.
           ++ apply bind_raise_inv in H. destruct H as [-> ->].
              eapply round_absent with (v := Drop); eauto. discriminate.
        -- (* still in flight *)
           replace (EvQuery t :: nevs ++ EvStatus t info :: evs3)%list
             with ((EvQuery t :: nevs ++ [EvStatus t info]) ++ evs3)%list
             by (simpl; rewrite <- !app_assoc; reflexivity).
           eapply round_keep; [|eapply IH; exact H].
           apply polled_waiting; auto.
           unfold terminal. now rewrite Hc, He.
Qed.

Lemma poll_loop_nil (self : AvatarVideoGenerator) (budget : nat) (attempt : Z)
    (completed : list Video) (w : W) :
  poll_loop env self budget attempt [] completed w
  = (Ok (attempt, [], completed), w, []).
Proof. destruct budget; reflexivity. Qed.

Lemma poll_loop_sound (self : AvatarVideoGenerator) (budget : nat) :
  forall attempt pending completed w r w' evs,
    poll_loop env self budget attempt pending completed w = (r, w', evs) ->
    loop_run budget attempt pending completed evs (outcome r).
Proof.
  induction budget as [|budget IH]; intros attempt pending completed w r w' evs H.
  - inversion H; subst. apply loop_exhausted.
  - destruct pending as [|t pending].
    { rewrite poll_loop_nil in H. inversion H; subst. apply loop_finished. }
    assert (Hne : t :: pending <> []) by discriminate.
    remember (t :: pending) as p eqn:Hp.
    assert (Hnonempty : nonempty p = true) by (subst p; reflexivity).
    clear Hp. simpl poll_loop in H. rewrite Hnonempty in H.
    step_emit H as evs1.
    step H as pc w1 revs evs2 Hround.
    2:{ apply loop_raised; [exact Hne|].
        apply (poll_round_sound _ _ _ _ _ Hround). }
    destruct pc as [pending' completed'].
    apply poll_round_sound in Hround. simpl outcome in Hround.
    destruct pending' as [|t' pending'].
    + simpl nonempty in H. apply bind_ret_inv in H.
      rewrite poll_loop_nil in H.
      inversion H; subst. rewrite app_nil_r.
      apply loop_last; [exact Hne | exact Hround].
    + assert (Hne' : t' :: pending' <> []) by discriminate.
      remember (t' :: pending') as p' eqn:Hp'.
      assert (Hnonempty' : nonempty p' = true) by (subst p'; reflexivity).
      clear Hp'. rewrite Hnonempty' in H.
      step H as u w2 sevs evs3 Hsleep; [|discriminate].
      inversion Hsleep; subst.
      apply loop_again with (pending' := p') (completed' := completed');
        [exact Hne | exact Hround | exact Hne' |].
      eapply IH. exact H.
Qed.

Lemma poll_videos_sound (self : AvatarVideoGenerator) (tasks : list Task) (w : W) :
  loop_run max_attempts 0 tasks []
    (events (poll_videos env self tasks) w)
    (outcome (result (poll_videos env self tasks) w)).
Proof.
  eapply poll_loop_sound. unfold poll_videos. apply run_eta.
Qed.

End PollerSteps.

(** ** Rounds and sleeps *)

Lemma io_quiet (evs : list Event) :
  Forall (fun e => is_io e = true) evs ->
  Forall (fun e => is_sleep e = false /\ is_round e = false) evs.
Proof.
  apply Forall_impl. intros e He. destruct e; simpl in *; auto; discriminate.
Qed.

Lemma task_polled_quiet (t : Task) (evs : list Event) (v : option Verdict) :
  task_polled t evs v ->
  Forall (fun e => is_sleep e = false /\ is_round e = false) evs.
Proof.
  intros H. inversion H; subst;
    repeat first [ apply Forall_cons; [simpl; auto|]
                 | apply Forall_app; split
                 | apply io_quiet; assumption
                 | apply Forall_nil ].
Qed.

Lemma round_run_quiet (rest pending : list Task) (completed : list Video)
    (evs : list Event) (out : option (list Task * list Video)) :
  round_run rest pending completed evs out ->
  Forall (fun e => is_sleep e = false /\ is_round e = false) evs.
Proof.
  induction 1; try apply Forall_app; try split;
    eauto using task_polled_quiet, Forall_nil.
Qed.

Lemma round_run_no_sleep (rest pending : list Task) (completed : list Video)
    (evs : list Event) (out : option (list Task * list Video)) :
  round_run rest pending completed evs out -> sleeps evs = [].
Proof.
  intros H. apply sleeps_quiet. apply round_run_quiet in H.
  eapply Forall_impl; [|exact H]. now intros e [He _].
Qed.

Lemma round_run_no_round (rest pending : list Task) (completed : list Video)
    (evs : list Event) (out : option (list Task * list Video)) :
  round_run rest pending completed evs out -> rounds evs = 0%nat.
Proof.
  intros H. apply rounds_quiet. apply round_run_quiet in H.
  eapply Forall_impl; [|exact H]. now intros e [_ He].
Qed.

Lemma loop_run_rounds (budget : nat) (attempt : Z) (pending : list Task)
    (completed : list Video) (evs : list Event)
    (out : option (Z * list Task * list Video)) :
  loop_run budget attempt pending completed evs out ->
  (rounds evs <= budget)%nat
  /\ Forall (fun secs => secs = 5) (sleeps evs)
  /\ (length (sleeps evs) <= rounds evs)%nat
  /\ forall attempt' pending' completed',
       out = Some (attempt', pending', completed') ->
       attempt' = attempt + Z.of_nat (rounds evs)
       /\ (rounds evs = 0%nat -> pending' = pending)
       /\ length (sleeps evs)
          = if nonempty pending' then rounds evs else pred (rounds evs).
Proof.
  induction 1 as
    [ attempt pending completed
    | budget attempt completed
    | budget attempt pending completed revs Hne Hround
    | budget attempt pending completed completed' revs Hne Hround
    | budget attempt pending pending' completed completed' revs evs' out
        Hne Hround Hne' Hloop IH ].
  - unfold rounds, sleeps in *; simpl;
      split; [|split; [|split]]; simpl; try lia; [constructor|].
    intros a p c E. inversion E; subst.
    split; [lia|]. split; [reflexivity|]. now destruct p.
  - unfold rounds, sleeps in *; simpl;
      split; [|split; [|split]]; simpl; try lia; [constructor|].
    intros a p c E. inversion E; subst.
    split; [lia|]. split; reflexivity.
  - change (EvRound (attempt + 1) :: revs)
      with ([EvRound (attempt + 1)] ++ revs)%list.
    rewrite rounds_app, sleeps_app, (round_run_no_round Hround),
      (round_run_no_sleep Hround).
    unfold rounds, sleeps in *; simpl;
      split; [|split; [|split]]; simpl; try lia; [constructor|].
    discriminate.
  - change (EvRound (attempt + 1) :: revs)
      with ([EvRound (attempt + 1)] ++ revs)%list.
    rewrite rounds_app, sleeps_app, (round_run_no_round Hround),
      (round_run_no_sleep Hround).
    unfold rounds, sleeps in *; simpl;
      split; [|split; [|split]]; simpl; try lia; [constructor|].
    intros a p c E. inversion E; subst.
    split; [lia|]. split; [discriminate | reflexivity].
  - destruct IH as (Hr & Hs & Hl & Hout).
    change (EvRound (attempt + 1) :: revs ++ EvSleep 5 :: evs')
      with ([EvRound (attempt + 1)] ++ revs ++ [EvSleep 5] ++ evs')%list.
    rewrite !rounds_app, !sleeps_app, (round_run_no_round Hround),
      (round_run_no_sleep Hround).
    unfold rounds, sleeps in *; simpl.
    split; [|split; [|split]]; simpl; try lia.
    + constructor; [reflexivity | exact Hs].
    + intros a p c E. destruct (Hout _ _ _ E) as (Ha & Hp & Hlen).
      split; [lia|]. split; [discriminate|]. rewrite Hlen.
      destruct p as [|t p]; simpl; [|reflexivity].
      destruct (length (filter is_round evs')) as [|n]; [|reflexivity].
      exfalso. apply Hne'. symmetry. now apply Hp.
Qed.

Lemma loop_run_paced (budget : nat) (attempt : Z) (pending : list Task)
    (completed : list Video) (evs : list Event)
    (out : option (Z * list Task * list Video)) :
  loop_run budget attempt pending completed evs out ->
  paced evs.
Proof.
  induction 1 as
    [ attempt pending completed
    | budget attempt completed
    | budget attempt pending completed revs Hne Hround
    | budget attempt pending completed completed1 revs Hne Hround
    | budget attempt pending pending1 completed completed1 revs evs' out
        Hne Hround Hne' Hloop IH ].
  - apply paced_nil.
  - apply paced_nil.
  - apply paced_final. exact (round_run_quiet Hround).
  - apply paced_final. exact (round_run_quiet Hround).
  - pose proof (round_run_quiet Hround) as Hquiet.
    inversion IH as [E | a evs0 Hq E | a evs0 Hq E | a n evs0 rest Hq Hrest E];
      subst.
    + now apply paced_timed_out.
    + apply paced_next; [exact Hquiet | now apply paced_final].
    + apply paced_next; [exact Hquiet | now apply paced_timed_out].
    + apply paced_next; [exact Hquiet | now apply paced_next].
Qed.

Lemma total_sleep_fives (l : list Z) :
  Forall (fun secs => secs = 5) l -> fold_right Z.add 0 l = 5 * Z.of_nat (length l).
Proof.
  induction 1 as [|x l Hx _ IH]; [reflexivity|].
  cbn [fold_right length]. rewrite IH, Hx. lia.
Qed.

Section RoundBudget.

Context {W : Type} (env : Env W).

(** C4, as the code has it: the poll loop runs at most 60 rounds; every
    sleep of the poller lasts 5 time units and there is at most one per
    round, so the time slept is at most 60 x 5.  What the rounds themselves
    take, their status calls and downloads, comes on top of that and is
    not bounded here.  A sleep follows a round exactly when another
    round comes next or the round budget ends with jobs still pending; a
    round that is followed by no sleep ends the trace.  When the poller
    returns, the round counter is the number of rounds run; every round was
    followed by a sleep if jobs are still pending (they timed out), and
    every round but the last, the one that emptied the pending list,
    otherwise. *)
Theorem poll_loop_round_budget
    (self : AvatarVideoGenerator) (tasks : list Task) (w : W) :
  let evs := events (poll_videos env self tasks) w in
  (rounds evs <= 60)%nat
  /\ Forall (fun secs => secs = 5) (sleeps evs)
  /\ (length (sleeps evs) <= rounds evs)%nat
  /\ total_sleep evs <= 60 * 5
  /\ paced evs
  /\ forall attempt pending completed,
       result (poll_videos env self tasks) w = Ok (attempt, pending, completed) ->
       attempt = Z.of_nat (rounds evs)
       /\ length (sleeps evs)
          = if nonempty pending then rounds evs else pred (rounds evs).
Proof.
  intros evs.
  destruct (loop_run_rounds (poll_videos_sound env self tasks w))
    as (Hr & Hs & Hl & Hout).
  fold evs in Hr, Hs, Hl, Hout.
  change max_attempts with 60%nat in Hr.
  split; [exact Hr|]. split; [exact Hs|]. split; [exact Hl|].
  split; [|split].
  - unfold total_sleep. rewrite (total_sleep_fives Hs). lia.
  - exact (loop_run_paced (poll_videos_sound env self tasks w)).
  - intros attempt pending completed H.
    destruct (Hout attempt pending completed) as (Ha & _ & Hlen);
      [now rewrite H|].
    split; [lia | exact Hlen].
Qed.

End RoundBudget.

(** ** Equality of jobs *)

Lemma json_eqb_refl : forall j, json_eqb j j = true.
Proof.
  fix IH 1. intros [ | b | n | s | items | fields]; simpl.
  - reflexivity.
  - apply Bool.eqb_reflx.
  - apply Z.eqb_refl.
  - apply String.eqb_refl.
  - induction items as [|x items IHitems]; [reflexivity|].
    rewrite (IH x). exact IHitems.
  - induction fields as [|[k x] fields IHfields]; [reflexivity|].
    rewrite String.eqb_refl, (IH x). exact IHfields.
Qed.

Lemma json_eqb_eq : forall a b, json_eqb a b = true -> a = b.
Proof.
  fix IH 1. intros [ | x | x | x | xs | xs] [ | y | y | y | ys | ys];
    simpl; intros H; try discriminate.
  - reflexivity.
  - f_equal. now apply Bool.eqb_prop.
  - f_equal. now apply Z.eqb_eq.
  - f_equal. now apply String.eqb_eq.
  - f_equal. revert ys H.
    induction xs as [|x xs IHxs]; intros [|y ys] H; try discriminate.
    + reflexivity.
    + apply andb_true_iff in H. destruct H as [Hx Hxs].
      f_equal; [apply IH; exact Hx | apply IHxs; exact Hxs].
  - f_equal. revert ys H.
    induction xs as [|[k x] xs IHxs]; intros [|[k' y] ys] H; try discriminate.
    + reflexivity.
    + apply andb_true_iff in H. destruct H as [H Hxs].
      apply andb_true_iff in H. destruct H as [Hk Hx].
      apply String.eqb_eq in Hk. subst k'.
      f_equal; [f_equal; apply IH; exact Hx | apply IHxs; exact Hxs].
Qed.

Lemma opt_eqb_refl {A : Type} (eqb : A -> A -> bool) (o : option A) :
  (forall x, eqb x x = true) -> opt_eqb eqb o o = true.
Proof. intros H. destruct o; simpl; auto. Qed.

Lemma opt_eqb_eq {A : Type} (eqb : A -> A -> bool) (a b : option A) :
  (forall x y, eqb x y = true -> x = y) -> opt_eqb eqb a b = true -> a = b.
Proof.
  intros H. destruct a, b; simpl; intros E; try discriminate;
    [f_equal; now apply H | reflexivity].
Qed.

Lemma float_eqb_refl (x : float) : float_eqb x x = true.
Proof.
  destruct x as [b|b| |b m e]; cbn; try apply eqb_reflx; try reflexivity.
  now rewrite eqb_reflx, Pos.eqb_refl, Z.eqb_refl.
Qed.

Lemma float_eqb_eq (x y : float) : float_eqb x y = true -> x = y.
Proof.
  destruct x as [b|b| |b m e], y as [b'|b'| |b' m' e']; cbn;
    try discriminate; intros H.
  - apply eqb_prop in H. now subst.
  - apply eqb_prop in H. now subst.
  - reflexivity.
  - apply andb_true_iff in H. destruct H as [H He].
    apply andb_true_iff in H. destruct H as [Hb Hm].
    apply eqb_prop in Hb. apply Pos.eqb_eq in Hm. apply Z.eqb_eq in He.
    now subst.
Qed.

Lemma task_eqb_refl (t : Task) : task_eqb t t = true.
Proof.
  unfold task_eqb.
  rewrite !String.eqb_refl, json_eqb_refl, Z.eqb_refl.
  rewrite (opt_eqb_refl _ _ String.eqb_refl), (opt_eqb_refl _ _ float_eqb_refl).
  reflexivity.
Qed.

Lemma task_eqb_eq (a b : Task) : task_eqb a b = true -> a = b.
Proof.
  unfold task_eqb. destruct a, b; simpl. intros H.
  repeat (apply andb_true_iff in H; destruct H as [H ?]).
  apply String.eqb_eq in H.
  match goal with E : json_eqb _ _ = true |- _ => apply json_eqb_eq in E end.
  match goal with E : String.eqb _ _ = true |- _ => apply String.eqb_eq in E end.
  match goal with E : Z.eqb _ _ = true |- _ => apply Z.eqb_eq in E end.
  match goal with E : opt_eqb String.eqb _ _ = true |- _ =>
    apply (opt_eqb_eq _ _ _ (fun x y => proj1 (String.eqb_eq x y))) in E end.
  match goal with E : opt_eqb float_eqb _ _ = true |- _ =>
    apply (opt_eqb_eq _ _ _ float_eqb_eq) in E end.
  now subst.
Qed.

(** ** Removing a job from the pending list *)

Lemma list_remove_head (t : Task) (l : list Task) :
  list_remove task_eqb t (t :: l) = Some l.
Proof. simpl. now rewrite task_eqb_refl. Qed.

Lemma list_remove_perm (t : Task) (l l' : list Task) :
  list_remove task_eqb t l = Some l' -> Permutation l (t :: l').
Proof.
  revert l'. induction l as [|y l IH]; intros l' H; simpl in H; [discriminate|].
  destruct (task_eqb y t) eqn:E.
  - inversion H; subst. apply task_eqb_eq in E. now subst.
  - destruct (list_remove task_eqb t l) as [r|]; [|discriminate].
    inversion H; subst. rewrite (IH r eq_refl). apply perm_swap.
Qed.

(** ** Mock jobs *)

Lemma no_remote_writes (tasks : list Task) :
  filter is_remote (map mock_write tasks) = [].
Proof. induction tasks as [|t tasks IH]; [reflexivity | exact IH]. Qed.

Lemma no_sleep_writes (tasks : list Task) : sleeps (map mock_write tasks) = [].
Proof. induction tasks as [|t tasks IH]; [reflexivity | exact IH]. Qed.

Section MockJobs.

Context {W : Type} (env : Env W).

Lemma poll_round_all_mock (self : AvatarVideoGenerator) (rest : list Task) :
  forall completed w,
    Forall (fun t => is_mock t = true) rest ->
    poll_round env self rest rest completed w
    = (Ok ([], (completed ++ map mock_video rest)%list), w,
       map mock_write rest).
Proof.
  induction rest as [|t rest IH]; intros completed w Hall.
  - simpl. now rewrite app_nil_r.
  - inversion Hall as [|t' rest' Ht Hrest]; subst.
    simpl poll_round. fold (is_mock t). rewrite Ht.
    unfold write_file, remove_task. rewrite list_remove_head.
    unfold bind at 1, emit. unfold bind at 1, ret.
    rewrite (IH _ w Hrest). simpl. rewrite <- app_assoc. reflexivity.
Qed.

(** C2, as the code has it: a list of [N] jobs that are all mock ones is
    resolved inside the poll loop, in its first round: the poller returns
    [N] completed entries in the order of the job list (so in segment-id
    order when the list is), with an emptied pending list, after writing one
    placeholder file per job, without any call to a provider and without
    sleeping. *)
Theorem mock_jobs_resolved_in_first_round
    (self : AvatarVideoGenerator) (tasks : list Task) (w : W) :
  Forall (fun t => is_mock t = true) tasks ->
  let evs := events (poll_videos env self tasks) w in
  let completed := map mock_video tasks in
  result (poll_videos env self tasks) w
  = Ok ((if nonempty tasks then 1 else 0), [], completed)
  /\ length completed = length tasks
  /\ map vid_segment_id completed = map task_segment_id tasks
  /\ Forall (fun v => vid_status v = "completed") completed
  /\ evs = (if nonempty tasks then EvRound 1 :: map mock_write tasks else [])
  /\ filter is_remote evs = []
  /\ sleeps evs = [].
Proof.
  intros Hall evs completed.
  assert (Hrun : poll_videos env self tasks w
                 = (Ok ((if nonempty tasks then 1 else 0), [], completed), w,
                    if nonempty tasks then EvRound 1 :: map mock_write tasks
                    else [])).
  { unfold poll_videos. destruct tasks as [|t tasks]; [reflexivity|].
    change max_attempts with (S 59).
    remember (t :: tasks) as l eqn:Hl.
    assert (Hne : nonempty l = true) by (subst l; reflexivity).
    clear Hl. simpl poll_loop. rewrite Hne.
    unfold bind at 1, emit. unfold bind at 1.
    rewrite (poll_round_all_mock self [] w Hall). simpl.
    now rewrite app_nil_r. }
  unfold evs, events, result. rewrite Hrun. simpl.
  split; [reflexivity|]. split; [apply length_map|].
  split; [unfold completed; rewrite !map_map; reflexivity|].
  split; [unfold completed; apply Forall_map; now apply Forall_forall|].
  split; [reflexivity|].
  destruct (nonempty tasks); simpl; [|split; reflexivity].
  split; [apply no_remote_writes | apply no_sleep_writes].
Qed.

End MockJobs.

(** Two jobs made without an API key: one round, two entries. *)
Lemma mock_jobs_resolved_in_first_round_witness :
  let env := offline in
  let tasks := [mock_response 1 "four runs" 1700000000;
                mock_response 2 "and a wicket" 1700000001] in
  Forall (fun t => is_mock t = true) tasks
  /\ result (poll_videos env no_key tasks) 0%nat
     = Ok (1, [], map mock_video tasks)
  /\ sleeps (events (poll_videos env no_key tasks) 0%nat) = [].
Proof.
  intros env tasks.
  assert (Hall : Forall (fun t => is_mock t = true) tasks)
    by (repeat constructor).
  split; [exact Hall|].
  destruct (mock_jobs_resolved_in_first_round env no_key 0%nat Hall)
    as (Hr & _ & _ & _ & _ & _ & Hs).
  split; [exact Hr | exact Hs].
Defined.

(** C2 as stated fails: a mock job is resolved by a round of the poll
    loop, the first one. *)
Lemma mock_job_goes_through_poll_loop :
  ~ mock_jobs_skip_poll_loop
      offline no_key [mock_response 1 "four runs" 1700000000] 0%nat.
Proof.
  intros H. unfold mock_jobs_skip_poll_loop in H.
  assert (Hall : Forall (fun t => is_mock t = true)
                   [mock_response 1 "four runs" 1700000000])
    by (repeat constructor).
  specialize (H Hall). vm_compute in H. discriminate.
Qed.

(** ** What a pass of the loop body leaves in the trace *)

Lemma queried_app (a b : list Event) :
  queried (a ++ b) = (queried a ++ queried b)%list.
Proof. apply flat_map_app. Qed.

Lemma fetched_app (a b : list Event) :
  fetched (a ++ b) = (fetched a ++ fetched b)%list.
Proof. apply flat_map_app. Qed.


Lemma settled_app (a b : list Event) :
  settled (a ++ b) = (settled a ++ settled b)%list.
Proof. apply flat_map_app. Qed.

Lemma dropped_app (a b : list Event) :
  dropped (a ++ b) = (dropped a ++ dropped b)%list.
Proof. apply flat_map_app. Qed.

Lemma flat_map_head {A : Type} (f : Event -> list A) (e : Event)
    (l : list Event) :
  flat_map f (e :: l) = (f e ++ flat_map f l)%list.
Proof. reflexivity. Qed.

Lemma query_of_io (e : Event) : is_io e = true -> query_of e = [].
Proof. destruct e; intros H; try discriminate; reflexivity. Qed.

Lemma fetch_of_io (e : Event) : is_io e = true -> fetch_of e = [].
Proof. destruct e; intros H; try discriminate; reflexivity. Qed.


Lemma settled_of_io (e : Event) : is_io e = true -> settled_of e = [].
Proof. destruct e; intros H; try discriminate; reflexivity. Qed.

Lemma dropped_of_io (e : Event) : is_io e = true -> dropped_of e = [].
Proof. destruct e; intros H; try discriminate; reflexivity. Qed.

(** Reads the trace function [f] off the events of one pass. *)
Ltac read_pass f f_io :=
  unfold f;
  repeat (rewrite ?flat_map_head, ?flat_map_app);
  repeat match goal with
         | H : Forall (fun e => is_io e = true) ?l
           |- context [flat_map ?g ?l] =>
             rewrite (@flat_map_io _ g l f_io H)
         end;
  cbn [flat_map app query_of fetch_of located_of settled_of dropped_of].



Lemma terminal_false (info : StatusInfo) :
  terminal info = false ->
  completed_with_locator info = false
  /\ json_is (st_status info) "error" = false.
Proof. unfold terminal. apply orb_false_iff. Qed.

(** The jobs a pass drops: its own job when the verdict is [Drop]. *)
Lemma task_polled_dropped (t : Task) (evs : list Event) (v : Verdict) :
  task_polled t evs (Some v) ->
  dropped evs = match v with Drop => [t] | _ => [] end.
Proof.
  intros H. remember (Some v) as ov eqn:E.
  destruct H as
    [ Hm | nevs Hm Hio | nevs info Hm Hio Ht | nevs info Hm Hio Hc He
    | nevs fevs info Hm Hio Hfio Hc | nevs fevs info r Hm Hio Hfio Hc ];
    inversion E; subst; clear E.
  - reflexivity.
  - destruct (terminal_false _ Ht) as [Hc He].
    read_pass dropped dropped_of_io. now rewrite Hc, He.
  - read_pass dropped dropped_of_io. now rewrite Hc, He.
  - read_pass dropped dropped_of_io. rewrite Hc. cbn.
    unfold fetch_verdict. destruct r as [p|]; cbn; [|reflexivity].
    destruct (str_truthy p); reflexivity.
Qed.

(** ** Every job is accounted for *)

Lemma round_run_accounts (rest pending : list Task) (completed : list Video)
    (evs : list Event) (out : option (list Task * list Video)) :
  round_run rest pending completed evs out ->
  forall pending' completed',
    out = Some (pending', completed') ->
    Permutation
      (map task_segment_id pending ++ map vid_segment_id completed)
      (map vid_segment_id completed'
       ++ map task_segment_id (dropped evs)
       ++ map task_segment_id pending')
    /\ (Forall (fun v => vid_status v = "completed") completed ->
        Forall (fun v => vid_status v = "completed") completed').
Proof.
  induction 1 as
    [ pending completed
    | t rest pending completed evs Hp
    | t rest pending completed evs evs' out Hp Hrest IH
    | t rest pending pending1 completed v evs evs' out Hp Hv Hr Hrest IH
    | t rest pending completed v evs Hp Hv Hr ];
    intros pending' completed' Hout; try discriminate.
  - inversion Hout; subst. split; [|auto]. cbn. apply Permutation_app_comm.
  - destruct (IH _ _ Hout) as [Hperm Hall]. split; [|exact Hall].
    rewrite dropped_app, (task_polled_dropped Hp). exact Hperm.
  - destruct (IH _ _ Hout) as [Hperm Hall]. split.
    + rewrite dropped_app, (task_polled_dropped Hp).
      rewrite (Permutation_map task_segment_id (list_remove_perm _ _ Hr)).
      destruct v as [ | | p]; [contradiction | |]; cbn in Hperm |- *.
      * rewrite Hperm. apply Permutation_middle.
      * rewrite map_app in Hperm. cbn in Hperm. rewrite <- Hperm.
        rewrite Permutation_middle. apply Permutation_app_head.
        apply Permutation_cons_append.
    + intros Hc. apply Hall. destruct v; cbn; auto.
      apply Forall_app. split; [exact Hc|]. repeat constructor.
Qed.

Lemma loop_run_accounts (budget : nat) (attempt : Z) (pending : list Task)
    (completed : list Video) (evs : list Event)
    (out : option (Z * list Task * list Video)) :
  loop_run budget attempt pending completed evs out ->
  forall attempt' pending' completed',
    out = Some (attempt', pending', completed') ->
    Permutation
      (map task_segment_id pending ++ map vid_segment_id completed)
      (map vid_segment_id completed'
       ++ map task_segment_id (dropped evs)
       ++ map task_segment_id pending')
    /\ (Forall (fun v => vid_status v = "completed") completed ->
        Forall (fun v => vid_status v = "completed") completed').
Proof.
  induction 1 as
    [ attempt pending completed
    | budget attempt completed
    | budget attempt pending completed revs Hne Hround
    | budget attempt pending completed completed1 revs Hne Hround
    | budget attempt pending pending1 completed completed1 revs evs' out
        Hne Hround Hne' Hloop IH ];
    intros attempt' pending' completed' Hout; try discriminate.
  - inversion Hout; subst. split; [|auto]. cbn. apply Permutation_app_comm.
  - inversion Hout; subst. split; [|auto]. cbn. now rewrite app_nil_r.
  - inversion Hout; subst.
    destruct (round_run_accounts Hround eq_refl) as [Hperm Hall].
    split; [exact Hperm | exact Hall].
  - destruct (round_run_accounts Hround eq_refl) as [Hperm Hall].
    destruct (IH _ _ _ Hout) as [Hperm' Hall']. split; [|auto].
    change (EvRound (attempt + 1) :: revs ++ EvSleep 5 :: evs')
      with ([EvRound (attempt + 1)] ++ revs ++ [EvSleep 5] ++ evs')%list.
    rewrite !dropped_app. cbn [dropped flat_map dropped_of app].
    rewrite map_app, <- app_assoc.
    etransitivity; [exact Hperm|].
    etransitivity; [apply Permutation_app_rot|].
    rewrite Hperm'. apply Permutation_app_swap_app.
Qed.

Lemma flat_map_nil_Forall {A : Type} (f : Event -> list A) (evs : list Event) :
  Forall (fun e => f e = []) evs -> flat_map f evs = [].
Proof.
  induction 1 as [|e evs He _ IH]; [reflexivity|].
  cbn [flat_map]. now rewrite He, IH.
Qed.

Section Accounting.

Context {W : Type} (env : Env W).

Lemma create_task_segment_id (self : AvatarVideoGenerator) (seg : Segment)
    (w : W) (t : Task) :
  result (create_task env self seg) w = Ok t ->
  task_segment_id t = seg_id seg.
Proof.
  unfold create_task, create_avatar_video_heygen, create_avatar_video_did,
    result, bind, post, call, _create_mock_response, read, ret.
  destruct (String.eqb (provider self) "heygen").
  - destruct (negb (opt_truthy (api_key self))); cbn.
    + intros H. inversion H. reflexivity.
    + destruct (requests_post env heygen_create (seg_script seg) w) as [r w1].
      destruct (heygen_created_id r); cbn; intros H; inversion H; reflexivity.
  - destruct (String.eqb (provider self) "d-id"); cbn.
    + destruct (negb (opt_truthy (api_key self))); cbn.
      * intros H. inversion H. reflexivity.
      * destruct (requests_post env did_create (seg_script seg) w) as [r w1].
        destruct (did_created_id r); cbn; intros H; inversion H; reflexivity.
    + intros H. inversion H. reflexivity.
Qed.

Lemma create_tasks_segment_ids (self : AvatarVideoGenerator)
    (segments : list Segment) :
  forall acc w tasks,
    result (create_tasks env self segments acc) w = Ok tasks ->
    map task_segment_id tasks
    = (map task_segment_id acc ++ map seg_id segments)%list.
Proof.
  induction segments as [|seg rest IH]; intros acc w tasks H.
  - cbn in H. inversion H. cbn. now rewrite app_nil_r.
  - cbn [create_tasks] in H. rewrite result_bind in H.
    destruct (result (create_task env self seg) w) as [t|] eqn:Ht;
      [|discriminate].
    rewrite result_bind in H. cbn [result sleep call fst] in H.
    apply IH in H. rewrite H, map_app. cbn.
    rewrite (create_task_segment_id _ _ _ Ht), <- app_assoc. reflexivity.
Qed.

Lemma create_tasks_drop_nothing (self : AvatarVideoGenerator)
    (segments : list Segment) :
  forall acc, emits_only (fun e => dropped_of e = [])
                (create_tasks env self segments acc).
Proof.
  induction segments as [|seg rest IH]; intros acc; cbn [create_tasks].
  - emits.
  - unfold create_task, create_avatar_video_heygen, create_avatar_video_did,
      _create_mock_response, post, sleep.
    emits; try apply IH; reflexivity.
Qed.

End Accounting.

(** C1 as stated fails: the status call for the one job answers HTTP 500,
    the job is taken off the pending list, and the poller returns an empty
    list, no failed entry and no list of timed-out jobs. *)
Lemma failed_job_not_reported :
  ~ every_settled_job_reported three_fates with_key [heygen_job 2 "two"] 0%nat.
Proof.
  intros H.
  assert (Hr : result (poll_videos three_fates with_key [heygen_job 2 "two"])
                 0%nat = Ok (1, [], []))
    by (vm_compute; reflexivity).
  apply (H 1 [] [] Hr (heygen_job 2 "two")).
  vm_compute. left. reflexivity.
Qed.

(** ** Terminal jobs are not polled again *)















Section Polling.

Context {W : Type} (env : Env W).


End Polling.


(** ** The segment composer *)

Section ComposerFacts.

Context {W : Type} (env : Env W).

(** The fade step never raises; it succeeds exactly when the probe printed
    a duration and the fade command, run with that duration, exited 0. *)
Lemma add_fade_transition_runs (input output : string) (fade_in fade_out : Q)
    (w : W) :
  exists ok,
    result (add_fade_transition env input output fade_in fade_out) w = Ok ok
    /\ (ok = true <->
        exists code stdout duration w1,
          subprocess_run env (Ffprobe input) w = (Some (code, stdout), w1)
          /\ float_of_str env stdout = Some duration
          /\ returned_zero
               (fst (subprocess_run env
                       (FfmpegFade input output fade_in
                          (duration - fade_out)%Q fade_out) w1)) = true).
Proof.
  unfold add_fade_transition, result, bind, run, call, ret.
  destruct (subprocess_run env (Ffprobe input) w) as [[[code stdout]|] w1] eqn:Hp;
    cbn.
  - destruct (float_of_str env stdout) as [d|] eqn:Hd; cbn.
    + destruct (subprocess_run env
                  (FfmpegFade input output fade_in (d - fade_out)%Q fade_out) w1)
        as [r w2] eqn:Hf; cbn.
      exists (returned_zero r). split; [reflexivity|]. split.
      * intros Hok. exists code, stdout, d, w1. rewrite Hf. auto.
      * intros (code' & stdout' & d' & w1' & E & Hd' & Hz).
        inversion E; subst. rewrite Hd in Hd'. inversion Hd'; subst.
        now rewrite Hf in Hz.
    + exists false. split; [reflexivity|]. split; [discriminate|].
      intros (code' & stdout' & d' & w1' & E & Hd' & _).
      inversion E; subst. congruence.
  - exists false. split; [reflexivity|]. split; [discriminate|].
    intros (code' & stdout' & d' & w1' & E & _). discriminate.
Qed.

Lemma create_image_video_runs (image : string) (duration : Q) (output : string)
    (w : W) :
  exists ok, result (create_image_video env image duration output) w = Ok ok.
Proof.
  unfold create_image_video, result, bind, run, call, ret.
  destruct (subprocess_run env (FfmpegImage image duration output) w).
  eexists. reflexivity.
Qed.

Lemma create_picture_in_picture_runs (main overlay output position : string)
    (w : W) :
  exists ok,
    result (create_picture_in_picture env main overlay output position) w = Ok ok.
Proof.
  unfold create_picture_in_picture, result, bind, run, call, ret.
  destruct (subprocess_run env
              (FfmpegPip main overlay output (overlay_position position)) w).
  eexists. reflexivity.
Qed.

(** Without a chart, [compose_segment] runs the fade step with 0.5 time
    units each side on the avatar clip and never raises; it returns the path
    of the transitioned clip when that step succeeds and [None] when it
    fails, not the avatar clip. *)
Theorem compose_without_chart_fades_or_fails (seg : Video) (w : W) :
  let avatar := vid_local_path seg in
  let out := composed_path (vid_segment_id seg) in
  let fade := add_fade_transition env avatar out (1 # 2) (1 # 2) in
  exists ok,
    result fade w = Ok ok
    /\ compose_segment env seg None w
       = (Ok (if ok then Some out else None), world_after fade w, events fade w)
    /\ (ok = true <->
        exists code stdout duration w1,
          subprocess_run env (Ffprobe avatar) w = (Some (code, stdout), w1)
          /\ float_of_str env stdout = Some duration
          /\ returned_zero
               (fst (subprocess_run env
                       (FfmpegFade avatar out (1 # 2)
                          (duration - (1 # 2))%Q (1 # 2)) w1)) = true).
Proof.
  intros avatar out fade.
  destruct (add_fade_transition_runs avatar out (1 # 2) (1 # 2) w)
    as (ok & Hr & Hok).
  exists ok. split; [exact Hr|]. split; [|exact Hok].
  unfold compose_segment. cbn [opt_truthy negb].
  fold avatar. fold out. fold fade. fold fade in Hr.
  unfold bind. rewrite (run_eta fade w), Hr.
  destruct ok; cbn; now rewrite app_nil_r.
Qed.

(** C10, as the code has it: with a chart path that is not empty,
    [compose_segment] always returns a path and never raises: the composed
    clip when the chart conversion, the picture-in-picture step and the fade
    step all succeed, the avatar clip as soon as one of them fails. *)
Theorem compose_with_chart_gives_a_path (seg : Video) (chart : string) (w : W) :
  str_truthy chart = true ->
  let id := vid_segment_id seg in
  let avatar := vid_local_path seg in
  let convert := create_image_video env chart (8 # 1) (chart_video_path id) in
  let w1 := world_after convert w in
  let pip := create_picture_in_picture env avatar (chart_video_path id)
               (pip_path id) "bottomright" in
  let w2 := world_after pip w1 in
  let fade := add_fade_transition env (pip_path id) (composed_path id)
                (1 # 2) (1 # 2) in
  result (compose_segment env seg (Some chart)) w
  = Ok (Some (if succeeded (result convert w) && succeeded (result pip w1)
                 && succeeded (result fade w2)
              then composed_path id else avatar)).
Proof.
  intros Hchart id avatar convert w1 pip w2 fade.
  unfold compose_segment. cbn [opt_truthy]. rewrite Hchart. cbn [negb].
  fold id. fold avatar. fold convert.
  rewrite result_bind.
  destruct (create_image_video_runs chart (8 # 1) (chart_video_path id) w)
    as (c & Hc).
  fold convert in Hc. rewrite Hc. fold w1.
  destruct c; cbn [negb succeeded andb]; [|reflexivity].
  fold pip. rewrite result_bind.
  destruct (create_picture_in_picture_runs avatar (chart_video_path id)
              (pip_path id) "bottomright" w1) as (p & Hp).
  fold pip in Hp. rewrite Hp. fold w2.
  destruct p; cbn [succeeded andb]; [|reflexivity].
  fold fade. rewrite result_bind.
  destruct (add_fade_transition_runs (pip_path id) (composed_path id)
              (1 # 2) (1 # 2) w2) as (f & Hf & _).
  fold fade in Hf. rewrite Hf.
  destruct f; reflexivity.
Qed.

End ComposerFacts.

(** The tools work and no chart is given: the transitioned clip comes back. *)
Lemma compose_without_chart_fades_or_fails_witness :
  let env := scripted (fun _ _ => None) (fun _ _ => None) (fun _ _ => None)
               tools_ok in
  result (compose_segment env (avatar_clip 2) None) 0%nat
  = Ok (Some "temp_video_files/composed_segment_2.mp4").
Proof.
  intros env.
  destruct (compose_without_chart_fades_or_fails env (avatar_clip 2) 0%nat)
    as (ok & Hr & Hrun & _).
  unfold result. rewrite Hrun. cbn [fst].
  vm_compute in Hr. inversion Hr; subst ok. reflexivity.
Defined.

(** No tool can be run, the fade step fails, and [compose_segment] returns
    [None]. *)
Lemma compose_without_chart_returns_none :
  ~ compose_without_chart_never_fails offline (avatar_clip 2) 0%nat.
Proof.
  intros (p & Hr & _). vm_compute in Hr. discriminate.
Qed.

(** C3: the fade step fails, every other tool works.  Without a chart
    [compose_segment] returns [None], and [create_final_video] leaves the
    segment out of the final video; with a chart, where the same step fails
    after the overlay, it returns the avatar clip unmodified, as the round
    trip says. *)
Lemma fade_failure_drops_segment_without_chart :
  let env := scripted (fun _ _ => None) (fun _ _ => None) (fun _ _ => None)
               fade_fails in
  let composer := {| output_filename := "cricket_commentary_final.mp4" |} in
  result (compose_segment env (avatar_clip 2) None) 0%nat = Ok None
  /\ result (compose_segment env (avatar_clip 2) (Some "charts/run_rate.png"))
       0%nat
     = Ok (Some "avatar_videos/segment_2.mp4")
  /\ result (create_final_video env composer [avatar_clip 2] (fun _ => None))
       0%nat
     = Ok None.
Proof. repeat split; vm_compute; reflexivity. Qed.

(** The chart is converted, the tools cannot read the clips after that:
    the avatar clip comes back. *)
Lemma compose_with_chart_gives_a_path_witness :
  let env := scripted (fun _ _ => None) (fun _ _ => None) (fun _ _ => None)
               tools_unreadable in
  str_truthy "charts/run_rate.png" = true
  /\ result (compose_segment env (avatar_clip 1) (Some "charts/run_rate.png"))
       0%nat
     = Ok (Some "avatar_videos/segment_1.mp4").
Proof.
  intros env. split; [reflexivity|].
  rewrite (compose_with_chart_gives_a_path env (avatar_clip 1)
             "charts/run_rate.png" 0%nat eq_refl).
  vm_compute. reflexivity.
Defined.

(** C10 as stated fails: the empty string is a chart path that is not
    [None]; it takes the branch without chart, where a failed fade step
    gives [None]. *)
Lemma compose_with_empty_chart_path_returns_none :
  ~ compose_with_chart_gives_path offline (avatar_clip 1) (Some "") 0%nat.
Proof.
  intros H. destruct H as (p & Hr); [discriminate|].
  vm_compute in Hr. discriminate.
Qed.

(** ** Substrings *)

Lemma append_cons (c : ascii) (s x : string) :
  String c s ++ x = String c (s ++ x).
Proof. reflexivity. Qed.

Lemma prefix_empty (s : string) : String.prefix "" s = true.
Proof. destruct s; reflexivity. Qed.

Lemma prefix_cons (a b : ascii) (n h : string) :
  String.prefix (String a n) (String b h)
  = if ascii_dec a b then String.prefix n h else false.
Proof. cbn. destruct (ascii_dec a b); reflexivity. Qed.

Lemma prefix_app_l (n h x : string) :
  String.prefix n h = true -> String.prefix n (h ++ x) = true.
Proof.
  revert h. induction n as [|a n IH]; intros h H; [apply prefix_empty|].
  destruct h as [|b h]; [discriminate|].
  rewrite append_cons. rewrite prefix_cons in H |- *.
  destruct (ascii_dec a b); [now apply IH | discriminate].
Qed.

Lemma prefix_own (n r : string) : String.prefix n (n ++ r) = true.
Proof.
  induction n as [|a n IH]; [apply prefix_empty|].
  rewrite append_cons, prefix_cons.
  destruct (ascii_dec a a); [exact IH | congruence].
Qed.

Lemma contains_cons (n : string) (c : ascii) (h : string) :
  contains n (String c h) = String.prefix n (String c h) || contains n h.
Proof. reflexivity. Qed.

Lemma contains_prefix (n h : string) :
  String.prefix n h = true -> contains n h = true.
Proof. intros H. destruct h; cbn [contains]; now rewrite H. Qed.

Lemma contains_app_r (n h x : string) :
  contains n h = true -> contains n (x ++ h) = true.
Proof.
  intros H. induction x as [|c x IH]; [exact H|].
  rewrite append_cons, contains_cons, IH. apply orb_true_r.
Qed.

Lemma contains_app_l (n h x : string) :
  contains n h = true -> contains n (h ++ x) = true.
Proof.
  induction h as [|c h IH]; intros H.
  - cbn [contains] in H. rewrite orb_false_r in H.
    apply contains_prefix. now apply (prefix_app_l _ "").
  - rewrite contains_cons in H. rewrite append_cons, contains_cons.
    apply orb_true_iff in H. apply orb_true_iff. destruct H as [H|H].
    + left. rewrite <- append_cons. now apply prefix_app_l.
    + right. now apply IH.
Qed.

Lemma contains_concat (n s : string) (l : list string) :
  In s l -> contains n s = true -> contains n (String.concat "" l) = true.
Proof.
  intros Hin Hn. induction l as [|x l IH]; [contradiction|].
  destruct l as [|y l].
  - destruct Hin as [->|[]]. exact Hn.
  - change (String.concat "" (x :: y :: l))
      with (x ++ "" ++ String.concat "" (y :: l)).
    destruct Hin as [->|Hin].
    + now apply contains_app_l.
    + apply contains_app_r. apply contains_app_r. now apply IH.
Qed.

Lemma manifest_line_names_clip (v : Video) :
  contains (vid_local_path v) (manifest_line v) = true.
Proof.
  unfold manifest_line. apply contains_app_r. apply contains_app_r.
  apply contains_app_r. apply contains_prefix. apply prefix_own.
Qed.

(** ** The assembler without the media tools *)

Section Degraded.

Context {W : Type} (env : Env W).

Lemma check_ffmpeg_runs (w : W) :
  check_ffmpeg env w
  = (Ok (returned_zero (fst (subprocess_run env FfmpegVersion w))),
     snd (subprocess_run env FfmpegVersion w),
     [EvRun FfmpegVersion]).
Proof.
  unfold check_ffmpeg, bind, run, call, ret.
  destruct (subprocess_run env FfmpegVersion w). reflexivity.
Qed.

(** C8, as the code has it.  When the tool probe fails:
    - [create_final_video] concatenates nothing; where the file
      "mock_" + output_filename can be opened it writes it, naming every
      input clip, and returns its path; where it cannot (an output file
      name with a directory part puts the placeholder into a directory
      nobody made) the call raises and nothing is written;
    - the pipeline stage [compose_final_video] does not call
      [create_final_video]: it writes the fixed two lines of
      cricket_output/mock_final_video.txt, which name no clip, and reports
      success;
    - [run_full_pipeline] then reports success, when the avatar stage
      before it did. *)
Theorem missing_tools_give_placeholder (w : W) :
  ffmpeg_missing env w ->
  let w1 := snd (subprocess_run env FfmpegVersion w) in
  (forall composer segments charts,
      let mock_output := "mock_" ++ output_filename composer in
      let content :=
        "Mock final video - FFmpeg required for actual composition" ++ newline
        ++ String.concat "" (map manifest_line segments) in
      (writable env mock_output w1 = true ->
       create_final_video env composer segments charts w
       = (Ok (Some mock_output), w1,
          [EvRun FfmpegVersion; EvWrite mock_output content])
       /\ lists_inputs
            (events (create_final_video env composer segments charts) w)
            segments)
      /\ (writable env mock_output w1 = false ->
          create_final_video env composer segments charts w
          = (Raised, w1, [EvRun FfmpegVersion])))
  /\ (forall self,
        compose_final_video env self w
        = (Ok (true,
               with_final_video self
                 (Some "cricket_output/mock_final_video.txt")),
           w1,
           [EvRun FfmpegVersion;
            EvWrite "cricket_output/mock_final_video.txt"
              ("Mock final video" ++ newline
               ++ "Install FFmpeg for actual video composition" ++ newline)]))
  /\ (forall self0 w0 self,
        result (generate_avatar_videos env self0) w0 = Ok (true, self) ->
        world_after (generate_avatar_videos env self0) w0 = w ->
        result (run_full_pipeline env self0) w0 = Ok true).
Proof.
  intros Hmiss w1. unfold ffmpeg_missing in Hmiss.
  assert (Hstage : forall self,
    compose_final_video env self w
    = (Ok (true,
           with_final_video self (Some "cricket_output/mock_final_video.txt")),
       w1,
       [EvRun FfmpegVersion;
        EvWrite "cricket_output/mock_final_video.txt"
          ("Mock final video" ++ newline
           ++ "Install FFmpeg for actual video composition" ++ newline)])).
  { intros self. unfold compose_final_video, catch, bind.
    rewrite check_ffmpeg_runs, Hmiss. reflexivity. }
  split; [|split; [exact Hstage|]].
  - intros composer segments charts mock_output content.
    split; intros Hopen.
    2:{ unfold create_final_video, bind.
        rewrite check_ffmpeg_runs, Hmiss. cbn [negb]. unfold read.
        fold mock_output. fold w1. rewrite Hopen. reflexivity. }
    assert (Hrun : create_final_video env composer segments charts w
                   = (Ok (Some mock_output), w1,
                      [EvRun FfmpegVersion; EvWrite mock_output content])).
    { unfold create_final_video, bind.
      rewrite check_ffmpeg_runs, Hmiss. cbn [negb]. unfold read.
      fold mock_output. fold w1. rewrite Hopen. reflexivity. }
    split; [exact Hrun|].
    unfold events. rewrite Hrun. cbn [snd].
    exists mock_output, content. split; [right; left; reflexivity|].
    intros v Hv. unfold content.
    apply contains_app_r. apply contains_app_r.
    apply (contains_concat _ (manifest_line v)).
    + apply in_map. exact Hv.
    + apply manifest_line_names_clip.
  - intros self0 w0 self Hgen Hw.
    pose proof (run_eta (generate_avatar_videos env self0) w0) as Hrun.
    rewrite Hgen, Hw in Hrun.
    unfold run_full_pipeline, result, catch, bind.
    rewrite Hrun. cbn [negb]. rewrite (Hstage self). reflexivity.
Qed.

End Degraded.

(** No tool is installed.  The assembler called on its own, with an output
    file in the working directory, names the three clips in its placeholder;
    with the pipeline's output file it raises; the pipeline, run from the
    scripts of three segments without an API key, reports success. *)
Lemma missing_tools_give_placeholder_witness :
  let clips := [avatar_clip 1; avatar_clip 2; avatar_clip 3] in
  let composer := {| output_filename := "cricket_commentary_final.mp4" |} in
  let nested :=
    {| output_filename := "cricket_output/cricket_commentary_final.mp4" |} in
  let pipeline :=
    {| avatar_api_key := None; avatar_provider := "heygen";
       script_segments := [segment 1 "one"; segment 2 "two"; segment 3 "three"];
       charts := fun _ => None; avatar_videos := []; final_video := None |} in
  ffmpeg_missing offline 0%nat
  /\ result (create_final_video offline composer clips (fun _ => None)) 0%nat
     = Ok (Some "mock_cricket_commentary_final.mp4")
  /\ lists_inputs
       (events (create_final_video offline composer clips (fun _ => None)) 0%nat)
       clips
  /\ result (create_final_video offline nested clips (fun _ => None)) 0%nat
     = Raised
  /\ result (run_full_pipeline offline pipeline) 0%nat = Ok true.
Proof.
  intros clips composer nested pipeline.
  assert (Hmiss : ffmpeg_missing offline 0%nat) by reflexivity.
  split; [exact Hmiss|].
  destruct (@missing_tools_give_placeholder nat offline 0%nat Hmiss)
    as (Hfinal & _ & _).
  destruct (Hfinal composer clips (fun _ => None)) as (Hopen & _).
  destruct (Hopen eq_refl) as (Hrun & Hlists).
  destruct (Hfinal nested clips (fun _ => None)) as (_ & Hclosed).
  split; [unfold result; now rewrite Hrun|]. split; [exact Hlists|].
  split; [unfold result; now rewrite (Hclosed eq_refl)|].
  vm_compute. reflexivity.
Defined.

(** C8 as stated fails: in the pipeline, with no tool installed, the last
    stage succeeds and the one file it writes names none of the clips it
    was given. *)
Lemma pipeline_placeholder_names_no_clip :
  ~ degraded_stage_lists_inputs offline
      {| avatar_api_key := None; avatar_provider := "heygen";
         script_segments := [];
         charts := fun _ => None;
         avatar_videos := [avatar_clip 1; avatar_clip 2; avatar_clip 3];
         final_video := None |} 0%nat.
Proof.
  intros H. destruct H as (_ & path & content & Hin & Hall); [reflexivity|].
  specialize (Hall (avatar_clip 1) (or_introl eq_refl)).
  vm_compute in Hin.
  destruct Hin as [Hin|[Hin|[]]]; [discriminate|].
  inversion Hin; subst. vm_compute in Hall. discriminate.
Qed.

(** ** The assembler with the media tools *)

Section Assembly.

Context {W : Type} (env : Env W).

Lemma compose_segment_tools (seg : Video) (chart_path : option string) :
  emits_only (fun e => is_io e = true) (compose_segment env seg chart_path).
Proof.
  unfold compose_segment, add_fade_transition, create_image_video,
    create_picture_in_picture, run.
  emits; reflexivity.
Qed.

(** A segment gives its composed clip, its avatar clip or nothing. *)
Lemma compose_segment_result (seg : Video) (chart_path : option string) (w : W) :
  exists r,
    result (compose_segment env seg chart_path) w = Ok r
    /\ (r = None
        \/ r = Some (composed_path (vid_segment_id seg))
        \/ r = Some (vid_local_path seg)).
Proof.
  unfold compose_segment.
  destruct (negb (opt_truthy chart_path)).
  - rewrite result_bind.
    destruct (add_fade_transition_runs env (vid_local_path seg)
                (composed_path (vid_segment_id seg)) (1 # 2) (1 # 2) w)
      as (ok & -> & _).
    destruct ok; eexists; (split; [reflexivity|]); auto.
  - rewrite result_bind.
    destruct (create_image_video_runs env
                match chart_path with Some c => c | None => "" end
                (8 # 1) (chart_video_path (vid_segment_id seg)) w)
      as (c & ->).
    destruct c; cbn [negb];
      [|eexists; (split; [reflexivity|]); auto].
    rewrite result_bind.
    match goal with
    | |- context [result (create_picture_in_picture env ?a ?b ?c ?d) ?w1] =>
        destruct (create_picture_in_picture_runs env a b c d w1) as (p & ->)
    end.
    destruct p; [|eexists; (split; [reflexivity|]); auto].
    rewrite result_bind.
    match goal with
    | |- context [result (add_fade_transition env ?a ?b ?c ?d) ?w2] =>
        destruct (add_fade_transition_runs env a b c d w2) as (f & -> & _)
    end.
    destruct f; eexists; (split; [reflexivity|]); auto.
Qed.

Lemma compose_all_clips (charts : Charts) (segments : list Video) :
  forall acc w,
    exists clips,
      clips_of segments clips
      /\ result (compose_all env charts segments acc) w = Ok (acc ++ clips)%list.
Proof.
  induction segments as [|seg rest IH]; intros acc w.
  - exists []. split; [constructor|]. cbn. now rewrite app_nil_r.
  - cbn [compose_all]. rewrite result_bind.
    destruct (compose_segment_result seg
                (chart_mapping charts (vid_segment_id seg)) w)
      as (r & -> & Hr).
    set (w1 := world_after _ w). clearbody w1.
    destruct r as [p|]; cbn [opt_truthy].
    + destruct (str_truthy p) eqn:Hp.
      * destruct (IH (acc ++ [p])%list w1) as (clips & Hclips & ->).
        exists (p :: clips). rewrite <- app_assoc. split; [|reflexivity].
        destruct Hr as [Hr|[Hr|Hr]]; inversion Hr; subst;
          now constructor.
      * destruct (IH acc w1) as (clips & Hclips & ->).
        exists clips. split; [now constructor | reflexivity].
    + destruct (IH acc w1) as (clips & Hclips & ->).
      exists clips. split; [now constructor | reflexivity].
Qed.

Lemma compose_all_tools (charts : Charts) (segments : list Video) :
  forall acc,
    emits_only (fun e => is_io e = true) (compose_all env charts segments acc).
Proof.
  induction segments as [|seg rest IH]; intros acc; cbn [compose_all].
  - emits.
  - apply emits_bind; [apply compose_segment_tools | intros r; apply IH].
Qed.

Lemma concatenate_videos_runs (video_list : list string) (output_path : string)
    (w : W) :
  concatenate_videos env video_list output_path w
  = (Ok (returned_zero
           (fst (subprocess_run env (FfmpegConcat concat_file output_path) w))),
     snd (subprocess_run env (FfmpegConcat concat_file output_path) w),
     [EvWrite concat_file
        (String.concat "" (map (concat_line env) video_list));
      EvRun (FfmpegConcat concat_file output_path)]).
Proof.
  unfold concatenate_videos, bind, write_file, emit, run, call, ret.
  destruct (subprocess_run env (FfmpegConcat concat_file output_path) w).
  reflexivity.
Qed.

End Assembly.

(** ** Concrete runs *)

(** A job that stays in processing: 60 rounds, 60 sleeps of 5, and the job
    is still pending when the poller returns. *)
Lemma poll_loop_round_budget_witness :
  let job := heygen_job 3 "three" in
  let evs := events (poll_videos three_fates with_key [job]) 0%nat in
  result (poll_videos three_fates with_key [job]) 0%nat = Ok (60, [job], [])
  /\ rounds evs = 60%nat
  /\ total_sleep evs <= 60 * 5
  /\ length (sleeps evs) = rounds evs.
Proof.
  intros job evs.
  assert (Hr : result (poll_videos three_fates with_key [job]) 0%nat
               = Ok (60, [job], []))
    by (vm_compute; reflexivity).
  destruct (poll_loop_round_budget three_fates with_key [job] 0%nat)
    as (_ & _ & _ & Htotal & _ & Hout).
  destruct (Hout _ _ _ Hr) as (Hattempt & Hsleeps).
  split; [exact Hr|]. split; [|split; [exact Htotal | exact Hsleeps]].
  fold evs in Hattempt. lia.
Defined.

(** C4 as stated fails for the elapsed time: a job that stays in processing
    is asked about in each of the 60 rounds, and where every status call
    takes one time unit the clock has advanced by 360 when the poller
    returns, 300 of them slept. *)
Lemma polling_time_exceeds_time_slept :
  ~ polling_time_bounded three_fates with_key [heygen_job 3 "three"] 0%nat.
Proof.
  unfold polling_time_bounded. vm_compute. intros H. now apply H.
Qed.

(** A mock job listed after a live job is resolved after the status call
    and the download of the live one, in the same first round. *)
Example mock_job_resolved_in_list_order :
  let tasks := [heygen_job 1 "one"; mock_response 2 "four runs" 1700000000] in
  result (poll_videos three_fates with_key tasks) 0%nat
  = Ok (1, [],
        [completed_video (heygen_job 1 "one") "avatar_videos/segment_1.mp4";
         mock_video (mock_response 2 "four runs" 1700000000)])
  /\ filter is_round (events (poll_videos three_fates with_key tasks) 0%nat)
     = [EvRound 1].
Proof. split; vm_compute; reflexivity. Qed.

(** HeyGen answers 200 with an object that carries no id: nothing raises,
    and the job is a live one whose id is [None]. *)
Example reply_without_id_gives_live_job :
  let env := scripted (fun _ _ => reply 200 (JObj [])) (fun _ _ => None)
               (fun _ _ => None) no_tools in
  result (create_avatar_video_heygen env with_key "what a shot" 1) 0%nat
  = Ok {| task_provider := "heygen";
          task_video_id := JNull;
          task_status := "processing";
          task_segment_id := 1;
          task_video_url := None;
          task_duration := None |}.
Proof. reflexivity. Qed.

(** Three words, 0.4 time units each. *)
Example mock_duration_per_word :
  task_duration (mock_response 1 "what a  shot" 0)
  = Some (S754_finite false 5404319552844596 (-52)).
Proof. reflexivity. Qed.

(* ===================================================================== *)
(** * Further properties *)
(* ===================================================================== *)

(** ** Status calls and downloads *)


Section StatusAndDownload.

Context {W : Type} (env : Env W).


(** X2.  [check_video_status] raises in one case only: the job is a live one,
    there is an API key, and the [requests.get] to the provider raises. *)
Theorem status_call_raises_on_transport_error_only
    (self : AvatarVideoGenerator) (video_id : json)
    (provider_arg : option string) (w : W) :
  let p := effective_provider self provider_arg in
  result (check_video_status env self video_id provider_arg) w = Raised
  <-> opt_truthy (api_key self) = true
      /\ ((p = "heygen"
           /\ fst (requests_get env heygen_status video_id w) = None)
          \/ (p = "d-id"
              /\ fst (requests_get env (did_status ++ py_str env video_id)
                        video_id w) = None)).
Proof.
  intros p. unfold check_video_status.
  fold (effective_provider self provider_arg). fold p.
  destruct (String.eqb p "mock") eqn:Hm.
  { apply String.eqb_eq in Hm. split; [discriminate|].
    intros (_ & [[E _]|[E _]]); rewrite Hm in E; discriminate. }
  destruct (opt_truthy (api_key self)); cbn [negb].
  2:{ split; [discriminate | intros (E & _); discriminate]. }
  destruct (String.eqb p "heygen") eqn:Hh.
  { apply String.eqb_eq in Hh.
    unfold result, bind, get, call.
    destruct (requests_get env heygen_status video_id w) as [[r|] w1]; cbn.
    - split; [discriminate|].
      intros (_ & [[_ E]|[E _]]); [discriminate|].
      rewrite Hh in E. discriminate.
    - split; [|reflexivity]. intros _. split; [reflexivity|]. left. auto. }
  destruct (String.eqb p "d-id") eqn:Hd.
  { apply String.eqb_eq in Hd.
    unfold result, bind, get, call.
    destruct (requests_get env (did_status ++ py_str env video_id) video_id w)
      as [[r|] w1]; cbn.
    - split; [discriminate|].
      intros (_ & [[E _]|[_ E]]); [|discriminate].
      rewrite Hd in E. discriminate.
    - split; [|reflexivity]. intros _. split; [reflexivity|]. right. auto. }
  split; [discriminate|].
  intros (_ & [[E _]|[E _]]).
  - rewrite E in Hh. discriminate.
  - rewrite E in Hd. discriminate.
Qed.

(** X3.  A status reply that cannot be used (HTTP 4xx or 5xx, a body that is not
    JSON, a body that is not an object) does not raise: the status call
    returns status "error" with no locator, which is terminal for the
    poller. *)
Theorem unusable_status_reply_is_error
    (self : AvatarVideoGenerator) (video_id : json) (p : string)
    (r : Response) (w w1 : W) :
  opt_truthy (api_key self) = true ->
  (p = "heygen" /\ requests_get env heygen_status video_id w = (Some r, w1))
  \/ (p = "d-id"
      /\ requests_get env (did_status ++ py_str env video_id) video_id w
         = (Some r, w1)) ->
  400 <= status_code r < 600
  \/ body r = None
  \/ (exists j, body r = Some j /\ is_dict j = false) ->
  result (check_video_status env self video_id (Some p)) w = Ok error_status
  /\ world_after (check_video_status env self video_id (Some p)) w = w1
  /\ terminal error_status = true
  /\ completed_with_locator error_status = false.
Proof.
  intros Hkey Hget Hbad.
  assert (Hread : read_status p (Some r) = error_status).
  { unfold read_status.
    destruct Hbad as [Hc|[Hb|(j & Hb & Hj)]].
    - replace (raises_for_status r) with true; [reflexivity|].
      symmetry. unfold raises_for_status. apply andb_true_iff.
      split; [apply Z.leb_le | apply Z.ltb_lt]; lia.
    - destruct (raises_for_status r); [reflexivity|]. now rewrite Hb.
    - destruct (raises_for_status r); [reflexivity|]. rewrite Hb.
      destruct j; try discriminate;
        destruct (String.eqb p "heygen"); try reflexivity;
        destruct (String.eqb p "d-id"); reflexivity. }
  assert (Hrun : check_video_status env self video_id (Some p) w
                 = (Ok error_status, w1, [EvGet (if String.eqb p "heygen"
                                                 then heygen_status
                                                 else did_status ++ py_str env video_id)%string
                                            video_id])).
  { unfold check_video_status.
    destruct Hget as [[-> Hg]|[-> Hg]]; cbv beta zeta;
      change (opt_truthy (Some "heygen")) with true;
      change (opt_truthy (Some "d-id")) with true; cbv iota;
      change (String.eqb "heygen" "mock") with false;
      change (String.eqb "d-id" "mock") with false;
      change (String.eqb "heygen" "heygen") with true;
      change (String.eqb "d-id" "heygen") with false;
      change (String.eqb "d-id" "d-id") with true;
      cbv iota; rewrite Hkey; cbn [negb];
      unfold bind, get, call; rewrite Hg; unfold ret;
      rewrite Hread; reflexivity. }
  unfold result, world_after. rewrite Hrun. auto.
Qed.


End StatusAndDownload.


Lemma unusable_status_reply_is_error_witness :
  let r := {| status_code := 500; body := None |} in
  opt_truthy (api_key with_key) = true
  /\ requests_get three_fates heygen_status (JStr "two") 0%nat = (Some r, 1%nat)
  /\ 400 <= status_code r < 600
  /\ result (check_video_status three_fates with_key (JStr "two") (Some "heygen"))
       0%nat = Ok error_status.
Proof.
  intros r.
  assert (Hkey : opt_truthy (api_key with_key) = true) by reflexivity.
  assert (Hget : requests_get three_fates heygen_status (JStr "two") 0%nat
                 = (Some r, 1%nat)) by reflexivity.
  assert (Hcode : 400 <= status_code r < 600) by (simpl; lia).
  split; [exact Hkey|]. split; [exact Hget|]. split; [exact Hcode|].
  apply (@unusable_status_reply_is_error nat three_fates with_key (JStr "two")
           "heygen" r 0%nat 1%nat Hkey).
  - left. split; [reflexivity | exact Hget].
  - left. exact Hcode.
Defined.

(** ** The poller: what can raise, and what a run that settles nothing does *)

Lemma occurrences_cons (x y : Task) (l : list Task) :
  occurrences x (y :: l)
  = ((if task_eqb y x then 1 else 0) + occurrences x l)%nat.
Proof. unfold occurrences. simpl. destruct (task_eqb y x); reflexivity. Qed.

Lemma list_remove_absent (t : Task) (l : list Task) :
  list_remove task_eqb t l = None -> occurrences t l = 0%nat.
Proof.
  induction l as [|y l IH]; intros H; [reflexivity|].
  rewrite occurrences_cons. simpl in H.
  destruct (task_eqb y t); [discriminate|].
  destruct (list_remove task_eqb t l); [discriminate|]. now rewrite IH.
Qed.

Lemma list_remove_occurrences (t : Task) (l l' : list Task) :
  list_remove task_eqb t l = Some l' ->
  forall x, occurrences x l
            = ((if task_eqb t x then 1 else 0) + occurrences x l')%nat.
Proof.
  revert l'. induction l as [|y l IH]; intros l' H x; [discriminate|].
  simpl in H. destruct (task_eqb y t) eqn:E.
  - apply task_eqb_eq in E. subst y. injection H as <-.
    apply occurrences_cons.
  - destruct (list_remove task_eqb t l) as [r|] eqn:Hr; [|discriminate].
    injection H as <-. rewrite !occurrences_cons, (IH r eq_refl x). lia.
Qed.

(** A round that is cut short by an exception: as long as every job still to
    visit is in [pending] at least as often as in the snapshot, the exception
    comes from the pass over one job, never from [pending_tasks.remove]. *)
Lemma round_run_raised (rest pending : list Task) (completed : list Video)
    (evs : list Event) (out : option (list Task * list Video)) :
  round_run rest pending completed evs out ->
  out = None ->
  (forall x, (occurrences x rest <= occurrences x pending)%nat) ->
  exists pre t evs', evs = (pre ++ evs')%list /\ task_polled t evs' None.
Proof.
  induction 1 as [pending completed
                 |t rest pending completed evs Ht
                 |t rest pending completed evs evs' out Ht Hr IH
                 |t rest pending pending' completed v evs evs' out Ht Hv Hrm Hr IH
                 |t rest pending completed v evs Ht Hv Hrm];
    intros Hout Hocc.
  - discriminate.
  - exists [], t, evs. auto.
  - destruct IH as (pre & t' & evs0 & -> & Hp); [exact Hout| |].
    + intros x. specialize (Hocc x). rewrite occurrences_cons in Hocc. lia.
    + exists (evs ++ pre)%list, t', evs0. now rewrite app_assoc.
  - destruct IH as (pre & t' & evs0 & -> & Hp); [exact Hout| |].
    + intros x. specialize (Hocc x).
      rewrite occurrences_cons, (list_remove_occurrences _ _ Hrm x) in Hocc. lia.
    + exists (evs ++ pre)%list, t', evs0. now rewrite app_assoc.
  - exfalso. specialize (Hocc t).
    rewrite occurrences_cons, task_eqb_refl, (list_remove_absent _ _ Hrm) in Hocc.
    lia.
Qed.

Lemma loop_run_raised (budget : nat) (attempt : Z) (pending : list Task)
    (completed : list Video) (evs : list Event)
    (out : option (Z * list Task * list Video)) :
  loop_run budget attempt pending completed evs out ->
  out = None ->
  exists pre t evs', evs = (pre ++ evs')%list /\ task_polled t evs' None.
Proof.
  induction 1 as [attempt pending completed
                 |budget attempt completed
                 |budget attempt pending completed evs Hne Hr
                 |budget attempt pending completed completed' evs Hne Hr
                 |budget attempt pending pending' completed completed' evs evs'
                    out Hne Hr Hne' Hl IH];
    intros Hout; try discriminate.
  - destruct (round_run_raised Hr eq_refl) as (pre & t & evs0 & -> & Hp);
      [intros x; lia|].
    exists (EvRound (attempt + 1) :: pre), t, evs0. auto.
  - destruct (IH Hout) as (pre & t & evs0 & -> & Hp).
    exists (EvRound (attempt + 1) :: evs ++ EvSleep 5 :: pre)%list, t, evs0.
    split; [|exact Hp]. cbn [app]. now rewrite <- app_assoc.
Qed.

Section PollerRuns.

Context {W : Type} (env : Env W).

(** X5.  The poller raises only out of a status call or a download: when
    [poll_videos] raises, its trace ends with the pass over one job that was
    cut short there.  In particular [pending_tasks.remove(task)] never
    raises, whatever the list holds, equal jobs included. *)
Theorem poller_raises_only_in_a_provider_call
    (self : AvatarVideoGenerator) (tasks : list Task) (w : W) :
  result (poll_videos env self tasks) w = Raised ->
  exists pre t last,
    events (poll_videos env self tasks) w = (pre ++ last)%list
    /\ task_polled t last None
    /\ is_mock t = false
    /\ exists rest, last = EvQuery t :: rest
                    /\ Forall (fun e => is_io e = true
                                        \/ (exists info, e = EvStatus t info)
                                        \/ (exists url, e = EvFetch t url)) rest.
Proof.
  intros Hr. pose proof (poll_videos_sound env self tasks w) as Hl.
  rewrite Hr in Hl. cbn [outcome] in Hl.
  destruct (loop_run_raised Hl eq_refl) as (pre & t & last & E & Hp).
  exists pre, t, last. split; [exact E|]. split; [exact Hp|].
  remember (@None Verdict) as v eqn:Hv.
  destruct Hp as [Hm|nevs Hm Hn|nevs info Hm Hn Ht|nevs info Hm Hn Hc He
                 |nevs fevs info Hm Hn Hf Hc|nevs fevs info r Hm Hn Hf Hc];
    try discriminate.
  - split; [exact Hm|]. exists nevs. split; [reflexivity|].
    eapply Forall_impl; [|exact Hn]. intros e He. now left.
  - split; [exact Hm|]. eexists. split; [reflexivity|].
    apply Forall_app. split.
    + eapply Forall_impl; [|exact Hn]. intros e He. now left.
    + constructor; [right; left; eauto|].
      constructor; [right; right; eauto|].
      eapply Forall_impl; [|exact Hf]. intros e He. now left.
Qed.

End PollerRuns.

Lemma length_concat_repeat {A : Type} (l : list A) (n : nat) :
  length (concat (repeat l n)) = (n * length l)%nat.
Proof.
  induction n as [|n IH]; [reflexivity|].
  cbn [repeat concat]. rewrite length_app, IH. reflexivity.
Qed.

Section PollerStalls.

Context {W : Type} (env : Env W).

Lemma poll_round_never_settles (self : AvatarVideoGenerator) (tasks : list Task) :
  never_settles env self tasks ->
  forall rest pending completed w r w' evs,
    incl rest tasks ->
    poll_round env self rest pending completed w = (r, w', evs) ->
    r = Ok (pending, completed)
    /\ queried evs = rest /\ fetched evs = [] /\ settled evs = [].
Proof.
  intros Hnever.
  induction rest as [|t rest IH]; intros pending completed w r w' evs Hincl H.
  - inversion H; subst. auto.
  - destruct (Hnever t w (Hincl t (or_introl eq_refl)))
      as (Hm & info & w1 & nevs & Hst & Hio & Ht).
    destruct (terminal_false _ Ht) as [Hc He].
    simpl poll_round in H. fold (is_mock t) in H. rewrite Hm in H.
    step_emit H as evs1.
    step H as info' w1' nevs' evs2 Hst'; rewrite Hst in Hst';
      [|discriminate].
    injection Hst' as <- <- <-.
    step_emit H as evs3.
    fold (completed_with_locator info) in H. rewrite Hc, He in H.
    apply IH in H; [|intros x Hx; apply Hincl; now right].
    destruct H as (-> & Hq & Hf & Hs).
    split; [reflexivity|].
    split; [read_pass queried query_of_io; fold (queried evs3); now rewrite Hq|].
    split; [read_pass fetched fetch_of_io; exact Hf|].
    read_pass settled settled_of_io. rewrite Ht. exact Hs.
Qed.

Lemma poll_loop_never_settles (self : AvatarVideoGenerator) (tasks : list Task) :
  never_settles env self tasks ->
  nonempty tasks = true ->
  forall budget attempt completed w r w' evs,
    poll_loop env self budget attempt tasks completed w = (r, w', evs) ->
    r = Ok (attempt + Z.of_nat budget, tasks, completed)
    /\ rounds evs = budget
    /\ sleeps evs = repeat 5 budget
    /\ queried evs = concat (repeat tasks budget)
    /\ fetched evs = []
    /\ settled evs = [].
Proof.
  intros Hnever Hne.
  induction budget as [|budget IH]; intros attempt completed w r w' evs H.
  - inversion H; subst. rewrite Z.add_0_r. auto 6.
  - simpl poll_loop in H. rewrite Hne in H.
    step_emit H as evs1.
    step H as pc w1 revs evs2 Hround.
    2:{ apply (poll_round_never_settles Hnever) in Hround;
          [|apply incl_refl].
        destruct Hround as [Hround _]. discriminate. }
    pose proof (poll_round_sound _ _ _ _ _ _ Hround) as Hrun.
    apply (poll_round_never_settles Hnever) in Hround; [|apply incl_refl].
    destruct Hround as (Hpc & Hq & Hf & Hs). injection Hpc as ->.
    rewrite Hne in H.
    step H as u w2 sevs evs3 Hsleep; [|discriminate].
    revert Hq. inversion Hsleep; subst. intros Hq.
    apply IH in H. destruct H as (-> & Hr' & Hsl' & Hq' & Hf' & Hs').
    split; [f_equal; f_equal; f_equal; lia|].
    split.
    { change (EvRound (attempt + 1) :: revs ++ [EvSleep 5] ++ evs3)%list
        with ([EvRound (attempt + 1)] ++ revs ++ [EvSleep 5] ++ evs3)%list.
      rewrite !rounds_app, (round_run_no_round Hrun), Hr'. reflexivity. }
    split.
    { change (EvRound (attempt + 1) :: revs ++ [EvSleep 5] ++ evs3)%list
        with ([EvRound (attempt + 1)] ++ revs ++ [EvSleep 5] ++ evs3)%list.
      rewrite !sleeps_app, (round_run_no_sleep Hrun), Hsl'. reflexivity. }
    split.
    { change (EvRound (attempt + 1) :: revs ++ [EvSleep 5] ++ evs3)%list
        with ([EvRound (attempt + 1)] ++ revs ++ [EvSleep 5] ++ evs3)%list.
      rewrite !queried_app, Hq, Hq'. reflexivity. }
    split.
    { change (EvRound (attempt + 1) :: revs ++ [EvSleep 5] ++ evs3)%list
        with ([EvRound (attempt + 1)] ++ revs ++ [EvSleep 5] ++ evs3)%list.
      rewrite !fetched_app, Hf, Hf'. reflexivity. }
    change (EvRound (attempt + 1) :: revs ++ [EvSleep 5] ++ evs3)%list
      with ([EvRound (attempt + 1)] ++ revs ++ [EvSleep 5] ++ evs3)%list.
    rewrite !settled_app, Hs, Hs'. reflexivity.
Qed.

(** X6.  When no job of a non-empty list ever gets a terminal status (say the
    provider keeps answering "processing", or answers "failed"), the poller
    uses up its whole budget: 60 rounds with a delay of 5 after each, 300 in
    all, one status call per job and round, no download, and every job is
    still pending at the end while the returned list is empty. *)
Theorem stalled_jobs_use_the_whole_budget
    (self : AvatarVideoGenerator) (tasks : list Task) (w : W) :
  never_settles env self tasks ->
  nonempty tasks = true ->
  let evs := events (poll_videos env self tasks) w in
  result (poll_videos env self tasks) w = Ok (60, tasks, [])
  /\ rounds evs = 60%nat
  /\ sleeps evs = repeat 5 60
  /\ total_sleep evs = 300
  /\ queried evs = concat (repeat tasks 60)
  /\ length (queried evs) = (60 * length tasks)%nat
  /\ fetched evs = []
  /\ settled evs = [].
Proof.
  intros Hnever Hne evs.
  destruct (@poll_loop_never_settles self tasks Hnever Hne max_attempts 0 []
              w _ _ _ (run_eta (poll_videos env self tasks) w))
    as (Hr & Hrounds & Hsl & Hq & Hf & Hs).
  fold evs in Hrounds, Hsl, Hq, Hf, Hs.
  split; [exact Hr|]. split; [exact Hrounds|]. split; [exact Hsl|].
  split; [unfold total_sleep; rewrite Hsl; reflexivity|].
  split; [exact Hq|].
  split; [rewrite Hq; apply length_concat_repeat|].
  split; assumption.
Qed.

End PollerStalls.

Lemma always_failed_never_settles :
  never_settles always_failed with_key [heygen_job 1 "one"; heygen_job 2 "two"].
Proof.
  intros t w [<-|[<-|[]]]; (split; [reflexivity|]);
    exists {| st_status := JStr "failed"; st_video_url := JNull |}, (S w);
    eexists; (split; [reflexivity|]); split;
    [repeat constructor | reflexivity | repeat constructor | reflexivity].
Qed.

Lemma stalled_jobs_use_the_whole_budget_witness :
  let tasks := [heygen_job 1 "one"; heygen_job 2 "two"] in
  let evs := events (poll_videos always_failed with_key tasks) 0%nat in
  never_settles always_failed with_key tasks
  /\ result (poll_videos always_failed with_key tasks) 0%nat = Ok (60, tasks, [])
  /\ rounds evs = 60%nat
  /\ total_sleep evs = 300
  /\ length (queried evs) = 120%nat.
Proof.
  intros tasks evs.
  destruct (@stalled_jobs_use_the_whole_budget nat always_failed with_key tasks
              0%nat always_failed_never_settles eq_refl)
    as (Hr & Hrounds & _ & Htotal & _ & Hlen & _).
  split; [exact always_failed_never_settles|].
  split; [exact Hr|]. split; [exact Hrounds|]. split; [exact Htotal|].
  exact Hlen.
Defined.

Lemma poller_raises_only_in_a_provider_call_witness :
  let tasks := [heygen_job 1 "one"; heygen_job 1 "one"] in
  result (poll_videos status_unreachable with_key tasks) 0%nat = Raised
  /\ exists pre t last,
       events (poll_videos status_unreachable with_key tasks) 0%nat
       = (pre ++ last)%list
       /\ task_polled t last None.
Proof.
  intros tasks.
  assert (Hr : result (poll_videos status_unreachable with_key tasks) 0%nat
               = Raised) by (vm_compute; reflexivity).
  split; [exact Hr|].
  destruct (@poller_raises_only_in_a_provider_call nat status_unreachable
              with_key tasks 0%nat Hr) as (pre & t & last & E & Hp & _).
  exists pre, t, last. split; assumption.
Defined.

(** ** Submission: one job per segment, at most one request each *)

Section Submission.

Context {W : Type} (env : Env W).

Lemma mock_response_run (segment_id : Z) (script : string) (w : W) :
  _create_mock_response env segment_id script w
  = (Ok (mock_response segment_id script (time_time env w)), w, []).
Proof. reflexivity. Qed.

Lemma create_task_run (self : AvatarVideoGenerator) (seg : Segment) (w : W) :
  exists t w1 evs,
    create_task env self seg w = (Ok t, w1, evs)
    /\ task_segment_id t = seg_id seg
    /\ made_by self t
    /\ (submits self = false -> is_mock t = true)
    /\ evs = (if submits self
              then [EvPost (create_endpoint self) (seg_script seg)] else []).
Proof.
  unfold create_task, submits, create_endpoint.
  unfold create_avatar_video_heygen, create_avatar_video_did.
  destruct (String.eqb (provider self) "heygen") eqn:Hh.
  - apply String.eqb_eq in Hh.
    destruct (opt_truthy (api_key self)) eqn:Hk; cbn [negb andb orb].
    + unfold bind, post, call.
      destruct (requests_post env heygen_create (seg_script seg) w) as [r w1].
      destruct (heygen_created_id r) as [video_id|].
      * unfold ret. do 3 eexists. split; [reflexivity|].
        split; [reflexivity|]. split; [|split; [discriminate | reflexivity]].
        right. cbn. auto.
      * rewrite mock_response_run. do 3 eexists. split; [reflexivity|].
        split; [reflexivity|]. split; [|split; [discriminate | reflexivity]].
        left. split; reflexivity.
    + rewrite mock_response_run. do 3 eexists. split; [reflexivity|].
      split; [reflexivity|]. split; [|split; reflexivity].
      left. split; reflexivity.
  - destruct (String.eqb (provider self) "d-id") eqn:Hd.
    + apply String.eqb_eq in Hd.
      destruct (opt_truthy (api_key self)) eqn:Hk; cbn [negb andb orb].
      * unfold bind, post, call.
        destruct (requests_post env did_create (seg_script seg) w) as [r w1].
        destruct (did_created_id r) as [video_id|].
        -- unfold ret. do 3 eexists. split; [reflexivity|].
           split; [reflexivity|]. split; [|split; [discriminate | reflexivity]].
           right. cbn. auto.
        -- rewrite mock_response_run. do 3 eexists. split; [reflexivity|].
           split; [reflexivity|]. split; [|split; [discriminate | reflexivity]].
           left. split; reflexivity.
      * rewrite mock_response_run. do 3 eexists. split; [reflexivity|].
        split; [reflexivity|]. split; [|split; reflexivity].
        left. split; reflexivity.
    + rewrite mock_response_run, andb_false_r. do 3 eexists.
      split; [reflexivity|]. split; [reflexivity|].
      split; [|split; reflexivity]. left. split; reflexivity.
Qed.

Lemma create_tasks_run (self : AvatarVideoGenerator) (segments : list Segment) :
  forall acc w,
    exists tasks w1 evs,
      create_tasks env self segments acc w = (Ok (acc ++ tasks)%list, w1, evs)
      /\ map task_segment_id tasks = map seg_id segments
      /\ Forall (made_by self) tasks
      /\ (submits self = false -> Forall (fun t => is_mock t = true) tasks)
      /\ evs = flat_map
                 (fun seg =>
                    (if submits self
                     then [EvPost (create_endpoint self) (seg_script seg)]
                     else []) ++ [EvSleep 1])%list
                 segments.
Proof.
  induction segments as [|seg segments IH]; intros acc w.
  - exists [], w, []. rewrite app_nil_r. repeat split; constructor.
  - destruct (create_task_run self seg w)
      as (t & w1 & evs1 & Ht & Hid & Hmade & Hmock & Hevs).
    destruct (IH (acc ++ [t])%list (time_sleep env 1 w1))
      as (tasks & w2 & evs2 & Hrest & Hids & Hmades & Hmocks & Hevs2).
    exists (t :: tasks), w2, (evs1 ++ [EvSleep 1] ++ evs2)%list.
    split.
    { cbn [create_tasks]. unfold bind at 1. rewrite Ht.
      unfold bind at 1, sleep, call. rewrite Hrest.
      rewrite <- app_assoc. reflexivity. }
    split; [cbn [map]; now rewrite Hid, Hids|].
    split; [now constructor|].
    split; [intros Hs; constructor; auto|].
    cbn [flat_map]. rewrite Hevs, Hevs2, <- !app_assoc. reflexivity.
Qed.

Lemma submission_requests (self : AvatarVideoGenerator)
    (segments : list Segment) :
  filter is_remote
    (flat_map
       (fun seg =>
          (if submits self
           then [EvPost (create_endpoint self) (seg_script seg)]
           else []) ++ [EvSleep 1])%list
       segments)
  = (if submits self
     then map (fun seg => EvPost (create_endpoint self) (seg_script seg)) segments
     else []).
Proof.
  induction segments as [|seg segments IH].
  - now destruct (submits self).
  - cbn [flat_map]. rewrite !filter_app, IH.
    destruct (submits self); reflexivity.
Qed.

Lemma create_tasks_submitted (self : AvatarVideoGenerator)
    (segments : list Segment) :
  forall acc w,
    exists tasks w',
      create_tasks env self segments acc w
      = (Ok (acc ++ tasks)%list, w',
         flat_map
           (fun seg =>
              (if submits self
               then [EvPost (create_endpoint self) (seg_script seg)]
               else []) ++ [EvSleep 1])%list
           segments)
      /\ submitted env self segments w tasks
           (flat_map
              (fun seg =>
                 (if submits self
                  then [EvPost (create_endpoint self) (seg_script seg)]
                  else []) ++ [EvSleep 1])%list
              segments) w'.
Proof.
  induction segments as [|seg segments IH]; intros acc w.
  - exists [], w. rewrite app_nil_r. split; [reflexivity | constructor].
  - destruct (create_task_run self seg w)
      as (t & w1 & evs1 & Ht & _ & _ & _ & Hevs).
    destruct (IH (acc ++ [t])%list (time_sleep env 1 w1))
      as (tasks & w2 & Hrest & Hsub).
    exists (t :: tasks), w2. split.
    + cbn [create_tasks flat_map]. unfold bind at 1. rewrite Ht.
      unfold bind at 1, sleep, call. rewrite Hrest, Hevs.
      rewrite <- !app_assoc. reflexivity.
    + cbn [flat_map]. rewrite <- app_assoc.
      apply submitted_next with (w1 := w1); [rewrite <- Hevs; exact Ht|].
      exact Hsub.
Qed.

(** C7, as the code has it: the delay of 1 time unit follows every
    submission, whatever the provider of the resulting job, degraded
    submissions and the last one included.  Each segment is submitted from
    the world as it is, with no delay before the first; then comes the
    delay, and the next segment is submitted only from the world the delay
    leaves.  The trace is, segment by segment, the request (if the generator
    sends one) and then the delay, so a run over [n] segments yields [n]
    jobs, sleeps [n] times 1 and, when [n] is not 0, ends with a delay. *)
Theorem pacing_delay_after_every_submission
    (self : AvatarVideoGenerator) (segments : list Segment) (w : W) :
  let evs := events (create_tasks env self segments []) w in
  exists tasks,
    result (create_tasks env self segments []) w = Ok tasks
    /\ length tasks = length segments
    /\ sleeps evs = repeat 1 (length segments)
    /\ submitted env self segments w tasks evs
         (world_after (create_tasks env self segments []) w)
    /\ evs = flat_map
               (fun seg =>
                  (if submits self
                   then [EvPost (create_endpoint self) (seg_script seg)]
                   else []) ++ [EvSleep 1])%list
               segments
    /\ (segments <> [] -> exists before, evs = (before ++ [EvSleep 1])%list).
Proof.
  intros evs.
  destruct (create_tasks_submitted self segments [] w)
    as (tasks & w' & Hrun & Hsub).
  exists tasks. unfold evs, result, events, world_after. rewrite Hrun.
  cbn [fst snd app].
  split; [reflexivity|].
  split.
  { clear - Hsub. induction Hsub; [reflexivity|]. cbn [length]. now f_equal. }
  split.
  { clear. induction segments as [|seg segments IH]; [reflexivity|].
    cbn [flat_map length repeat]. rewrite !sleeps_app, IH.
    destruct (submits self); reflexivity. }
  split; [exact Hsub|]. split; [reflexivity|].
  clear. intros Hne.
  induction segments as [|seg segments IH]; [now destruct Hne|].
  cbn [flat_map]. destruct segments as [|seg' segments].
  - cbn [flat_map]. rewrite app_nil_r. eexists. reflexivity.
  - destruct IH as [before Hb]; [discriminate|].
    rewrite Hb. eexists. rewrite !app_assoc. reflexivity.
Qed.

(** X7.  Part 1 of [generate_commentary_videos] never raises and makes one job
    per segment, in segment order, with the segment's id.  Each job is either
    a mock one, already "completed", or a "processing" job of the generator's
    own provider.  A generator with an API key and provider "heygen" or
    "d-id" sends exactly one request per segment, a failed request is not
    sent again; any other generator sends none and makes mock jobs only. *)
Theorem one_job_and_one_request_per_segment
    (self : AvatarVideoGenerator) (segments : list Segment) (w : W) :
  let evs := events (create_tasks env self segments []) w in
  exists tasks,
    result (create_tasks env self segments []) w = Ok tasks
    /\ map task_segment_id tasks = map seg_id segments
    /\ Forall (made_by self) tasks
    /\ filter is_remote evs
       = (if submits self
          then map (fun seg => EvPost (create_endpoint self) (seg_script seg))
                 segments
          else [])
    /\ (submits self = false -> Forall (fun t => is_mock t = true) tasks).
Proof.
  intros evs.
  destruct (create_tasks_run self segments [] w)
    as (tasks & w1 & evs' & Hrun & Hids & Hmade & Hmock & Hevs).
  exists tasks. unfold evs, result, events. rewrite Hrun. cbn [fst snd app].
  split; [reflexivity|]. split; [exact Hids|]. split; [exact Hmade|].
  split; [|exact Hmock].
  rewrite Hevs. apply submission_requests.
Qed.

End Submission.

(** ** A run that reaches no provider *)

Section LocalRuns.

Context {W : Type} (env : Env W).

Lemma poll_videos_all_mock (self : AvatarVideoGenerator) (tasks : list Task)
    (w : W) :
  Forall (fun t => is_mock t = true) tasks ->
  poll_videos env self tasks w
  = (Ok ((if nonempty tasks then 1 else 0), [], map mock_video tasks), w,
     if nonempty tasks then EvRound 1 :: map mock_write tasks else []).
Proof.
  intros Hall. unfold poll_videos. destruct tasks as [|t tasks]; [reflexivity|].
  change max_attempts with (S 59).
  remember (t :: tasks) as l eqn:Hl.
  assert (Hne : nonempty l = true) by (subst l; reflexivity).
  clear Hl. simpl poll_loop. rewrite Hne.
  unfold bind at 1, emit. unfold bind at 1.
  rewrite (poll_round_all_mock env self [] w Hall). simpl.
  now rewrite app_nil_r.
Qed.

Lemma mock_video_well_formed (t : Task) : well_formed_video (mock_video t).
Proof. split; reflexivity. Qed.

Lemma generate_commentary_videos_local (self : AvatarVideoGenerator)
    (segments : list Segment) (w : W) :
  submits self = false ->
  exists tasks w1,
    map task_segment_id tasks = map seg_id segments
    /\ generate_commentary_videos env self segments w
       = (Ok (map mock_video tasks), w1,
          (repeat (EvSleep 1) (length segments)
           ++ if nonempty segments
              then EvRound 1 :: map segment_placeholder segments
              else [])%list).
Proof.
  intros Hs.
  destruct (create_tasks_run env self segments [] w)
    as (tasks & w1 & evs1 & Hrun & Hids & _ & Hmock & Hevs).
  specialize (Hmock Hs). rewrite Hs in Hevs. cbn [app] in Hrun, Hevs.
  assert (Hevs1 : evs1 = repeat (EvSleep 1) (length segments)).
  { rewrite Hevs. clear. induction segments as [|s l IH]; [reflexivity|].
    cbn [flat_map length repeat app]. now rewrite IH. }
  assert (Hne : nonempty tasks = nonempty segments).
  { destruct tasks, segments; try reflexivity; discriminate. }
  assert (Hwrites : map mock_write tasks = map segment_placeholder segments).
  { clear - Hids. revert segments Hids.
    induction tasks as [|t tasks IH]; intros [|s segments] Hids;
      try discriminate; [reflexivity|].
    cbn [map] in Hids. injection Hids as Hid Hids.
    cbn [map]. rewrite (IH _ Hids). f_equal.
    unfold mock_write, segment_placeholder, segment_video_path, segment_file.
    now rewrite Hid. }
  exists tasks, w1. split; [exact Hids|].
  unfold generate_commentary_videos. unfold bind at 1. rewrite Hrun.
  unfold bind at 1. rewrite (poll_videos_all_mock self w1 Hmock).
  cbn. now rewrite app_nil_r, Hevs1, Hne, Hwrites.
Qed.

(** X8.  A generator that submits nothing (no API key, or a provider that is
    neither "heygen" nor "d-id") still gives one entry per segment:
    [generate_commentary_videos] returns the segments' videos in segment
    order, each "completed" with its path avatar_videos/segment_<id>.mp4,
    after one placeholder file per segment written in a single round, a
    delay of 1 per segment, and no request at all. *)
Theorem run_without_provider_is_local
    (self : AvatarVideoGenerator) (segments : list Segment) (w : W) :
  submits self = false ->
  let evs := events (generate_commentary_videos env self segments) w in
  exists videos,
    result (generate_commentary_videos env self segments) w = Ok videos
    /\ map vid_segment_id videos = map seg_id segments
    /\ Forall well_formed_video videos
    /\ filter is_remote evs = []
    /\ filter is_write evs = map segment_placeholder segments
    /\ sleeps evs = repeat 1 (length segments)
    /\ rounds evs = (if nonempty segments then 1 else 0)%nat.
Proof.
  intros Hs evs.
  destruct (generate_commentary_videos_local self segments w Hs)
    as (tasks & w1 & Hids & Hgen).
  exists (map mock_video tasks).
  unfold evs, result, events. rewrite Hgen. cbn [fst snd].
  split; [reflexivity|].
  split; [rewrite map_map; exact Hids|].
  split; [apply Forall_map, Forall_forall; intros t _;
          apply mock_video_well_formed|].
  assert (Hq1 : forall n, filter is_remote (repeat (EvSleep 1) n) = [])
    by (induction n; auto).
  assert (Hq2 : forall n, filter is_write (repeat (EvSleep 1) n) = [])
    by (induction n; auto).
  assert (Hq3 : forall n, sleeps (repeat (EvSleep 1) n) = repeat 1 n)
    by (induction n as [|n IHn]; [reflexivity | cbn; unfold sleeps in IHn;
                                                 now rewrite IHn]).
  assert (Hq4 : forall n, rounds (repeat (EvSleep 1) n) = 0%nat)
    by (induction n; auto).
  assert (Hp1 : forall l, filter is_remote (map segment_placeholder l) = [])
    by (induction l; auto).
  assert (Hp2 : forall l, filter is_write (map segment_placeholder l)
                          = map segment_placeholder l)
    by (induction l as [|a l IHl]; [reflexivity | cbn; now rewrite IHl]).
  assert (Hp3 : forall l, sleeps (map segment_placeholder l) = [])
    by (induction l; auto).
  assert (Hp4 : forall l, filter is_round (map segment_placeholder l) = [])
    by (induction l; auto).
  rewrite !filter_app, sleeps_app, rounds_app, Hq1, Hq2, Hq3, Hq4.
  destruct (nonempty segments) eqn:E.
  - cbn [filter is_remote is_write app]. unfold sleeps, rounds.
    cbn [flat_map filter is_round sleep_of app].
    fold (sleeps (map segment_placeholder segments)).
    rewrite Hp1, Hp2, Hp3, Hp4, app_nil_r. auto 6.
  - destruct segments; [|discriminate]. cbn. auto 6.
Qed.

End LocalRuns.

Lemma run_without_provider_is_local_witness :
  let self := {| provider := "d-id"; api_key := Some "" |} in
  let segments := [segment 1 "one"; segment 2 "two"; segment 3 "three"] in
  submits self = false
  /\ exists videos,
       result (generate_commentary_videos three_fates self segments) 0%nat
       = Ok videos
       /\ map vid_segment_id videos = [1; 2; 3]
       /\ filter is_remote
            (events (generate_commentary_videos three_fates self segments) 0%nat)
          = [].
Proof.
  intros self segments. split; [reflexivity|].
  destruct (@run_without_provider_is_local nat three_fates self segments 0%nat
              eq_refl) as (videos & Hr & Hids & _ & Hrem & _).
  exists videos. split; [exact Hr|]. split; [exact Hids | exact Hrem].
Defined.

(** ** What the returned entries point to *)

Lemma written_by_app_l (a b : list Event) (v : Video) :
  written_by a v -> written_by (a ++ b) v.
Proof. intros (c & H). exists c. apply in_or_app. now left. Qed.

Lemma written_by_app_r (a b : list Event) (v : Video) :
  written_by b v -> written_by (a ++ b) v.
Proof. intros (c & H). exists c. apply in_or_app. now right. Qed.

Lemma written_by_cons (e : Event) (l : list Event) (v : Video) :
  written_by l v -> written_by (e :: l) v.
Proof. intros (c & H). exists c. now right. Qed.

Section ReturnedEntries.

Context {W : Type} (env : Env W).

Lemma download_video_path (url : json) (filename : string) (w w' : W)
    (p : string) (evs : list Event) :
  download_video env url filename w = (Ok (Some p), w', evs) ->
  p = path_join output_dir filename /\ exists content, In (EvWrite p content) evs.
Proof.
  unfold download_video. destruct url as [| | |url| |]; try discriminate.
  destruct (String.prefix "mock_" url).
  - intros H. inversion H; subst. split; [reflexivity|]. eexists. now left.
  - unfold bind, get_stream, call, write_file, emit, ret.
    destruct (requests_get_stream env url w) as [[|received|content] w1];
      intros H; inversion H; subst.
    split; [reflexivity|]. eexists. right. now left.
Qed.

Lemma poll_round_entries (self : AvatarVideoGenerator) (rest : list Task) :
  forall pending completed w r w' evs,
    poll_round env self rest pending completed w = (r, w', evs) ->
    forall pending' completed',
      r = Ok (pending', completed') ->
      exists added,
        completed' = (completed ++ added)%list
        /\ Forall (fun v => well_formed_video v /\ written_by evs v) added.
Proof.
  induction rest as [|t rest IH];
    intros pending completed w r w' evs H pending' completed' Hr.
  - inversion H; subst. injection H1 as <- <-. exists [].
    now rewrite app_nil_r.
  - simpl poll_round in H.
    destruct (String.eqb (task_provider t) "mock") eqn:Hm.
    + unfold write_file in H. step_emit H as evs1.
      unfold remove_task in H.
      destruct (list_remove task_eqb t pending) as [pending1|].
      2:{ apply bind_raise_inv in H. destruct H as [-> _]. discriminate. }
      apply bind_ret_inv in H.
      destruct (IH _ _ _ _ _ _ H _ _ Hr) as (added & -> & Hall).
      eexists (_ :: added). rewrite <- app_assoc. split; [reflexivity|].
      constructor.
      * split; [split; reflexivity|]. eexists. now left.
      * eapply Forall_impl; [|exact Hall].
        intros v [Hwf Hw]. split; [exact Hwf | now apply written_by_cons].
    + step_emit H as evs1.
      step H as info w1 nevs evs2 Hst; [|discriminate].
      step_emit H as evs3.
      assert (Hlift : forall l added,
                 Forall (fun v => well_formed_video v /\ written_by l v) added ->
                 Forall (fun v => well_formed_video v
                                  /\ written_by (EvQuery t :: nevs
                                                   ++ EvStatus t info :: l)%list v)
                   added).
      { intros l added Hall. eapply Forall_impl; [|exact Hall].
        intros v [Hwf Hw]. split; [exact Hwf|].
        now apply written_by_cons, written_by_app_r, written_by_cons. }
      destruct (json_is (st_status info) "completed"
                && json_truthy (st_video_url info)).
      * step_emit H as evs4.
        step H as path w2 fevs evs5 Hdl; [|discriminate].
        step_emit H as evs6.
        unfold remove_task in H.
        destruct (list_remove task_eqb t pending) as [pending1|].
        2:{ apply bind_raise_inv in H. destruct H as [-> _]. discriminate. }
        apply bind_ret_inv in H.
        destruct (IH _ _ _ _ _ _ H _ _ Hr) as (added & -> & Hall).
        assert (Hall' : Forall (fun v => well_formed_video v
                                  /\ written_by (EvFetch t (st_video_url info)
                                                   :: fevs
                                                   ++ EvFetched t path :: evs6)%list
                                        v) added).
        { eapply Forall_impl; [|exact Hall].
          intros v [Hwf Hw]. split; [exact Hwf|].
          now apply written_by_cons, written_by_app_r, written_by_cons. }
        destruct path as [p|]; [destruct (str_truthy p)|];
          try (exists added; split; [reflexivity | now apply Hlift]).
        apply download_video_path in Hdl. destruct Hdl as (-> & c & Hc).
        eexists (_ :: added). rewrite <- app_assoc. split; [reflexivity|].
        apply Hlift. constructor; [|exact Hall'].
        split; [split; reflexivity|].
        exists c. right. apply in_or_app. now left.
      * destruct (json_is (st_status info) "error").
        -- unfold remove_task in H.
           destruct (list_remove task_eqb t pending) as [pending1|].
           2:{ apply bind_raise_inv in H. destruct H as [-> _]. discriminate. }
           apply bind_ret_inv in H.
           destruct (IH _ _ _ _ _ _ H _ _ Hr) as (added & -> & Hall).
           exists added. split; [reflexivity | now apply Hlift].
        -- destruct (IH _ _ _ _ _ _ H _ _ Hr) as (added & -> & Hall).
           exists added. split; [reflexivity | now apply Hlift].
Qed.

Lemma poll_loop_entries (self : AvatarVideoGenerator) (budget : nat) :
  forall attempt pending completed w r w' evs,
    poll_loop env self budget attempt pending completed w = (r, w', evs) ->
    forall attempt' pending' completed',
      r = Ok (attempt', pending', completed') ->
      exists added,
        completed' = (completed ++ added)%list
        /\ Forall (fun v => well_formed_video v /\ written_by evs v) added.
Proof.
  induction budget as [|budget IH];
    intros attempt pending completed w r w' evs H attempt' pending' completed' Hr.
  - inversion H; subst. injection H1 as <- <- <-. exists [].
    now rewrite app_nil_r.
  - simpl poll_loop in H. destruct (nonempty pending).
    2:{ inversion H; subst. injection H1 as <- <- <-. exists [].
        now rewrite app_nil_r. }
    step_emit H as evs1.
    step H as pc w1 revs evs2 Hround; [|discriminate].
    destruct pc as [pending1 completed1].
    destruct (poll_round_entries _ _ _ _ _ Hround eq_refl)
      as (added1 & -> & Hall1).
    step H as u w2 sevs evs3 Hsleep.
    2:{ destruct (nonempty pending1); discriminate. }
    destruct (IH _ _ _ _ _ _ _ H _ _ _ Hr) as (added2 & -> & Hall2).
    exists (added1 ++ added2)%list. rewrite <- app_assoc.
    split; [reflexivity|]. apply Forall_app. split.
    + eapply Forall_impl; [|exact Hall1]. intros v [Hwf Hw].
      split; [exact Hwf | now apply written_by_cons, written_by_app_l].
    + eapply Forall_impl; [|exact Hall2]. intros v [Hwf Hw].
      split; [exact Hwf|].
      now apply written_by_cons, written_by_app_r, written_by_app_r.
Qed.

(** X9.  Every entry [generate_commentary_videos] returns is one the composer can
    use: its status is "completed", its local path is
    avatar_videos/segment_<id>.mp4 for its own segment id, and the run wrote
    a file at that path. *)
Theorem returned_entries_point_to_written_files
    (self : AvatarVideoGenerator) (segments : list Segment) (w : W)
    (videos : list Video) :
  result (generate_commentary_videos env self segments) w = Ok videos ->
  Forall (fun v =>
            well_formed_video v
            /\ written_by
                 (events (generate_commentary_videos env self segments) w) v)
    videos.
Proof.
  intros Hres.
  pose proof (run_eta (generate_commentary_videos env self segments) w) as H.
  rewrite Hres in H.
  remember (events (generate_commentary_videos env self segments) w) as evs.
  remember (world_after (generate_commentary_videos env self segments) w) as w'.
  clear Heqevs Heqw' Hres.
  remember (Ok videos) as r eqn:Hr.
  unfold generate_commentary_videos in H.
  step H as tasks w1 evs1 evs2 Htasks; [|discriminate].
  step H as out w2 evs3 evs4 Hpoll; [|discriminate].
  destruct out as [[attempt pending] completed].
  inversion H; subst. injection H1 as <-. unfold poll_videos in Hpoll.
  destruct (poll_loop_entries _ _ _ _ _ _ Hpoll eq_refl) as (added & -> & Hall).
  cbn [app]. rewrite app_nil_r.
  eapply Forall_impl; [|exact Hall]. intros v [Hwf Hw].
  split; [exact Hwf | now apply written_by_app_r].
Qed.

End ReturnedEntries.

Lemma returned_entries_point_to_written_files_witness :
  let segments := [segment 1 "one"; segment 2 "two"; segment 3 "three"] in
  let run := generate_commentary_videos three_fates with_key segments in
  let v := completed_video (heygen_job 1 "one") "avatar_videos/segment_1.mp4" in
  result run 0%nat = Ok [v]
  /\ Forall (fun v => well_formed_video v /\ written_by (events run 0%nat) v) [v].
Proof.
  intros segments run v.
  assert (Hr : result run 0%nat = Ok [v]) by (vm_compute; reflexivity).
  split; [exact Hr|].
  exact (@returned_entries_point_to_written_files nat three_fates with_key
           segments 0%nat [v] Hr).
Defined.

(** ** How many calls a run of the poller can make *)






Section PollerCost.

Context {W : Type} (env : Env W).


End PollerCost.

(** ** The assembler: which charts go where, and which files it touches *)

Lemma prefix_temp_dir (f : string) :
  String.prefix (temp_dir ++ "/") (path_join temp_dir f) = true.
Proof. unfold path_join. apply (prefix_own (temp_dir ++ "/") f). Qed.

Section AssemblerFootprint.

Context {W : Type} (env : Env W).

Lemma compose_segment_charts (charts : Charts) (seg : Video) :
  emits_only (chart_command charts)
    (compose_segment env seg (chart_mapping charts (vid_segment_id seg))).
Proof.
  unfold chart_mapping.
  destruct (vid_segment_id seg =? 1) eqn:H1;
    [apply Z.eqb_eq in H1|
     destruct (vid_segment_id seg =? 2) eqn:H2;
     [|destruct (vid_segment_id seg =? 3) eqn:H3; [apply Z.eqb_eq in H3|]]].
  - unfold compose_segment. rewrite H1.
    destruct (charts "run_rate") as [c|] eqn:Hc; cbn [opt_truthy];
      unfold add_fade_transition, create_image_video,
        create_picture_in_picture, run;
      emits; cbn; auto.
  - unfold compose_segment, add_fade_transition, run. cbn [opt_truthy negb].
    emits; cbn; auto.
  - unfold compose_segment. rewrite H3.
    destruct (charts "manhattan") as [c|] eqn:Hc; cbn [opt_truthy];
      unfold add_fade_transition, create_image_video,
        create_picture_in_picture, run;
      emits; cbn; auto.
  - unfold compose_segment, add_fade_transition, run. cbn [opt_truthy negb].
    emits; cbn; auto.
Qed.

Lemma compose_all_charts (charts : Charts) (segments : list Video) :
  forall acc,
    emits_only (chart_command charts) (compose_all env charts segments acc).
Proof.
  induction segments as [|seg rest IH]; intros acc; cbn [compose_all].
  - emits.
  - apply emits_bind; [apply compose_segment_charts | intros r; apply IH].
Qed.

(** X11.  [create_final_video] lays a chart over two segments only: the run-rate
    chart over segment 1 and the Manhattan chart over segment 3, each shown
    for 8 time units and placed bottom right.  No chart command is ever run
    for another segment or with another chart of [charts]. *)
Theorem charts_go_to_segments_one_and_three
    (self : VideoComposer) (segments : list Video) (charts : Charts) (w : W) :
  Forall (chart_command charts)
    (events (create_final_video env self segments charts) w).
Proof.
  revert w. change (emits_only (chart_command charts)
                      (create_final_video env self segments charts)).
  unfold create_final_video.
  apply emits_bind; [unfold check_ffmpeg, run; emits; exact I|].
  intros ffmpeg. destruct (negb ffmpeg).
  - unfold write_file. emits. exact I.
  - apply emits_bind; [apply compose_all_charts|].
    intros clips. unfold concatenate_videos, write_file, run.
    emits; exact I.
Qed.

Lemma compose_segment_footprint (seg : Video) (chart_path : option string) :
  emits_only composing_command (compose_segment env seg chart_path).
Proof.
  unfold compose_segment, add_fade_transition, create_image_video,
    create_picture_in_picture, run.
  emits; cbn [composing_command cmd_output];
    try exact I; apply prefix_temp_dir.
Qed.

Lemma compose_all_footprint (charts : Charts) (segments : list Video) :
  forall acc,
    emits_only composing_command (compose_all env charts segments acc).
Proof.
  induction segments as [|seg rest IH]; intros acc; cbn [compose_all].
  - emits.
  - apply emits_bind; [apply compose_segment_footprint | intros r; apply IH].
Qed.

(** X12.  [create_final_video] reaches no provider and touches few files: every
    intermediate clip is written by a tool under temp_video_files/, the only
    files it writes itself are the concatenation list and the placeholder,
    and the only tool output outside temp_video_files/ is the composer's
    output file.  The avatar clips and the charts are only read. *)
Theorem assembler_works_in_its_temp_dir
    (self : VideoComposer) (segments : list Video) (charts : Charts) (w : W) :
  Forall (assembling self)
    (events (create_final_video env self segments charts) w).
Proof.
  revert w. change (emits_only (assembling self)
                      (create_final_video env self segments charts)).
  unfold create_final_video.
  apply emits_bind; [unfold check_ffmpeg, run; emits; left; exact I|].
  intros ffmpeg. destruct (negb ffmpeg).
  - unfold write_file. emits. right. right. right. eexists. reflexivity.
  - apply emits_bind.
    + intros w. eapply Forall_impl; [|apply compose_all_footprint].
      intros e He. now left.
    + intros clips. unfold concatenate_videos, write_file, run.
      emits.
      * right. right. left. eexists. reflexivity.
      * right. left. reflexivity.
Qed.

End AssemblerFootprint.

(** ** The assembler keeps the order of its input *)

Section AssemblerOrder.

Context {W : Type} (env : Env W).

Lemma compose_all_in_order (charts : Charts) (segments : list Video) :
  forall acc w,
    exists clips evs w2,
      compose_all env charts segments acc w = (Ok (acc ++ clips)%list, w2, evs)
      /\ composed_in_order env charts segments w clips evs w2
      /\ clips_of segments clips.
Proof.
  induction segments as [|seg rest IH]; intros acc w.
  - exists [], [], w. rewrite app_nil_r.
    split; [reflexivity|]. split; constructor.
  - destruct (compose_segment_result env seg
                (chart_mapping charts (vid_segment_id seg)) w)
      as (r & Hres & Hr).
    pose proof (run_eta (compose_segment env seg
                           (chart_mapping charts (vid_segment_id seg))) w)
      as Hrun.
    rewrite Hres in Hrun.
    set (w1 := world_after _ w) in Hrun. set (evs := events _ w) in Hrun.
    clearbody w1 evs.
    destruct (IH (acc ++ kept r)%list w1)
      as (clips & evs' & w2 & Hrest & Hsteps & Hclips).
    exists (kept r ++ clips)%list, (evs ++ evs')%list, w2.
    split; [|split].
    + cbn [compose_all]. unfold bind. rewrite Hrun.
      replace (if opt_truthy r
               then match r with
                    | Some p => (acc ++ [p])%list
                    | None => acc
                    end
               else acc) with (acc ++ kept r)%list.
      * rewrite Hrest. now rewrite app_assoc.
      * destruct r as [p|]; cbn [opt_truthy kept];
          [destruct (str_truthy p)|]; now rewrite ?app_nil_r.
    + eapply composed_next; eauto.
    + destruct r as [p|]; cbn [kept]; [destruct (str_truthy p) eqn:Hp|];
        cbn [app]; try now constructor.
      destruct Hr as [Hr|[Hr|Hr]]; inversion Hr; subst; now constructor.
Qed.

(** C9: [concatenate_videos] writes the list file with one line
    file '<absolute path>' per clip of its input list, in the order of the
    list and nothing else, and runs a single concatenation over that file.
    [create_final_video] composes its segments one after the other in the
    order it was given them and hands the results over in that order: what
    the first segment gave comes first, and so on; a segment that gave
    nothing is left out; nothing is sorted by segment id.  Between the
    probe and the list file only composing tools run. *)
Theorem clips_concatenated_in_list_order :
  (forall video_list output_path w,
      let list_file := "temp_video_files/concat_list.txt" in
      concatenate_videos env video_list output_path w
      = (Ok (returned_zero
               (fst (subprocess_run env (FfmpegConcat list_file output_path) w))),
         snd (subprocess_run env (FfmpegConcat list_file output_path) w),
         [EvWrite list_file
            (String.concat ""
               (map (fun clip => "file '" ++ abspath env clip ++ "'" ++ newline)
                  video_list));
          EvRun (FfmpegConcat list_file output_path)]))
  /\ (forall self segments charts w,
        returned_zero (fst (subprocess_run env FfmpegVersion w)) = true ->
        let list_file := "temp_video_files/concat_list.txt" in
        let lines := fun clips : list string =>
          String.concat ""
            (map (fun clip => "file '" ++ abspath env clip ++ "'" ++ newline)
               clips) in
        exists clips composing w2,
          composed_in_order env charts segments
            (snd (subprocess_run env FfmpegVersion w)) clips composing w2
          /\ clips_of segments clips
          /\ Forall composing_command composing
          /\ events (create_final_video env self segments charts) w
             = (EvRun FfmpegVersion :: composing
                ++ if nonempty clips
                   then [EvWrite list_file (lines clips);
                         EvRun (FfmpegConcat list_file (output_filename self))]
                   else [])%list).
Proof.
  assert (Hcat : forall video_list output_path w,
    concatenate_videos env video_list output_path w
    = (Ok (returned_zero
             (fst (subprocess_run env
                     (FfmpegConcat "temp_video_files/concat_list.txt"
                        output_path) w))),
       snd (subprocess_run env
              (FfmpegConcat "temp_video_files/concat_list.txt" output_path) w),
       [EvWrite "temp_video_files/concat_list.txt"
          (String.concat ""
             (map (fun clip => "file '" ++ abspath env clip ++ "'" ++ newline)
                video_list));
        EvRun (FfmpegConcat "temp_video_files/concat_list.txt" output_path)])).
  { intros video_list output_path w.
    unfold concatenate_videos, bind, write_file, emit, run, call, ret.
    change concat_file with "temp_video_files/concat_list.txt".
    destruct (subprocess_run env
                (FfmpegConcat "temp_video_files/concat_list.txt" output_path) w).
    reflexivity. }
  split; [exact Hcat|].
  intros self segments charts w Hffmpeg list_file lines.
  destruct (compose_all_in_order charts segments []
              (snd (subprocess_run env FfmpegVersion w)))
    as (clips & composing & w2 & Hall & Hsteps & Hclips).
  exists clips, composing, w2.
  split; [exact Hsteps|]. split; [exact Hclips|].
  split.
  { pose proof (compose_all_footprint env charts segments []
                  (snd (subprocess_run env FfmpegVersion w))) as Hfoot.
    unfold events in Hfoot. now rewrite Hall in Hfoot. }
  unfold create_final_video, events, bind.
  rewrite check_ffmpeg_runs, Hffmpeg. cbn [negb].
  rewrite Hall. cbn [app].
  destruct clips as [|c clips]; cbn [nonempty negb].
  - unfold ret. cbn [snd app]. now rewrite app_nil_r.
  - rewrite Hcat.
    match goal with
    | |- context [if ?b then _ else ret None] => destruct b
    end.
    + unfold read.
      match goal with
      | |- context [if ?b then ret _ else raise] => destruct b
      end; unfold ret, raise; cbn [snd app]; rewrite ?app_nil_r; reflexivity.
    + unfold ret. cbn [snd app]. rewrite ?app_nil_r. reflexivity.
Qed.

End AssemblerOrder.

(** Clips for the segments 3, 1, 2, handed over in that order, with working
    tools and no chart: the list file names the composed clips 3, 1, 2 in
    that order, by their absolute paths. *)
Lemma clips_concatenated_in_list_order_witness :
  let env := scripted (fun _ _ => None) (fun _ _ => None) (fun _ _ => None)
               tools_ok in
  let composer := {| output_filename := "cricket_commentary_final.mp4" |} in
  let segments := [avatar_clip 3; avatar_clip 1; avatar_clip 2] in
  let content :=
    "file '/work/temp_video_files/composed_segment_3.mp4'" ++ newline
    ++ "file '/work/temp_video_files/composed_segment_1.mp4'" ++ newline
    ++ "file '/work/temp_video_files/composed_segment_2.mp4'" ++ newline in
  returned_zero (fst (subprocess_run env FfmpegVersion 0%nat)) = true
  /\ exists composing,
       Forall composing_command composing
       /\ events (create_final_video env composer segments (fun _ => None)) 0%nat
          = (EvRun FfmpegVersion :: composing
             ++ [EvWrite "temp_video_files/concat_list.txt" content;
                 EvRun (FfmpegConcat "temp_video_files/concat_list.txt"
                          "cricket_commentary_final.mp4")])%list.
Proof.
  intros env composer segments content.
  assert (Hffmpeg : returned_zero (fst (subprocess_run env FfmpegVersion 0%nat))
                    = true) by reflexivity.
  split; [exact Hffmpeg|].
  destruct (proj2 (clips_concatenated_in_list_order env) composer segments
              (fun _ => None) 0%nat Hffmpeg)
    as (clips & composing & w2 & Hsteps & _ & Hfoot & Hevs).
  assert (Hclips : clips = ["temp_video_files/composed_segment_3.mp4";
                            "temp_video_files/composed_segment_1.mp4";
                            "temp_video_files/composed_segment_2.mp4"]).
  { unfold segments in Hsteps. clear - Hsteps.
    repeat match goal with
           | H : composed_in_order _ _ (_ :: _) _ _ _ _ |- _ =>
               inversion H; subst; clear H
           | H : composed_in_order _ _ [] _ _ _ _ |- _ =>
               inversion H; subst; clear H
           | H : compose_segment _ _ _ _ = _ |- _ =>
               vm_compute in H; injection H as <- <- <-
           end.
    reflexivity. }
  subst clips. exists composing. split; [exact Hfoot | exact Hevs].
Defined.

(** ** What a returned path stands for *)

Section AssemblerResult.

Context {W : Type} (env : Env W).

(** X13.  When [create_final_video] returns a path, it is one of two: without the
    tools, the placeholder mock_<output file>; with them, the composer's
    output file, and then the concatenation run returned zero and the file
    exists in the world the call leaves.  A concatenation that reports
    success without leaving the file never gives a path. *)
Theorem returned_final_video_exists
    (self : VideoComposer) (segments : list Video) (charts : Charts) (w : W)
    (p : string) :
  let run := create_final_video env self segments charts in
  result run w = Ok (Some p) ->
  (ffmpeg_missing env w /\ p = "mock_" ++ output_filename self)
  \/ (ffmpeg_present env w
      /\ p = output_filename self
      /\ path_exists env p (world_after run w) = true
      /\ exists w2,
           returned_zero
             (fst (subprocess_run env (FfmpegConcat concat_file p) w2)) = true
           /\ world_after run w
              = snd (subprocess_run env (FfmpegConcat concat_file p) w2)).
Proof.
  intros run Hres. pose proof (run_eta run w) as H. rewrite Hres in H.
  remember (world_after run w) as w'. remember (events run w) as evs.
  remember (Ok (Some p)) as r eqn:Hr. clear Heqw' Heqevs Hres.
  unfold run, create_final_video in H.
  step H as ffmpeg w1 e1 e2 Hff; [|discriminate].
  rewrite check_ffmpeg_runs in Hff. injection Hff as <- <- <-.
  unfold ffmpeg_missing, ffmpeg_present.
  destruct (returned_zero (fst (subprocess_run env FfmpegVersion w))) eqn:Hz;
    cbn [negb] in H.
  - right. split; [reflexivity|].
    step H as clips w2 e3 e4 Hall; [|discriminate].
    destruct (nonempty clips); cbn [negb] in H.
    2:{ inversion H; subst. discriminate. }
    step H as ok w3 e5 e6 Hcat; [|discriminate].
    rewrite concatenate_videos_runs in Hcat. injection Hcat as <- <- <-.
    destruct (returned_zero
                (fst (subprocess_run env
                        (FfmpegConcat concat_file (output_filename self)) w2)))
      eqn:Hok.
    2:{ inversion H; subst. discriminate. }
    step H as written w4 e7 e8 Hex; [|discriminate].
    inversion Hex; subst.
    destruct (path_exists env (output_filename self)
                (snd (subprocess_run env
                        (FfmpegConcat concat_file (output_filename self)) w2)))
      eqn:Hexists.
    2:{ unfold raise in H. congruence. }
    unfold ret in H. injection H as <- <- <-.
    split; [reflexivity|]. split; [exact Hexists|].
    exists w2. split; [exact Hok | reflexivity].
  - left. split; [reflexivity|].
    step H as opened w2 e3 e4 Hopen; [|discriminate].
    destruct opened; [|unfold raise in H; congruence].
    unfold write_file in H. step_emit H as e5.
    unfold ret in H. rewrite Hr in H. injection H as <- _ _. reflexivity.
Qed.

End AssemblerResult.

Lemma returned_final_video_exists_witness :
  let composer := {| output_filename := "cricket_commentary_final.mp4" |} in
  let run := create_final_video tools_only composer
               [avatar_clip 1; avatar_clip 2] (fun _ => None) in
  result run 0%nat = Ok (Some "cricket_commentary_final.mp4")
  /\ ffmpeg_present tools_only 0%nat
  /\ path_exists tools_only "cricket_commentary_final.mp4" (world_after run 0%nat)
     = true.
Proof.
  intros composer run.
  assert (Hr : result run 0%nat = Ok (Some "cricket_commentary_final.mp4"))
    by (vm_compute; reflexivity).
  split; [exact Hr|].
  destruct (@returned_final_video_exists nat tools_only composer
              [avatar_clip 1; avatar_clip 2] (fun _ => None) 0%nat
              "cricket_commentary_final.mp4" Hr)
    as [[Hmiss _]|(Hpres & _ & Hex & _)].
  - exfalso. unfold ffmpeg_missing in Hmiss. vm_compute in Hmiss. discriminate.
  - split; [exact Hpres | exact Hex].
Defined.

(** ** The pipeline: failures are reported, not raised *)

Section PipelineRuns.

Context {W : Type} (env : Env W).

Lemma catch_ret_returns {A : Type} (m : M W A) (a : A) (w : W) :
  exists r, result (catch m (ret a)) w = Ok r.
Proof.
  unfold result, catch, ret. destruct (m w) as [[[r|] w1] evs]; cbn; eauto.
Qed.

(** X14.  No stage lets an exception out: [generate_avatar_videos],
    [compose_final_video] and [run_full_pipeline] always return a boolean.
    When the avatar generator raises (a status call or a download that does
    not get through), the pipeline returns [False] right there: stage 4 is
    not entered, no tool is run and nothing more is written. *)
Theorem pipeline_reports_failure_without_raising (self : Pipeline) (w : W) :
  let avatar_gen :=
    {| provider := avatar_provider self; api_key := avatar_api_key self |} in
  let stage3 := generate_commentary_videos env avatar_gen (script_segments self) in
  (exists ok self', result (generate_avatar_videos env self) w = Ok (ok, self'))
  /\ (exists ok self', result (compose_final_video env self) w = Ok (ok, self'))
  /\ (exists ok, result (run_full_pipeline env self) w = Ok ok)
  /\ (result stage3 w = Raised ->
      run_full_pipeline env self w
      = (Ok false, world_after stage3 w, events stage3 w)).
Proof.
  intros avatar_gen stage3.
  split.
  { destruct (catch_ret_returns
                (videos <- stage3 ;;
                 ret (true, {| avatar_api_key := avatar_api_key self;
                               avatar_provider := avatar_provider self;
                               script_segments := script_segments self;
                               charts := charts self;
                               avatar_videos := videos;
                               final_video := final_video self |}))
                (false, self) w) as [[ok self'] Hr].
    exists ok, self'. exact Hr. }
  split.
  { unfold compose_final_video.
    match goal with
    | |- exists ok self', result (catch ?m (ret ?a)) w = _ =>
        destruct (catch_ret_returns m a w) as [[ok self'] Hr]
    end.
    exists ok, self'. exact Hr. }
  split.
  { unfold run_full_pipeline. apply catch_ret_returns. }
  intros Hraised.
  unfold run_full_pipeline, generate_avatar_videos.
  fold avatar_gen. fold stage3.
  pose proof (run_eta stage3 w) as Hrun. rewrite Hraised in Hrun.
  unfold catch, bind, ret. rewrite Hrun. cbn. now rewrite !app_nil_r.
Qed.

(** X15.  With neither HEYGEN_API_KEY nor DID_API_KEY in the environment (unset or
    empty), stage 3 of the pipeline [main] builds succeeds on its own: it
    returns [True] with one avatar video per script segment, in order, and
    makes no request. *)
Theorem no_keys_in_environment_means_local_stage
    (getenv : string -> option string) (segments : list Segment)
    (chart_paths : Charts) (w : W) :
  opt_truthy (getenv "HEYGEN_API_KEY") = false ->
  opt_truthy (getenv "DID_API_KEY") = false ->
  let stage := generate_avatar_videos env
                 (pipeline_of getenv segments chart_paths) in
  exists self',
    result stage w = Ok (true, self')
    /\ map vid_segment_id (avatar_videos self') = map seg_id segments
    /\ Forall well_formed_video (avatar_videos self')
    /\ filter is_remote (events stage w) = [].
Proof.
  intros Hh Hd stage.
  assert (Hcfg : avatar_config getenv = (None, "heygen")).
  { unfold avatar_config. now rewrite Hh, Hd. }
  destruct (generate_commentary_videos_local env
              {| provider := "heygen"; api_key := None |} segments w eq_refl)
    as (tasks & w1 & Hids & Hgen).
  assert (Hstage : stage w
                   = (Ok (true,
                          {| avatar_api_key := None;
                             avatar_provider := "heygen";
                             script_segments := segments;
                             charts := chart_paths;
                             avatar_videos := map mock_video tasks;
                             final_video := None |}),
                      w1,
                      (repeat (EvSleep 1) (length segments)
                       ++ if nonempty segments
                          then EvRound 1 :: map segment_placeholder segments
                          else [])%list)).
  { unfold stage, generate_avatar_videos, pipeline_of.
    cbn [avatar_api_key avatar_provider script_segments charts final_video].
    rewrite Hcfg. cbn [fst snd].
    unfold catch, bind. rewrite Hgen. cbn. now rewrite app_nil_r. }
  eexists. unfold result, events. rewrite Hstage. cbn [fst snd].
  split; [reflexivity|]. cbn [avatar_videos].
  split; [rewrite map_map; exact Hids|].
  split; [apply Forall_map, Forall_forall; intros t _;
          apply mock_video_well_formed|].
  rewrite filter_app.
  assert (Hq : forall n, filter is_remote (repeat (EvSleep 1) n) = [])
    by (induction n; auto).
  assert (Hp : forall l, filter is_remote (map segment_placeholder l) = [])
    by (induction l; auto).
  rewrite Hq. destruct (nonempty segments); [|reflexivity].
  cbn [app filter is_remote]. apply Hp.
Qed.

(** X16.  HEYGEN_API_KEY wins over DID_API_KEY: when it is set, the generator the
    pipeline builds sends every script to HeyGen, one request per segment in
    segment order, with the HeyGen key; D-ID is not contacted, whether its
    key is set or not. *)
Theorem heygen_key_takes_precedence
    (getenv : string -> option string) (segments : list Segment)
    (chart_paths : Charts) (w : W) :
  opt_truthy (getenv "HEYGEN_API_KEY") = true ->
  let self := pipeline_of getenv segments chart_paths in
  let avatar_gen :=
    {| provider := avatar_provider self; api_key := avatar_api_key self |} in
  api_key avatar_gen = getenv "HEYGEN_API_KEY"
  /\ filter is_remote (events (create_tasks env avatar_gen segments []) w)
     = map (fun seg => EvPost heygen_create (seg_script seg)) segments.
Proof.
  intros Hh self avatar_gen.
  assert (Hgen : avatar_gen
                 = {| provider := "heygen"; api_key := getenv "HEYGEN_API_KEY" |}).
  { unfold avatar_gen, self, pipeline_of, avatar_config. now rewrite Hh. }
  rewrite Hgen. split; [reflexivity|].
  destruct (create_tasks_run env
              {| provider := "heygen"; api_key := getenv "HEYGEN_API_KEY" |}
              segments [] w)
    as (tasks & w1 & evs & Hrun & _ & _ & _ & Hevs).
  unfold events. rewrite Hrun. cbn [snd]. rewrite Hevs, submission_requests.
  unfold submits, create_endpoint. cbn [api_key provider]. rewrite Hh.
  reflexivity.
Qed.

End PipelineRuns.

(** ** Concrete runs *)

Lemma status_call_raises_on_transport_error_only_witness :
  result (check_video_status status_unreachable with_key (JStr "one") None) 0%nat
  = Raised
  /\ result (check_video_status status_unreachable no_key (JStr "one") None) 0%nat
     <> Raised.
Proof.
  split.
  - apply (@status_call_raises_on_transport_error_only nat status_unreachable
             with_key (JStr "one") None 0%nat).
    split; [reflexivity|]. left. split; reflexivity.
  - intros H.
    apply (@status_call_raises_on_transport_error_only nat status_unreachable
             no_key (JStr "one") None 0%nat) in H.
    destruct H as [H _]. discriminate.
Defined.


Lemma one_job_and_one_request_per_segment_witness :
  let segments := [segment 1 "one"; segment 2 "two"] in
  submits no_key = false
  /\ exists tasks,
       result (create_tasks three_fates no_key segments []) 0%nat = Ok tasks
       /\ map task_segment_id tasks = [1; 2]
       /\ Forall (fun t => is_mock t = true) tasks.
Proof.
  intros segments. split; [reflexivity|].
  destruct (@one_job_and_one_request_per_segment nat three_fates no_key segments
              0%nat) as (tasks & Hr & Hids & _ & _ & Hmock).
  exists tasks. split; [exact Hr|]. split; [exact Hids|].
  apply Hmock. reflexivity.
Defined.

Lemma pipeline_reports_failure_without_raising_witness :
  let self :=
    {| avatar_api_key := Some "key"; avatar_provider := "heygen";
       script_segments := [segment 1 "one"];
       charts := fun _ => None; avatar_videos := []; final_video := None |} in
  result (generate_commentary_videos status_unreachable with_key [segment 1 "one"])
    0%nat = Raised
  /\ result (run_full_pipeline status_unreachable self) 0%nat = Ok false.
Proof.
  intros self.
  assert (Hr : result (generate_commentary_videos status_unreachable with_key
                         [segment 1 "one"]) 0%nat = Raised)
    by (vm_compute; reflexivity).
  split; [exact Hr|].
  destruct (@pipeline_reports_failure_without_raising nat status_unreachable
              self 0%nat) as (_ & _ & _ & Hstop).
  unfold result. rewrite (Hstop Hr). reflexivity.
Defined.

Lemma no_keys_in_environment_means_local_stage_witness :
  let getenv := fun name : string =>
                  if String.eqb name "DID_API_KEY" then Some "" else None in
  let segments := [segment 1 "one"; segment 2 "two"; segment 3 "three"] in
  opt_truthy (getenv "HEYGEN_API_KEY") = false
  /\ opt_truthy (getenv "DID_API_KEY") = false
  /\ exists self',
       result (generate_avatar_videos three_fates
                 (pipeline_of getenv segments (fun _ => None))) 0%nat
       = Ok (true, self')
       /\ map vid_segment_id (avatar_videos self') = [1; 2; 3].
Proof.
  intros getenv segments.
  split; [reflexivity|]. split; [reflexivity|].
  destruct (@no_keys_in_environment_means_local_stage nat three_fates getenv
              segments (fun _ => None) 0%nat eq_refl eq_refl)
    as (self' & Hr & Hids & _).
  exists self'. split; [exact Hr | exact Hids].
Defined.

Lemma heygen_key_takes_precedence_witness :
  let getenv := fun name : string =>
                  if String.eqb name "HEYGEN_API_KEY" then Some "hk"
                  else if String.eqb name "DID_API_KEY" then Some "dk"
                  else None in
  let segments := [segment 1 "one"; segment 2 "two"] in
  let self := pipeline_of getenv segments (fun _ => None) in
  let avatar_gen :=
    {| provider := avatar_provider self; api_key := avatar_api_key self |} in
  opt_truthy (getenv "HEYGEN_API_KEY") = true
  /\ opt_truthy (getenv "DID_API_KEY") = true
  /\ api_key avatar_gen = Some "hk"
  /\ filter is_remote (events (create_tasks three_fates avatar_gen segments [])
                         0%nat)
     = [EvPost heygen_create "one"; EvPost heygen_create "two"].
Proof.
  intros getenv segments self avatar_gen.
  split; [reflexivity|]. split; [reflexivity|].
  exact (@heygen_key_takes_precedence nat three_fates getenv segments
           (fun _ => None) 0%nat eq_refl).
Defined.

(** ** What stage 4 reports *)

Section StageFour.

Context {W : Type} (env : Env W).

Lemma catch_ret_inv {A : Type} (m : M W A) (a b : A) (w w' : W)
    (evs : list Event) :
  catch m (ret a) w = (Ok b, w', evs) ->
  m w = (Ok b, w', evs) \/ (b = a /\ exists evs', m w = (Raised, w', evs')).
Proof.
  unfold catch, ret. destruct (m w) as [[[x|] w1] e1]; intros H.
  - left. exact H.
  - right. injection H as <- <- <-. split; [reflexivity|]. eauto.
Qed.

(** X17.  Stage 4 reports success in two cases only.  Without the tools it
    writes the two-line placeholder cricket_output/mock_final_video.txt and
    makes it the final video.  With the tools, the path [create_final_video]
    returned is the final video and a file exists there when the stage ends.
    So a stage that composed nothing, whose concatenation failed or that ran
    into an exception does not report success.  A successful stage leaves
    the avatar videos as they were. *)
Theorem stage_four_success_has_an_output (self self' : Pipeline) (w : W) :
  let stage := compose_final_video env self in
  result stage w = Ok (true, self') ->
  avatar_videos self' = avatar_videos self
  /\ exists p,
       final_video self' = Some p
       /\ ((ffmpeg_missing env w
            /\ p = "cricket_output/mock_final_video.txt"
            /\ exists content, events stage w = [EvRun FfmpegVersion;
                                                 EvWrite p content])
           \/ (ffmpeg_present env w
               /\ str_truthy p = true
               /\ path_exists env p (world_after stage w) = true)).
Proof.
  intros stage Hres. pose proof (run_eta stage w) as H. rewrite Hres in H.
  remember (world_after stage w) as w'. remember (events stage w) as evs.
  clear Heqw' Heqevs Hres.
  unfold stage, compose_final_video in H.
  apply catch_ret_inv in H. destruct H as [H|[E _]]; [|discriminate].
  remember (Ok (true, self')) as r eqn:Hr.
  step H as ffmpeg w1 e1 e2 Hff; [|discriminate].
  rewrite check_ffmpeg_runs in Hff. injection Hff as <- <- <-.
  unfold ffmpeg_missing, ffmpeg_present.
  destruct (returned_zero (fst (subprocess_run env FfmpegVersion w))) eqn:Hz;
    cbn [negb] in H.
  - step H as v w2 e3 e4 Hfinal; [|discriminate].
    destruct v as [p|]; [|unfold ret in H; congruence].
    step H as exists_ w3 e5 e6 Hex; [|discriminate].
    unfold read in Hex. injection Hex as <- <- <-.
    destruct (str_truthy p) eqn:Hp; cbn [andb] in H;
      [|unfold ret in H; congruence].
    destruct (path_exists env p w2) eqn:Hexists;
      [|unfold ret in H; congruence].
    unfold ret in H. rewrite Hr in H. injection H as <- <- <-.
    split; [reflexivity|]. exists p. split; [reflexivity|].
    right. auto.
  - unfold write_file in H. step_emit H as e3.
    unfold ret in H. rewrite Hr in H. injection H as <- <- <-.
    split; [reflexivity|]. eexists. split; [reflexivity|].
    left. split; [reflexivity|]. split; [reflexivity|].
    eexists. reflexivity.
Qed.

End StageFour.

Lemma stage_four_success_has_an_output_witness :
  let self :=
    {| avatar_api_key := None; avatar_provider := "heygen";
       script_segments := [];
       charts := fun _ => None;
       avatar_videos := [avatar_clip 1; avatar_clip 2];
       final_video := None |} in
  let out := "cricket_output/cricket_commentary_final.mp4" in
  result (compose_final_video tools_only self) 0%nat
  = Ok (true, with_final_video self (Some out))
  /\ path_exists tools_only out
       (world_after (compose_final_video tools_only self) 0%nat) = true.
Proof.
  intros self out.
  assert (Hr : result (compose_final_video tools_only self) 0%nat
               = Ok (true, with_final_video self (Some out)))
    by (vm_compute; reflexivity).
  split; [exact Hr|].
  destruct (@stage_four_success_has_an_output nat tools_only self
              (with_final_video self (Some out)) 0%nat Hr)
    as (_ & p & Hp & [(Hmiss & _)|(_ & _ & Hex)]).
  - exfalso. unfold ffmpeg_missing in Hmiss. vm_compute in Hmiss. discriminate.
  - cbn in Hp. injection Hp as <-. exact Hex.
Defined.

(** ** The pacing delay, on concrete runs *)

(** HeyGen accepts the script "one" and answers every other submission with
    HTTP 500. *)
Lemma pacing_delay_after_every_submission_witness :
  let env := scripted (fun script _ => if String.eqb script "one"
                                       then heygen_accepts "one"
                                       else server_error)
               (fun _ _ => None) (fun _ _ => None) no_tools in
  let segments := [segment 1 "one"; segment 2 "two"] in
  [segment 1 "one"; segment 2 "two"] <> []
  /\ events (create_tasks env with_key segments []) 0%nat
     = [EvPost heygen_create "one"; EvSleep 1;
        EvPost heygen_create "two"; EvSleep 1]
  /\ exists before,
       events (create_tasks env with_key segments []) 0%nat
       = (before ++ [EvSleep 1])%list.
Proof.
  intros env segments.
  assert (Hne : [segment 1 "one"; segment 2 "two"] <> []) by discriminate.
  split; [exact Hne|].
  destruct (@pacing_delay_after_every_submission nat env with_key segments 0%nat)
    as (tasks & _ & _ & _ & _ & Hevs & Hlast).
  split; [exact Hevs | exact (Hlast Hne)].
Defined.

(** C7 as stated fails: of two consecutive submissions with an API key the
    first is accepted and the second, answered with HTTP 500, degrades to
    the mock variant; the delay of 1 is applied after both, twice for one
    live job. *)
Lemma pacing_delay_applied_to_degraded_submission :
  ~ delay_only_after_live_submissions
      (scripted (fun script _ => if String.eqb script "one"
                                 then heygen_accepts "one"
                                 else server_error)
         (fun _ _ => None) (fun _ _ => None) no_tools)
      with_key [segment 1 "one"; segment 2 "two"] 0%nat.
Proof.
  intros H. specialize (H _ eq_refl). vm_compute in H. lia.
Qed.

(** ** What the poller returns, job by job *)

Lemma fetched_file_of_io (e : Event) : is_io e = true -> fetched_file_of e = [].
Proof. destruct e; intros H; try discriminate; reflexivity. Qed.

Lemma fetched_files_app (a b : list Event) :
  fetched_files (a ++ b) = (fetched_files a ++ fetched_files b)%list.
Proof. apply flat_map_app. Qed.

Lemma occurrences_In (x : Task) (l : list Task) :
  In x l -> (1 <= occurrences x l)%nat.
Proof.
  induction l as [|y l IH]; intros H; [destruct H|].
  rewrite occurrences_cons. destruct H as [->|H].
  - rewrite task_eqb_refl. lia.
  - specialize (IH H). lia.
Qed.

Lemma list_remove_incl (t : Task) (l l' : list Task) :
  list_remove task_eqb t l = Some l' -> incl l' l.
Proof.
  intros H x Hx. apply list_remove_perm in H.
  apply (Permutation_in x (Permutation_sym H)). now right.
Qed.

Lemma NoDup_app_disjoint {A : Type} (a b : list A) (x : A) :
  NoDup (a ++ b) -> In x a -> In x b -> False.
Proof.
  induction a as [|y a IH]; intros Hnd Ha Hb; [destruct Ha|].
  cbn [app] in Hnd. inversion Hnd as [|y' l Hy Hnd']; subst.
  destruct Ha as [->|Ha]; [|now apply IH].
  apply Hy. apply in_or_app. now right.
Qed.

(** What one pass adds to [completed_videos]: the entry of a mock job, or
    the entry of a fetch that gave a file. *)
Lemma task_polled_entry (t : Task) (evs : list Event) (v : Verdict) :
  task_polled t evs (Some v) ->
  (forall completed,
      deliver t v completed
      = (completed ++ if is_mock t then [mock_video t] else fetched_files evs)%list)
  /\ (is_mock t = true -> fetched_files evs = [])
  /\ (v = Keep -> is_mock t = false /\ fetched_files evs = []).
Proof.
  intros H. remember (Some v) as ov eqn:E.
  destruct H as
    [ Hm | nevs Hm Hio | nevs info Hm Hio Ht | nevs info Hm Hio Hc He
    | nevs fevs info Hm Hio Hfio Hc | nevs fevs info r Hm Hio Hfio Hc ];
    inversion E; subst; clear E; rewrite Hm.
  - split; [reflexivity|]. split; [reflexivity | discriminate].
  - assert (Hff : fetched_files (EvQuery t :: nevs ++ [EvStatus t info]) = []).
    { read_pass fetched_files fetched_file_of_io. reflexivity. }
    rewrite Hff. split; [intros c; cbn; now rewrite app_nil_r|].
    split; [discriminate | auto].
  - assert (Hff : fetched_files (EvQuery t :: nevs ++ [EvStatus t info]) = []).
    { read_pass fetched_files fetched_file_of_io. reflexivity. }
    rewrite Hff. split; [intros c; cbn; now rewrite app_nil_r|].
    split; [discriminate | discriminate].
  - assert (Hff : fetched_files
                    (EvQuery t :: nevs
                     ++ EvStatus t info :: EvFetch t (st_video_url info) :: fevs
                     ++ [EvFetched t r])
                  = fetched_file_of (EvFetched t r)).
    { read_pass fetched_files fetched_file_of_io.
      cbn [fetched_file_of app]. now rewrite app_nil_r. }
    rewrite Hff. split; [|split; [discriminate|]].
    + intros c. unfold fetch_verdict, fetched_file_of.
      destruct r as [p|]; [destruct (str_truthy p)|]; cbn [deliver];
        now rewrite ?app_nil_r.
    + intros E. exfalso. now apply (fetch_verdict_removes r).
Qed.

(** A round that runs to its end: what it adds, and what it leaves pending. *)
Lemma round_run_entries (rest pending : list Task) (completed : list Video)
    (evs : list Event) (out : option (list Task * list Video)) :
  round_run rest pending completed evs out ->
  forall pending' completed',
    out = Some (pending', completed') ->
    incl pending' pending
    /\ (forall x, is_mock x = true ->
                  occurrences x pending
                  = (occurrences x rest + occurrences x pending')%nat)
    /\ exists added,
         completed' = (completed ++ added)%list
         /\ forall v,
              In v added
              <-> (exists t, In t rest /\ is_mock t = true /\ v = mock_video t)
                  \/ In v (fetched_files evs).
Proof.
  induction 1 as [pending completed
                 |t rest pending completed evs Ht
                 |t rest pending completed evs evs' out Ht Hr IH
                 |t rest pending pending1 completed v evs evs' out Ht Hv Hrm Hr IH
                 |t rest pending completed v evs Ht Hv Hrm];
    intros pending' completed' Hout; try discriminate.
  - injection Hout as <- <-. split; [apply incl_refl|].
    split; [intros x _; reflexivity|].
    exists []. rewrite app_nil_r. split; [reflexivity|].
    intros v. split; [intros []|].
    intros [(t & [] & _)|[]].
  - destruct (task_polled_entry Ht) as (_ & _ & Hkeep).
    destruct (Hkeep eq_refl) as [Hm Hff].
    destruct (IH _ _ Hout) as (Hincl & Hocc & added & -> & Hadded).
    split; [exact Hincl|]. split.
    { intros x Hx. rewrite occurrences_cons, (Hocc x Hx).
      destruct (task_eqb t x) eqn:E; [|reflexivity].
      apply task_eqb_eq in E. subst x. congruence. }
    exists added. split; [reflexivity|].
    intros v0. rewrite fetched_files_app, Hff. cbn [app].
    rewrite Hadded. split.
    + intros [(t' & Hin & Hm' & ->)|Hf]; [left|now right].
      exists t'. split; [now right | auto].
    + intros [(t' & [<-|Hin] & Hm' & ->)|Hf]; [congruence|left|now right].
      exists t'. auto.
  - destruct (task_polled_entry Ht) as (Hdel & Hmock & _).
    destruct (IH _ _ Hout) as (Hincl & Hocc & added & -> & Hadded).
    split.
    { intros x Hx. apply (list_remove_incl _ _ Hrm). now apply Hincl. }
    split.
    { intros x Hx.
      rewrite occurrences_cons, (list_remove_occurrences _ _ Hrm x), (Hocc x Hx).
      lia. }
    rewrite (Hdel completed).
    exists ((if is_mock t then [mock_video t] else fetched_files evs)
            ++ added)%list.
    split; [now rewrite app_assoc|].
    intros v0. rewrite fetched_files_app, !in_app_iff, Hadded.
    destruct (is_mock t) eqn:Hm.
    + rewrite (Hmock eq_refl). cbn [In]. split.
      * intros [[<-|[]]|[(t' & Hin & Hm' & ->)|Hf]].
        -- left. exists t. split; [now left | auto].
        -- left. exists t'. split; [now right | auto].
        -- right. now right.
      * intros [(t' & [<-|Hin] & Hm' & ->)|[[]|Hf]].
        -- left. now left.
        -- right. left. exists t'. auto.
        -- right. now right.
    + split.
      * intros [Hf|[(t' & Hin & Hm' & ->)|Hf]].
        -- right. now left.
        -- left. exists t'. split; [now right | auto].
        -- right. now right.
      * intros [(t' & [<-|Hin] & Hm' & ->)|[Hf|Hf]].
        -- congruence.
        -- right. left. exists t'. auto.
        -- now left.
        -- right. now right.
Qed.

(** The loop, when it returns: what it adds and what it leaves pending. *)
Lemma loop_run_entries (budget : nat) (attempt : Z) (pending : list Task)
    (completed : list Video) (evs : list Event)
    (out : option (Z * list Task * list Video)) :
  loop_run budget attempt pending completed evs out ->
  forall attempt' pending' completed',
    out = Some (attempt', pending', completed') ->
    incl pending' pending
    /\ (pending' <> [] -> rounds evs = budget)
    /\ (budget <> 0%nat -> forall t, In t pending' -> is_mock t = false)
    /\ exists added,
         completed' = (completed ++ added)%list
         /\ (forall v,
                In v added ->
                (exists t, In t pending /\ is_mock t = true /\ v = mock_video t)
                \/ In v (fetched_files evs))
         /\ (forall v, In v (fetched_files evs) -> In v added)
         /\ (budget <> 0%nat ->
             forall t, In t pending -> is_mock t = true ->
                       In (mock_video t) added).
Proof.
  induction 1 as [attempt pending completed
                 |budget attempt completed
                 |budget attempt pending completed evs Hne Hr
                 |budget attempt pending completed completed1 evs Hne Hr
                 |budget attempt pending pending1 completed completed1 evs evs'
                    out Hne Hr Hne1 Hl IH];
    intros attempt' pending' completed' Hout; try discriminate.
  - injection Hout as <- <- <-. split; [apply incl_refl|].
    split; [reflexivity|]. split; [intros H; now destruct H|].
    exists []. rewrite app_nil_r. split; [reflexivity|].
    split; [intros v []|]. split; [intros v []|]. intros H. now destruct H.
  - injection Hout as <- <- <-. split; [apply incl_refl|].
    split; [intros H; now destruct H|]. split; [intros _ t []|].
    exists []. rewrite app_nil_r. split; [reflexivity|].
    split; [intros v []|]. split; [intros v []|]. intros _ t [].
  - injection Hout as <- <- <-.
    destruct (round_run_entries Hr eq_refl) as (_ & _ & added & -> & Hadded).
    split; [intros x []|]. split; [intros H; now destruct H|].
    split; [intros _ t []|].
    exists added. split; [reflexivity|].
    change (fetched_files (EvRound (attempt + 1) :: evs))
      with (fetched_files evs).
    split; [intros v Hv; now apply Hadded|].
    split; [intros v Hv; apply Hadded; now right|].
    intros _ t Hin Hm. apply Hadded. left. exists t. auto.
  - destruct (round_run_entries Hr eq_refl)
      as (Hincl1 & Hocc1 & added1 & -> & Hadded1).
    destruct (IH _ _ _ Hout) as (Hincl & Hrounds & _ & added2 & -> & Hin2 & Hff2 & _).
    assert (Hlive1 : forall t, In t pending1 -> is_mock t = false).
    { intros t Hin. destruct (is_mock t) eqn:Hm; [|reflexivity].
      pose proof (Hocc1 t Hm) as Ho.
      pose proof (occurrences_In t pending1 Hin). lia. }
    split; [intros x Hx; now apply Hincl1, Hincl|].
    split.
    { intros Hp.
      change (EvRound (attempt + 1) :: evs ++ EvSleep 5 :: evs')%list
        with ([EvRound (attempt + 1)] ++ evs ++ [EvSleep 5] ++ evs')%list.
      rewrite !rounds_app, (round_run_no_round Hr), (Hrounds Hp). reflexivity. }
    split; [intros _ t Hin; now apply Hlive1, Hincl|].
    exists (added1 ++ added2)%list. split; [now rewrite app_assoc|].
    assert (Hff : fetched_files
                    (EvRound (attempt + 1) :: evs ++ EvSleep 5 :: evs')
                  = (fetched_files evs ++ fetched_files evs')%list).
    { change (EvRound (attempt + 1) :: evs ++ EvSleep 5 :: evs')%list
        with ([EvRound (attempt + 1)] ++ evs ++ [EvSleep 5] ++ evs')%list.
      now rewrite !fetched_files_app. }
    rewrite Hff. split; [|split].
    + intros v Hv. apply in_app_or in Hv. destruct Hv as [Hv|Hv].
      * apply Hadded1 in Hv. destruct Hv as [Hv|Hv]; [now left|].
        right. apply in_or_app. now left.
      * apply Hin2 in Hv. destruct Hv as [(t & Hin & Hm & ->)|Hv].
        -- rewrite (Hlive1 t Hin) in Hm. discriminate.
        -- right. apply in_or_app. now right.
    + intros v Hv. apply in_or_app. apply in_app_or in Hv.
      destruct Hv as [Hv|Hv]; [left; apply Hadded1; now right|].
      right. now apply Hff2.
    + intros _ t Hin Hm. apply in_or_app. left. apply Hadded1.
      left. exists t. auto.
Qed.

Section ReturnedList.

Context {W : Type} (env : Env W).

Lemma create_tasks_quiet (self : AvatarVideoGenerator)
    (segments : list Segment) :
  forall acc,
    emits_only (fun e => dropped_of e = [] /\ fetched_file_of e = []
                         /\ is_round e = false)
      (create_tasks env self segments acc).
Proof.
  induction segments as [|seg rest IH]; intros acc; cbn [create_tasks].
  - emits.
  - unfold create_task, create_avatar_video_heygen, create_avatar_video_did,
      _create_mock_response, post, sleep.
    emits; try apply IH; repeat split.
Qed.

(** C1, as the code has it: when [generate_commentary_videos] returns, the
    list it returns holds completed entries only, and holds exactly these:
    the entry of every mock job and the entry of every job polled
    "completed" with a locator whose fetch gave a file.  A job whose status
    came back "error", or whose fetch gave no file, has left the pending
    list with no entry: it shows in the trace alone.  The jobs still pending
    at the end are jobs of a live provider, they are there only after all 60
    rounds, and they are not returned either: the method prints them.  Every
    segment is in exactly one of the three groups. *)
Theorem returned_videos_account
    (self : AvatarVideoGenerator) (segments : list Segment) (w : W)
    (videos : list Video) :
  let evs := events (generate_commentary_videos env self segments) w in
  let w1 := world_after (create_tasks env self segments []) w in
  result (generate_commentary_videos env self segments) w = Ok videos ->
  exists tasks attempt pending,
    result (create_tasks env self segments []) w = Ok tasks
    /\ result (poll_videos env self tasks) w1 = Ok (attempt, pending, videos)
    /\ Forall (fun v => vid_status v = "completed") videos
    /\ (forall v,
          In v videos
          <-> (exists t, In t tasks /\ is_mock t = true /\ v = mock_video t)
              \/ In v (fetched_files evs))
    /\ Permutation
         (map seg_id segments)
         (map vid_segment_id videos
          ++ map task_segment_id (dropped evs)
          ++ map task_segment_id pending)
    /\ (NoDup (map seg_id segments) ->
        NoDup (map vid_segment_id videos
               ++ map task_segment_id (dropped evs)
               ++ map task_segment_id pending))
    /\ incl pending tasks
    /\ Forall (fun t => is_mock t = false) pending
    /\ (pending <> [] -> attempt = 60 /\ rounds evs = 60%nat).
Proof.
  intros evs w1 H. unfold generate_commentary_videos in H.
  pose proof H as Hres. rewrite result_bind in Hres.
  destruct (result (create_tasks env self segments []) w) as [tasks|] eqn:Hc;
    [|discriminate].
  fold w1 in Hres.
  rewrite result_bind in Hres.
  destruct (result (poll_videos env self tasks) w1)
    as [[[attempt pending] completed]|] eqn:Hp; [|discriminate].
  cbn in Hres. inversion Hres; subst completed. clear Hres.
  exists tasks, attempt, pending.
  split; [reflexivity|]. split; [exact Hp|].
  pose proof (poll_videos_sound env self tasks w1) as Hrun.
  rewrite Hp in Hrun. cbn [outcome] in Hrun.
  destruct (loop_run_accounts Hrun eq_refl) as [Hperm Hall].
  destruct (loop_run_entries Hrun eq_refl)
    as (Hincl & Hrounds & Hlive & added & Hvideos & Hin & Hff & Hmock).
  cbn [app] in Hvideos. subst added.
  destruct (loop_run_rounds Hrun) as (_ & _ & _ & Hattempt).
  destruct (Hattempt _ _ _ eq_refl) as (Hatt & _).
  (* the trace of the whole run: the submissions, then the poller *)
  assert (Hevs : evs = (events (create_tasks env self segments []) w
                        ++ events (poll_videos env self tasks) w1)%list).
  { unfold evs, generate_commentary_videos.
    rewrite events_bind, Hc. fold w1.
    rewrite events_bind, Hp. cbn [events ret snd]. now rewrite app_nil_r. }
  pose proof (create_tasks_quiet self segments [] w) as Hquiet.
  assert (Hd : dropped evs = dropped (events (poll_videos env self tasks) w1)).
  { rewrite Hevs, dropped_app. unfold dropped at 1.
    rewrite flat_map_nil_Forall; [reflexivity|].
    eapply Forall_impl; [|exact Hquiet]. now intros e (He & _). }
  assert (Hf : fetched_files evs
               = fetched_files (events (poll_videos env self tasks) w1)).
  { rewrite Hevs, fetched_files_app. unfold fetched_files at 1.
    rewrite flat_map_nil_Forall; [reflexivity|].
    eapply Forall_impl; [|exact Hquiet]. now intros e (_ & He & _). }
  assert (Hr : rounds evs = rounds (events (poll_videos env self tasks) w1)).
  { rewrite Hevs, rounds_app, rounds_quiet; [reflexivity|].
    eapply Forall_impl; [|exact Hquiet]. now intros e (_ & _ & He). }
  rewrite Hd, Hf, Hr.
  assert (Hperm' : Permutation (map seg_id segments)
                     (map vid_segment_id videos
                      ++ map task_segment_id
                           (dropped (events (poll_videos env self tasks) w1))
                      ++ map task_segment_id pending)).
  { rewrite app_nil_r in Hperm.
    rewrite <- (@create_tasks_segment_ids _ env self segments [] w tasks Hc
                : _ = map seg_id segments).
    exact Hperm. }
  split; [apply Hall; constructor|].
  split.
  { intros v. split.
    - intros Hv. now apply Hin.
    - intros [(t & Ht & Hm & ->)|Hv]; [|now apply Hff].
      apply Hmock; auto. discriminate. }
  split; [exact Hperm'|].
  split; [intros Hnd; exact (Permutation_NoDup Hperm' Hnd)|].
  split; [exact Hincl|].
  split; [apply Forall_forall; apply Hlive; discriminate|].
  intros Hne. specialize (Hrounds Hne).
  split; [|exact Hrounds].
  rewrite Hatt, Hrounds. reflexivity.
Qed.

End ReturnedList.

(** Three segments, three fates: the first is returned, the second is
    dropped on an HTTP 500 from the status call, the third is still pending
    after 60 rounds. *)
Lemma returned_videos_account_witness :
  let segments := [segment 1 "one"; segment 2 "two"; segment 3 "three"] in
  let run := generate_commentary_videos three_fates with_key segments in
  let v := completed_video (heygen_job 1 "one") "avatar_videos/segment_1.mp4" in
  result run 0%nat = Ok [v]
  /\ fetched_files (events run 0%nat) = [v]
  /\ dropped (events run 0%nat) = [heygen_job 2 "two"]
  /\ exists attempt pending,
       pending = [heygen_job 3 "three"]
       /\ attempt = 60
       /\ rounds (events run 0%nat) = 60%nat
       /\ Permutation [1; 2; 3]
            ([1] ++ map task_segment_id (dropped (events run 0%nat))
             ++ map task_segment_id pending).
Proof.
  intros segments run v.
  assert (Hr : result run 0%nat = Ok [v]) by (vm_compute; reflexivity).
  split; [exact Hr|]. split; [vm_compute; reflexivity|].
  split; [vm_compute; reflexivity|].
  destruct (@returned_videos_account nat three_fates with_key segments 0%nat
              [v] Hr)
    as (tasks & attempt & pending & Htasks & Hpoll & _ & _ & Hperm & _
        & _ & _ & Hlast).
  assert (Ht : tasks = [heygen_job 1 "one"; heygen_job 2 "two";
                        heygen_job 3 "three"]).
  { vm_compute in Htasks. now injection Htasks as <-. }
  subst tasks.
  assert (Hp : pending = [heygen_job 3 "three"]).
  { vm_compute in Hpoll. now injection Hpoll as _ <-. }
  exists attempt, pending.
  assert (Hne : pending <> []) by (rewrite Hp; discriminate).
  destruct (Hlast Hne) as [Hatt Hrounds].
  split; [exact Hp|]. split; [exact Hatt|]. split; [exact Hrounds|].
  exact Hperm.
Defined.
